(** * Webpack runtime and plugin fragments: a shallow embedding

    The development follows the sources of the repository:

    - [examples/code-splitting-bundle-loader/README.md]: the emitted
      bootstrap, the bundle-loader wrapper module and the JSONP chunk
      loading runtime ([__webpack_require__.f.j], [webpackJsonpCallback]);
    - [lib/WebpackOptionsApply.js]: [WebpackOptionsApply.process], with its
      [moduleIds] / [chunkIds] switches, and [LibManifestPlugin];
    - the eval source map module template plugin and [NodeStuffPlugin] with
      its two module decorator runtime modules.

    JavaScript objects used as dictionaries are finite maps, arrays are
    lists, closures over mutable variables are identified with the state
    they close over, and the host (browser events, timers, the file
    system) is an explicit part of the state or an explicit event. *)

From Stdlib Require Import ZArith NArith List String Ascii Bool Lia.
From stdpp Require Import base option list gmap strings pretty.

(** The line feed, written [\n] in the sources. *)
Definition nl : string := String (ascii_of_nat 10) EmptyString.


(* ===================================================================== *)
(** * The JSONP chunk loading runtime *)
(* ===================================================================== *)

Module Jsonp.

(** Chunk ids and module ids are numbers, as in the build of the example
    (chunks 396 and 404, modules 0, 1 and 2); promises, scripts and
    functions are identified by natural numbers. *)

(** Entries of [installedChunks]:
    [undefined] = chunk not loaded (no entry in the map),
    [null] = chunk preloaded/prefetched, an array
    [[resolve, reject, promise]] = chunk loading, [0] = chunk loaded. *)
Inductive chunkData :=
  | Installed
  | Prefetched
  | Loading (promise : nat).

(** The [Error] object built by [onScriptComplete]. *)
Record error := Error {
  message : string;
  type : string;
  request : string
}.

Inductive promiseState :=
  | Pending
  | Fulfilled
  | Rejected (e : error).

(** A [script] element created by [__webpack_require__.f.j], together with
    the closure state that belongs to it: [chunk] is the [chunkId] its
    [loadingEnded] closes over, [handlers] tells whether
    [script.onerror]/[script.onload] are still set and [timer] whether the
    [setTimeout] timer is still armed; [deadline] is the time at which
    that timer is due. *)
Record script := Script {
  src : string;
  charset : string;
  timeoutAttr : N;
  nonce : option string;
  chunk : N;
  handlers : bool;
  timer : bool;
  deadline : N
}.

(** Module factories are opaque. *)
Definition factory := nat.

(** An object used as a module map: own properties and the enumerable
    properties found on its prototype chain ([for ... in] visits both). *)
Record moduleMap := ModuleMap {
  own : gmap N factory;
  inherited : gmap N factory
}.

(** The values that occur in the array handed to [webpackJsonp.push]. *)
Inductive jsval :=
  | VUndefined
  | VNum (n : N)
  | VIds (ids : list N)
  | VModules (m : moduleMap)
  | VFunc (f : nat).

Definition truthy (v : jsval) : bool :=
  match v with
  | VUndefined => false
  | VNum n => negb (n =? 0)%N
  | _ => true
  end.

(** What the runtime does to its environment, in the order it does it. *)
Inductive effect :=
  | AppendScript (s : nat)
  | CallRuntime (f : nat)
  | ParentPush (data : list jsval)
  | Resolve (p : nat)
  | Reject (p : nat) (e : error).

Record state := State {
  installedChunks : gmap N chunkData;
  modules : gmap N factory;          (* __webpack_require__.m *)
  promises : list promiseState;      (* every promise created so far *)
  scripts : list script;             (* children of document.head *)
  jsonpArray : list (list jsval);    (* window["webpackJsonp"] *)
  nc : option string;                (* __webpack_require__.nc *)
  now : N;                           (* the clock of the host, in ms *)
  trace : list effect
}.

Definition set_installedChunks (f : gmap N chunkData → gmap N chunkData) (st : state) : state :=
  State (f (installedChunks st)) (modules st) (promises st) (scripts st)
        (jsonpArray st) (nc st) (now st) (trace st).

Definition set_modules (f : gmap N factory → gmap N factory) (st : state) : state :=
  State (installedChunks st) (f (modules st)) (promises st) (scripts st)
        (jsonpArray st) (nc st) (now st) (trace st).

Definition set_promises (f : list promiseState → list promiseState) (st : state) : state :=
  State (installedChunks st) (modules st) (f (promises st)) (scripts st)
        (jsonpArray st) (nc st) (now st) (trace st).

Definition set_scripts (f : list script → list script) (st : state) : state :=
  State (installedChunks st) (modules st) (promises st) (f (scripts st))
        (jsonpArray st) (nc st) (now st) (trace st).

Definition set_jsonpArray (f : list (list jsval) → list (list jsval)) (st : state) : state :=
  State (installedChunks st) (modules st) (promises st) (scripts st)
        (f (jsonpArray st)) (nc st) (now st) (trace st).

Definition set_now (f : N → N) (st : state) : state :=
  State (installedChunks st) (modules st) (promises st) (scripts st)
        (jsonpArray st) (nc st) (f (now st)) (trace st).

Definition emit (e : effect) (st : state) : state :=
  State (installedChunks st) (modules st) (promises st) (scripts st)
        (jsonpArray st) (nc st) (now st) (trace st ++ [e]).

(** [__webpack_require__.p] and [__webpack_require__.u]. *)
Definition publicPath : string := "dist/".
Definition u (chunkId : N) : string := "" +:+ pretty chunkId +:+ ".output.js".

(** The delay passed to [setTimeout]. *)
Definition timeoutDelay : N := 120000.

(** The state right after the runtime modules have been installed: the
    entry chunk 404 is loaded, the two modules of the entry chunk are
    registered. *)
Definition init : state :=
  State {[ 404%N := Installed ]} {[ 0%N := 0; 1%N := 1 ]} [] [] [] None 0 [].

(** Settling a promise: only a pending promise changes. *)
Definition settle (p : nat) (s : promiseState) (ps : list promiseState) : list promiseState :=
  match ps !! p with
  | Some Pending => <[p := s]> ps
  | _ => ps
  end.

Definition resolve (p : nat) (st : state) : state :=
  emit (Resolve p) (set_promises (settle p Fulfilled) st).

Definition reject (p : nat) (e : error) (st : state) : state :=
  emit (Reject p e) (set_promises (settle p (Rejected e)) st).

(** [__webpack_require__.f.j = function(chunkId, promises)]; the result
    carries the [promises] array after the call. *)
Definition f_j (chunkId : N) (promises_arg : list nat) (st : state) : state * list nat :=
  match installedChunks st !! chunkId with
  | Some Installed => (st, promises_arg)
  | Some (Loading p) => (st, promises_arg ++ [p])
  | Some Prefetched | None =>
      let p := length (promises st) in
      let st := set_promises (λ ps, ps ++ [Pending]) st in
      let st := set_installedChunks <[chunkId := Loading p]> st in
      let url := publicPath +:+ u chunkId in
      let s := length (scripts st) in
      let sc := Script url "utf-8" 120 (nc st) chunkId true true (now st + timeoutDelay) in
      let st := set_scripts (λ l, l ++ [sc]) st in
      (emit (AppendScript s) st, promises_arg ++ [p])
  end.

(** [__webpack_require__.e]: [j] is the only key of [__webpack_require__.f];
    the result is the array given to [Promise.all]. *)
Definition requireEnsure (chunkId : N) (st : state) : state * list nat :=
  f_j chunkId [] st.

(** [loadingEnded], closed over [chunkId]; the result is the [reject]
    function of the returned entry, if any. An entry set to [undefined]
    is an entry that is not there. *)
Definition loadingEnded (chunkId : N) (st : state) : state * option nat :=
  match installedChunks st !! chunkId with
  | Some (Loading p) => (st, Some p)
  | Some Installed => (st, None)
  | Some Prefetched | None => (set_installedChunks (delete chunkId) st, None)
  end.

(** The events [onScriptComplete] is called with: [type] and the [src]
    of [target]. *)
Record domEvent := DomEvent {
  ev_type : string;
  ev_target_src : string
}.

Definition disarm (sc : script) : script :=
  Script (src sc) (charset sc) (timeoutAttr sc) (nonce sc) (chunk sc) false false (deadline sc).

(** [onScriptComplete] of the script with index [s]. *)
Definition onScriptComplete (s : nat) (event : domEvent) (st : state) : state :=
  match scripts st !! s with
  | None => st
  | Some sc =>
      let st := set_scripts (<[s := disarm sc]>) st in
      let '(st, reportError) := loadingEnded (chunk sc) st in
      match reportError with
      | Some p =>
          let errorType := if String.eqb (ev_type event) "load" then "missing" else ev_type event in
          let realSrc := ev_target_src event in
          let err := Error ("Loading chunk " +:+ pretty (chunk sc) +:+ " failed." +:+ nl
                            +:+ "(" +:+ errorType +:+ ": " +:+ realSrc +:+ ")")
                           errorType realSrc in
          reject p err st
      | None => st
      end
  end.

(** The first loop of [webpackJsonpCallback]. *)
Fixpoint flagChunks (chunkIds : list N) (resolves : list nat) (st : state) : state * list nat :=
  match chunkIds with
  | [] => (st, resolves)
  | chunkId :: rest =>
      let resolves :=
        match installedChunks st !! chunkId with
        | Some (Loading p) => resolves ++ [p]
        | _ => resolves
        end in
      flagChunks rest resolves (set_installedChunks <[chunkId := Installed]> st)
  end.

(** The [for ... in] loop with its [hasOwnProperty] test: of the keys
    visited, those of [own] are copied. *)
Definition addModules (moreModules : jsval) (st : state) : state :=
  match moreModules with
  | VModules m =>
      set_modules (λ ms, filter (λ kv, is_Some (own m !! kv.1)) (own m ∪ inherited m) ∪ ms) st
  | _ => st
  end.

(** [while(resolves.length) resolves.shift()();] *)
Fixpoint drain (resolves : list nat) (st : state) : state :=
  match resolves with
  | [] => st
  | p :: rest => drain rest (resolve p st)
  end.

Inductive outcome := Returned | Threw.

(** [webpackJsonpCallback(data)]. [data[0].length] throws when [data[0]]
    is [undefined] and the loop does not run when [data[0]] is no array;
    calling a truthy [data[3]] that is no function throws as well.
    [parentJsonpFunction] is the original [push] of the array
    [window["webpackJsonp"]]. *)
Definition webpackJsonpCallback (data : list jsval) (st : state) : state * outcome :=
  let chunkIds := nth 0 data VUndefined in
  let moreModules := nth 1 data VUndefined in
  let runtime := nth 3 data VUndefined in
  match chunkIds with
  | VUndefined => (st, Threw)
  | _ =>
      let ids := match chunkIds with VIds ids => ids | _ => [] end in
      let '(st, resolves) := flagChunks ids [] st in
      let st := addModules moreModules st in
      let after_runtime :=
        if truthy runtime then
          match runtime with
          | VFunc f => (emit (CallRuntime f) st, Returned)
          | _ => (st, Threw)
          end
        else (st, Returned) in
      match after_runtime with
      | (st, Threw) => (st, Threw)
      | (st, Returned) =>
          let st := emit (ParentPush data) (set_jsonpArray (λ a, a ++ [data]) st) in
          (drain resolves st, Returned)
      end
  end.

(** ** The host: what can happen to the runtime *)

Inductive event :=
  | Request (chunkId : N)          (* a call of [__webpack_require__.e] *)
  | ScriptLoad (s : nat)           (* the [load] event of a script *)
  | ScriptError (s : nat)          (* the [error] event of a script *)
  | TimerFire (s : nat)            (* the timer of a script is run *)
  | JsonpPush (data : list jsval)  (* a chunk file calls [webpackJsonp.push] *)
  | Elapse (d : N).                (* time passes *)

(** One event; the second component is the array of promises handed to the
    requester, for a [Request]. *)
Definition step (st : state) (ev : event) : state * list nat :=
  match ev with
  | Request c => requireEnsure c st
  | ScriptLoad s =>
      match scripts st !! s with
      | Some sc => if handlers sc then (onScriptComplete s (DomEvent "load" (src sc)) st, [])
                   else (st, [])
      | None => (st, [])
      end
  | ScriptError s =>
      match scripts st !! s with
      | Some sc => if handlers sc then (onScriptComplete s (DomEvent "error" (src sc)) st, [])
                   else (st, [])
      | None => (st, [])
      end
  | TimerFire s =>
      match scripts st !! s with
      | Some sc => if timer sc && (deadline sc <=? now st)%N
                   then (onScriptComplete s (DomEvent "timeout" (src sc)) st, [])
                   else (st, [])
      | None => (st, [])
      end
  | JsonpPush data => ((webpackJsonpCallback data st).1, [])
  | Elapse d => (set_now (λ t, (t + d)%N) st, [])
  end.

(** A run; the answers to the events are collected in order. *)
Fixpoint exec (st : state) (evs : list event) : state * list (list nat) :=
  match evs with
  | [] => (st, [])
  | ev :: rest =>
      let '(st1, out) := step st ev in
      let '(st2, outs) := exec st1 rest in
      (st2, out :: outs)
  end.

Definition run (st : state) (evs : list event) : state := (exec st evs).1.

(** The number of scripts appended for a chunk: the underlying fetches. *)
Definition fetches (c : N) (st : state) : nat :=
  length (filter (λ c', c' = c) (chunk <$> scripts st)).

(** A script whose [onScriptComplete] has not run yet. *)
Definition armed (sc : script) : bool := handlers sc || timer sc.

(** Every [Request c] of a run was answered with [ans]. *)
Definition answered (c : N) (evs : list event) (outs : list (list nat)) (ans : list nat) : Prop :=
  ∀ i, evs !! i = Some (Request c) → outs !! i = Some ans.

Definition requestsb (c : N) (ev : event) : bool :=
  match ev with
  | Request c' => bool_decide (c' = c)
  | _ => false
  end.

(** The promise of a chunk that is loading. *)
Definition loadingPromise (ic : gmap N chunkData) (c : N) : option nat :=
  match ic !! c with
  | Some (Loading p) => Some p
  | _ => None
  end.

(** The first occurrences of the elements of [ids] that are not in [seen]. *)
Fixpoint firsts (seen ids : list N) : list N :=
  match ids with
  | [] => []
  | c :: rest =>
      if bool_decide (c ∈ seen) then firsts seen rest
      else c :: firsts (c :: seen) rest
  end.

(** The invariant of the runtime state. *)
Record wf (st : state) : Prop := Wf {
  wf_bound : ∀ c p, installedChunks st !! c = Some (Loading p) → p < length (promises st);
  wf_inj : ∀ c c' p,
    installedChunks st !! c = Some (Loading p) →
    installedChunks st !! c' = Some (Loading p) → c = c';
  wf_none : ∀ c, installedChunks st !! c = None → fetches c st = 0;
  wf_loading : ∀ c p, installedChunks st !! c = Some (Loading p) → fetches c st = 1;
  wf_noprefetch : ∀ c, installedChunks st !! c ≠ Some Prefetched;
  wf_pending : ∀ s sc p,
    scripts st !! s = Some sc → armed sc = true →
    installedChunks st !! chunk sc = Some (Loading p) →
    promises st !! p = Some Pending
}.

(** What the answers of a run have been, chunk by chunk. *)
Definition hist (st : state) (evs : list event) (outs : list (list nat)) : Prop :=
  ∀ c, match installedChunks st !! c with
       | None => ∀ i, evs !! i ≠ Some (Request c)
       | Some (Loading p) => answered c evs outs [p]
       | _ => True
       end.

(** The chunk ids an array handed to [webpackJsonp.push] registers. *)
Definition dataIds (data : list jsval) : list N :=
  match nth 0 data VUndefined with
  | VIds ids => ids
  | _ => []
  end.

Definition pushes (c : N) (ev : event) : Prop :=
  match ev with
  | JsonpPush data => c ∈ dataIds data
  | _ => False
  end.

(** The state machine of one entry of [installedChunks], as the events of
    the host drive it: the answer of the step is the third index. *)
Inductive entry_step (c : N) : option chunkData → event → list nat → option chunkData → Prop :=
  | es_start p :
      entry_step c None (Request c) [p] (Some (Loading p))
  | es_join p :
      entry_step c (Some (Loading p)) (Request c) [p] (Some (Loading p))
  | es_loaded :
      entry_step c (Some Installed) (Request c) [] (Some Installed)
  | es_push e data o :
      c ∈ dataIds data → entry_step c e (JsonpPush data) o (Some Installed)
  | es_other e ev o :
      ev ≠ Request c → ¬ pushes c ev → entry_step c e ev o e.

(** The error built by [onScriptComplete] for a script and an event. *)
Definition loadError (sc : script) (event : domEvent) : error :=
  let errorType := if String.eqb (ev_type event) "load" then "missing" else ev_type event in
  Error ("Loading chunk " +:+ pretty (chunk sc) +:+ " failed." +:+ nl
         +:+ "(" +:+ errorType +:+ ": " +:+ ev_target_src event +:+ ")")
        errorType (ev_target_src event).

(** The state built by [f_j] for an entry that is [undefined] or [null]. *)
Definition startLoading (c : N) (st : state) : state :=
  emit (AppendScript (length (scripts st)))
    (set_scripts (λ l, l ++ [Script (publicPath +:+ u c) "utf-8" 120 (nc st) c true true
                                    (now st + timeoutDelay)])
      (set_installedChunks <[c := Loading (length (promises st))]>
        (set_promises (λ ps, ps ++ [Pending]) st))).

(** No entry of [installedChunks] holds the promise [p]. *)
Definition unreferenced (p : nat) (st : state) : Prop :=
  ∀ c, installedChunks st !! c ≠ Some (Loading p).

End Jsonp.


(* ===================================================================== *)
(** * The bundle-loader wrapper module *)
(* ===================================================================== *)

Module BundleLoader.

(** What a module can export. *)
Inductive value :=
  | Undefined
  | Str (s : string)
  | Num (n : Z).

(** A callback given to the function exported by the wrapper. Calling it
    is observed (the call is logged under [name] with the argument it
    received); while it runs it may call the exported function again,
    with the callbacks of [nested], in order, and at its end it throws
    when [throws] is set. An exception of a callback that the exported
    function calls at once is not caught: it ends the callback that made
    the call. *)
#[local] Unset Elimination Schemes.
Inductive callback :=
  | Callback (name : nat) (nested : list callback) (throws : bool).
#[local] Set Elimination Schemes.

Definition name (cb : callback) : nat :=
  match cb with Callback n _ _ => n end.

(** The variables [cbs] and [data] of the wrapper module ([cbs = null]
    is [None]) and the calls of callbacks made so far. *)
Record state := State {
  cbs : option (list callback);
  data : value;
  calls : list (nat * value)
}.

(** [var cbs = [], data;] *)
Definition init : state := State (Some []) Undefined [].

(** Calls in sequence, up to the first one that throws; the flag tells
    whether one has thrown. *)
Definition each (f : callback → state → state * bool)
    : list callback → state → state * bool :=
  fix go l st :=
    match l with
    | [] => (st, false)
    | cb :: rest =>
        match f cb st with
        | (st', true) => (st', true)
        | (st', false) => go rest st'
        end
    end.

(** [function(cb) { if(cbs) cbs.push(cb); else cb(data); }] over what a
    call of a callback does. *)
Definition exported (call : callback → state → state * bool) (cb : callback) (st : state)
    : state * bool :=
  match cbs st with
  | Some l => (State (Some (l ++ [cb])) (data st) (calls st), false)
  | None => call cb st
  end.

(** [cb(data)]: the state it leaves and whether it has thrown. *)
Fixpoint call (cb : callback) (st : state) : state * bool :=
  match cb with
  | Callback n nested throws =>
      match each (exported call) nested
                 (State (cbs st) (data st) (calls st ++ [(n, data st)])) with
      | (st', true) => (st', true)
      | (st', false) => (st', throws)
      end
  end.

(** [module.exports = function(cb) { ... }] *)
Definition register (cb : callback) (st : state) : state * bool :=
  exported call cb st.

(** The function given to [then]: [exports] is what
    [__webpack_require__(2)] returns. The [for] loop ends at the first
    callback that throws; [cbs] is [null] by then. [callbacks.length]
    throws when [cbs] is [null] already. *)
Definition onChunkLoaded (exports : value) (st : state) : option (state * bool) :=
  match cbs st with
  | None => None
  | Some callbacks => Some (each call callbacks (State None exports (calls st)))
  end.

Inductive event :=
  | Register (cb : callback)
  | ChunkLoaded (exports : value).

(** One event of the host. An exception goes to the caller of the
    exported function, or to [__webpack_require__.oe]; the variables of
    the wrapper stay as the throw has left them. *)
Definition step (st : state) (ev : event) : option state :=
  match ev with
  | Register cb => Some (register cb st).1
  | ChunkLoaded v => fst <$> onChunkLoaded v st
  end.

Fixpoint run (st : state) (evs : list event) : option state :=
  match evs with
  | [] => Some st
  | ev :: rest =>
      match step st ev with
      | Some st' => run st' rest
      | None => None
      end
  end.

(** The calls that calling the callbacks of a list one after the other
    gives rise to, up to the first one that throws. *)
Definition firedEach (f : callback → list (nat * value) * bool)
    : list callback → list (nat * value) * bool :=
  fix go l :=
    match l with
    | [] => ([], false)
    | cb :: rest =>
        match f cb with
        | (c, true) => (c, true)
        | (c, false) => (c ++ (go rest).1, (go rest).2)
        end
    end.

(** The calls a callback gives rise to when it is called with [v] after
    [cbs] has been set to [null]: its own, then those of the callbacks it
    registers; and whether it throws. *)
Fixpoint fired (v : value) (cb : callback) : list (nat * value) * bool :=
  match cb with
  | Callback n nested throws =>
      match firedEach (fired v) nested with
      | (c, true) => ((n, v) :: c, true)
      | (c, false) => ((n, v) :: c, throws)
      end
  end.

(** A callback that returns when it is called with [v]. *)
Definition returns (v : value) (cb : callback) : Prop := (fired v cb).2 = false.

(** Induction on callbacks, through the list of nested callbacks. *)
Fixpoint callback_nested_ind (P : callback → Prop)
    (H : ∀ n nested throws, Forall P nested → P (Callback n nested throws)) (cb : callback)
    : P cb :=
  match cb with
  | Callback n nested throws =>
      H n nested throws
        ((fix go (l : list callback) : Forall P l :=
            match l with
            | [] => @List.Forall_nil callback P
            | c :: l' => @List.Forall_cons callback P c l' (callback_nested_ind P H c) (go l')
            end) nested)
  end.

End BundleLoader.


(* ===================================================================== *)
(** * LibManifestPlugin *)
(* ===================================================================== *)

Module LibManifest.

(** The JavaScript values the manifest is built from. *)
#[local] Unset Elimination Schemes.
Inductive jsval :=
  | JUndefined
  | JNull
  | JBool (b : bool)
  | JNum (n : Z)
  | JStr (s : string)
  | JArr (items : list jsval)
  | JObj (props : list (string * jsval)).
#[local] Set Elimination Schemes.

(** [obj[k] = v] on an object whose keys are no array indices: a key
    that exists keeps its place. *)
Fixpoint setProp (k : string) (v : jsval) (props : list (string * jsval)) : list (string * jsval) :=
  match props with
  | [] => [(k, v)]
  | (k', v') :: rest =>
      if String.eqb k k' then (k, v) :: rest else (k', v') :: setProp k v rest
  end.

Fixpoint getProp (k : string) (props : list (string * jsval)) : option jsval :=
  match props with
  | [] => None
  | (k', v') :: rest => if String.eqb k k' then Some v' else getProp k rest
  end.

(** What [JSON.stringify] keeps of a value, as [JSON.parse] gives it
    back: a property whose value is [undefined] is left out, an
    [undefined] array element becomes [null]. *)
Fixpoint jsonOf (v : jsval) : jsval :=
  match v with
  | JArr items =>
      JArr (map (λ x, match x with JUndefined => JNull | _ => jsonOf x end) items)
  | JObj props =>
      JObj (flat_map (λ kv, match kv with
                            | (k, x) => match x with
                                        | JUndefined => []
                                        | _ => [(k, jsonOf x)]
                                        end
                            end) props)
  | _ => v
  end.

(** The result of [moduleGraph.getProvidedExports(module)]: [true] when
    the exports are not known statically, [null] when they have not been
    determined, else the list of names. *)
Inductive providedExports :=
  | PETrue
  | PENull
  | PEList (names : list string).

Inductive moduleId :=
  | IdNum (n : Z)
  | IdStr (s : string).

Definition idValue (i : moduleId) : jsval :=
  match i with
  | IdNum n => JNum n
  | IdStr s => JStr s
  end.

(** A module, as the plugin sees it: [libIdent] maps the context to the
    identity ([null] is [None]), [incoming] tells for each incoming
    connection whether its dependency is an [EntryDependency]. *)
Record module := Module_ {
  libIdent : string → option string;
  id : moduleId;
  buildMeta : list (string * jsval);
  provided : providedExports;
  incoming : list bool
}.

(** A chunk: [chunkModules] is what [getOrderedChunkModulesIterable]
    yields for it with [compareModulesById]. *)
Record chunk := Chunk {
  chunkName : string;
  isOnlyInitial : bool;
  chunkModules : list module
}.

Record options := Options {
  path : string;
  name : option string;
  type : jsval;
  entryOnly : bool;
  format : bool;
  context : option string
}.

Definition nonEmpty (s : string) : bool := negb (String.eqb s "").

(** [this.options.context || compiler.options.context] *)
Definition contextOf (opts : options) (compilerContext : string) : string :=
  match context opts with
  | Some c => if nonEmpty c then c else compilerContext
  | None => compilerContext
  end.

(** The object [data] built for a module. *)
Definition moduleData (m : module) : jsval :=
  JObj [("id", idValue (id m));
        ("buildMeta", JObj (buildMeta m));
        ("exports", match provided m with
                    | PEList names => JArr (JStr <$> names)
                    | _ => JUndefined
                    end)].

(** The function mapped over the modules of the chunk; [None] is the
    [undefined] that [filter(Boolean)] removes. *)
Definition manifestItem (opts : options) (ctx : string) (m : module) : option (string * jsval) :=
  if entryOnly opts && negb (existsb (λ b, b) (incoming m)) then None
  else match libIdent m ctx with
       | Some ident => if nonEmpty ident then Some (ident, moduleData m) else None
       | None => None
       end.

(** [content]: the items are written into a fresh object in order. *)
Definition manifestContent (opts : options) (ctx : string) (c : chunk) : list (string * jsval) :=
  foldl (λ obj item, setProp item.1 item.2 obj) [] (omap (manifestItem opts ctx) (chunkModules c)).

Inductive fsop :=
  | Mkdirp (dir : string)
  | WriteFile (target : string) (json : jsval) (indent : bool).

Section Emit.

(** The host: [compilation.getPath], [path.dirname] and the output file
    system, whose operations report an error or none. *)
Variable getPath : string → chunk → string.
Variable dirname : string → string.
Variable mkdirp : string → option string.
Variable writeFile : string → option string.
Variable compilerContext : string.

Definition manifest (opts : options) (c : chunk) : jsval :=
  JObj [("name", match name opts with
                 | Some n => if nonEmpty n then JStr (getPath n c) else JStr n
                 | None => JUndefined
                 end);
        ("type", type opts);
        ("content", JObj (manifestContent opts (contextOf opts compilerContext) c))].

(** The function run for each chunk: the operations on the output file
    system and the error handed to the callback, if any. *)
Definition emitChunk (opts : options) (c : chunk) : list fsop * option string :=
  if negb (isOnlyInitial c) then ([], None)
  else
    let targetPath := getPath (path opts) c in
    let content := jsonOf (manifest opts c) in
    match mkdirp (dirname targetPath) with
    | Some err => ([Mkdirp (dirname targetPath)], Some err)
    | None => ([Mkdirp (dirname targetPath); WriteFile targetPath content (format opts)],
               writeFile targetPath)
    end.

(** [asyncLib.forEach] over the chunks: every chunk is visited, the
    first error is the one reported. *)
Definition emit (opts : options) (chunks : list chunk) : list fsop * option string :=
  (flat_map (λ c, (emitChunk opts c).1) chunks,
   head (omap (λ c, (emitChunk opts c).2) chunks)).

End Emit.

(** A written entry that carries an [exports] property: the list of
    names, or some marker when the exports are not known. *)
Definition hasExportsKey (entry : jsval) : Prop :=
  match entry with
  | JObj props => is_Some (getProp "exports" props)
  | _ => False
  end.

(** A module whose provided exports are not known statically. *)
Definition dynamicModule : module :=
  Module_ (λ _, Some "./file.js") (IdNum 2) [] PETrue [true].

Definition exampleOptions : options :=
  Options "dist/[name]-manifest.json" None (JStr "var") false false None.

End LibManifest.


(* ===================================================================== *)
(** * WebpackOptionsApply: the choice of the id plugins *)
(* ===================================================================== *)

Module OptionsApply.

(** The values [options.optimization.moduleIds] and
    [options.optimization.chunkIds] can hold. *)
Inductive optval :=
  | OUndefined
  | ONull
  | OBool (b : bool)
  | ONum (n : Z)
  | OStr (s : string).

Definition truthy (v : optval) : bool :=
  match v with
  | OUndefined | ONull => false
  | OBool b => b
  | ONum n => negb (n =? 0)%Z
  | OStr s => negb (String.eqb s "")
  end.

(** The value inside a template literal. *)
Definition toString (v : optval) : string :=
  match v with
  | OUndefined => "undefined"
  | ONull => "null"
  | OBool true => "true"
  | OBool false => "false"
  | ONum n => pretty n
  | OStr s => s
  end.

(** The plugins the two switches can apply. *)
Inductive plugin :=
  | NaturalModuleIdsPlugin
  | NamedModuleIdsPlugin
  | WarnDeprecatedOptionPlugin (option value suggestion : string)
  | HashedModuleIdsPlugin
  | DeterministicModuleIdsPlugin
  | OccurrenceModuleIdsPlugin (prioritiseInitial : bool)
  | NaturalChunkIdsPlugin
  | NamedChunkIdsPlugin
  | DeterministicChunkIdsPlugin
  | OccurrenceChunkIdsPlugin (prioritiseInitial : bool).

(** The compiler, as far as the switches are concerned: the plugins
    applied to it, in order. *)
Definition compiler := list plugin.

Inductive result :=
  | Applied (c : compiler)
  | Thrown (message : string).

(** [const moduleIds = options.optimization.moduleIds; if (moduleIds) { switch ... }] *)
Definition applyModuleIds (moduleIds : optval) (c : compiler) : result :=
  if truthy moduleIds then
    match moduleIds with
    | OStr s =>
        if String.eqb s "natural" then Applied (c ++ [NaturalModuleIdsPlugin])
        else if String.eqb s "named" then Applied (c ++ [NamedModuleIdsPlugin])
        else if String.eqb s "hashed" then
          Applied (c ++ [WarnDeprecatedOptionPlugin "optimization.moduleIds" "hashed" "deterministic";
                         HashedModuleIdsPlugin])
        else if String.eqb s "deterministic" then Applied (c ++ [DeterministicModuleIdsPlugin])
        else if String.eqb s "size" then Applied (c ++ [OccurrenceModuleIdsPlugin true])
        else Thrown ("webpack bug: moduleIds: " +:+ toString moduleIds +:+ " is not implemented")
    | _ => Thrown ("webpack bug: moduleIds: " +:+ toString moduleIds +:+ " is not implemented")
    end
  else Applied c.

(** [const chunkIds = options.optimization.chunkIds; if (chunkIds) { switch ... }] *)
Definition applyChunkIds (chunkIds : optval) (c : compiler) : result :=
  if truthy chunkIds then
    match chunkIds with
    | OStr s =>
        if String.eqb s "natural" then Applied (c ++ [NaturalChunkIdsPlugin])
        else if String.eqb s "named" then Applied (c ++ [NamedChunkIdsPlugin])
        else if String.eqb s "deterministic" then Applied (c ++ [DeterministicChunkIdsPlugin])
        else if String.eqb s "size" then Applied (c ++ [OccurrenceChunkIdsPlugin true])
        else if String.eqb s "total-size" then Applied (c ++ [OccurrenceChunkIdsPlugin false])
        else Thrown ("webpack bug: chunkIds: " +:+ toString chunkIds +:+ " is not implemented")
    | _ => Thrown ("webpack bug: chunkIds: " +:+ toString chunkIds +:+ " is not implemented")
    end
  else Applied c.

(** The two switches in sequence, as [process] runs them. *)
Definition applyIds (moduleIds chunkIds : optval) (c : compiler) : result :=
  match applyModuleIds moduleIds c with
  | Applied c' => applyChunkIds chunkIds c'
  | Thrown msg => Thrown msg
  end.

(** The plugins that assign ids. *)
Definition assignsModuleIds (p : plugin) : bool :=
  match p with
  | NaturalModuleIdsPlugin | NamedModuleIdsPlugin | HashedModuleIdsPlugin
  | DeterministicModuleIdsPlugin | OccurrenceModuleIdsPlugin _ => true
  | _ => false
  end.

Definition assignsChunkIds (p : plugin) : bool :=
  match p with
  | NaturalChunkIdsPlugin | NamedChunkIdsPlugin
  | DeterministicChunkIdsPlugin | OccurrenceChunkIdsPlugin _ => true
  | _ => false
  end.

(** The values the switches have a case for. *)
Definition knownModuleIds : list string := ["natural"; "named"; "hashed"; "deterministic"; "size"].
Definition knownChunkIds : list string := ["natural"; "named"; "deterministic"; "size"; "total-size"].

Definition count (f : plugin → bool) (c : compiler) : nat := length (List.filter f c).

End OptionsApply.


(* ===================================================================== *)
(** * EvalSourceMapDevToolModuleTemplatePlugin *)
(* ===================================================================== *)

Module EvalSourceMap.

(** ** Base64, as [Buffer.prototype.toString("base64")] computes it *)

Definition alphabet : list ascii :=
  list_ascii_of_string "ABCDEFGHIJKLMNOPQRSTUVWXYZabcdefghijklmnopqrstuvwxyz0123456789+/".

Definition digit (n : N) : ascii := nth (N.to_nat n) alphabet "A"%char.

Definition code (c : ascii) : N := N_of_ascii c.

Fixpoint base64 (s : string) : string :=
  match s with
  | EmptyString => EmptyString
  | String a EmptyString =>
      String (digit (N.shiftr (code a) 2))
        (String (digit (N.shiftl (N.land (code a) 3) 4)) "==")
  | String a (String b EmptyString) =>
      String (digit (N.shiftr (code a) 2))
        (String (digit (N.lor (N.shiftl (N.land (code a) 3) 4) (N.shiftr (code b) 4)))
           (String (digit (N.shiftl (N.land (code b) 15) 2)) "="))
  | String a (String b (String c rest)) =>
      String (digit (N.shiftr (code a) 2))
        (String (digit (N.lor (N.shiftl (N.land (code a) 3) 4) (N.shiftr (code b) 4)))
           (String (digit (N.lor (N.shiftl (N.land (code b) 15) 2) (N.shiftr (code c) 6)))
              (String (digit (N.land (code c) 63)) (base64 rest))))
  end.

(** ** [String.prototype.replace] with the pattern [/\[url\]/g] *)

Definition isPlaceholder (c1 c2 c3 c4 c5 : ascii) : bool :=
  Ascii.eqb c1 "[" && Ascii.eqb c2 "u" && Ascii.eqb c3 "r" && Ascii.eqb c4 "l" && Ascii.eqb c5 "]".

(** Every match of the pattern, from left to right, is replaced by [r]. *)
Fixpoint replacePlaceholder (r : string) (s : string) : string :=
  match s with
  | EmptyString => EmptyString
  | String c1 s' =>
      match s' with
      | String c2 (String c3 (String c4 (String c5 rest))) =>
          if isPlaceholder c1 c2 c3 c4 c5 then r +:+ replacePlaceholder r rest
          else String c1 (replacePlaceholder r s')
      | _ => String c1 (replacePlaceholder r s')
      end
  end.

Fixpoint hasDollar (s : string) : bool :=
  match s with
  | EmptyString => false
  | String c s' => Ascii.eqb c "$" || hasDollar s'
  end.

(** [comment.replace(/\[url\]/g, replacement)] for a replacement given
    as a string: a [$] in it would start a replacement pattern, which is
    not modelled ([None]); without one the replacement is inserted as it
    is. *)
Definition replaceUrl (comment replacement : string) : option string :=
  if hasDollar replacement then None
  else Some (replacePlaceholder replacement comment).

(** ** The plugin *)

Record sourceMap := SourceMap {
  version : N;
  sources : list string;
  sourcesContent : list string;
  names : list string;
  mappings : string;
  file : option string;
  sourceRoot : option string
}.

(** What [compilation.findModule(source) || source] evaluates to. *)
Inductive moduleOrSource :=
  | AModule (identifier : string)
  | ASource (source : string).

(** The marker callback given to [replaceDuplicates]:
    [(filename, i, n) => { for (let j = 0; j < n; j++) filename += "*"; return filename; }] *)
Fixpoint addStars (filename : string) (n : nat) : string :=
  match n with
  | 0 => filename
  | S n' => addStars (filename +:+ "*") n'
  end.

Definition marker (filename : string) (i n : nat) : string := addStars filename n.

(** Modelled from the spec: the search behind "never by silently
    colliding entries". The first of [fn n], [fn (n + 1)], ...,
    [fn (n + fuel)] that is not in [taken]; the last of them when the
    others all are. *)
Fixpoint firstFree (fn : nat → string) (taken : list string) (fuel n : nat) : string :=
  match fuel with
  | 0 => fn n
  | S fuel' => if bool_decide (fn n ∈ taken) then firstFree fn taken fuel' (S n) else fn n
  end.

(** Modelled from the spec: [ModuleFilenameHelpers.replaceDuplicates] is
    not among the sources. The spec has the entries of [sources]
    "de-duplicated by appending marker characters to otherwise-identical
    filenames - never by silently colliding entries": from left to
    right, an entry that is equal to none before it is kept as it is,
    and an entry that is equal to an earlier one is handed to the
    callback together with its index and a number [n >= 1] of markers,
    the least one for which what the callback returns is no entry of
    the array and none of the results so far. [out] holds the results
    so far, [rest] the entries still to come. *)
Fixpoint replaceFrom (fn : string → nat → nat → string) (array out rest : list string)
    : list string :=
  match rest with
  | [] => out
  | item :: rest' =>
      let i := length out in
      let taken := array ++ out in
      let item' := if bool_decide (item ∈ take i array)
                   then firstFree (fn item i) taken (length taken) 1
                   else item in
      replaceFrom fn array (out ++ [item']) rest'
  end.

(** Modelled from the spec: [replaceDuplicates(array, fn)], the pass
    above over the whole array. *)
Definition replaceDuplicates (array : list string) (fn : string → nat → nat → string)
    : list string :=
  replaceFrom fn array [] array.

Definition dataUriPrefix : string := "data:application/json;charset=utf-8;base64,".

Definition dataUri (json : string) : string := dataUriPrefix +:+ base64 json.

Definition trailer (moduleId : string) : string :=
  nl +:+ "//# sourceURL=webpack-internal:///" +:+ moduleId +:+ nl.

(** [this.sourceMapComment.replace(...) + `\n//# sourceURL=...\n`] *)
Definition footer (sourceMapComment json moduleId : string) : option string :=
  match replaceUrl sourceMapComment (dataUri json) with
  | Some s => Some (s +:+ trailer moduleId)
  | None => None
  end.

Record pluginOptions := PluginOptions {
  append : option string;
  moduleFilenameTemplate : option string;
  namespace : option string;
  optSourceRoot : option string
}.

(** [x || d] for a string option [x]. *)
Definition orDefault (x : option string) (d : string) : string :=
  match x with
  | Some s => if String.eqb s "" then d else s
  | None => d
  end.

Definition sourceMapCommentOf (o : pluginOptions) : string :=
  orDefault (append o) ("//# sourceURL=[module]" +:+ nl +:+ "//# sourceMappingURL=[url]").

Definition moduleFilenameTemplateOf (o : pluginOptions) : string :=
  orDefault (moduleFilenameTemplate o) "webpack://[namespace]/[resource-path]?[hash]".

Definition namespaceOf (o : pluginOptions) : string := orDefault (namespace o) "".

(** A source handed to the hook: [sid] stands for its identity (the key
    of the cache), [srcMap] and [srcText] for what [sourceAndMap], or
    [map] and [source], return. *)
Record source := Source {
  sid : nat;
  srcMap : option sourceMap;
  srcText : string
}.

Record module := Module_ {
  isNormalModule : bool;
  resource : string;
  moduleId : string
}.

Inductive rendered :=
  | Unchanged
  | Raw (text : string).

Section Hook.

(** The collaborators: [ModuleFilenameHelpers.matchObject] bound to the
    options, [compilation.findModule], [ModuleFilenameHelpers.createFilename]
    (given the template and the namespace), and [JSON.stringify] on a
    source map and on a string. *)
Variable matchModule : string → bool.
Variable findModule : string → option string.
Variable createFilename : moduleOrSource → string → string → string.
Variable stringifyMap : sourceMap → string.
Variable stringifyString : string → string.

(** The map after the three assignments. *)
Definition rewriteMap (o : pluginOptions) (m : module) (sm : sourceMap) : sourceMap :=
  let modules := map (λ s, match findModule s with
                           | Some md => AModule md
                           | None => ASource s
                           end) (sources sm) in
  let moduleFilenames :=
    map (λ md, createFilename md (moduleFilenameTemplateOf o) (namespaceOf o)) modules in
  let moduleFilenames := replaceDuplicates moduleFilenames marker in
  SourceMap (version sm) moduleFilenames (sourcesContent sm) (names sm) (mappings sm)
            (Some (moduleId m +:+ ".js")) (Some (orDefault (optSourceRoot o) "")).

(** The function tapped into [moduleTemplate.hooks.module]; the cache
    maps the identity of a source to the text of its [RawSource]. *)
Definition moduleHook (o : pluginOptions) (cache : gmap nat string) (src : source) (m : module)
    : gmap nat string * option rendered :=
  match cache !! sid src with
  | Some cachedSource => (cache, Some (Raw cachedSource))
  | None =>
      if negb (isNormalModule m) then (cache, Some Unchanged)
      else if negb (matchModule (resource m)) then (cache, Some Unchanged)
      else match srcMap src with
           | None => (cache, Some Unchanged)
           | Some sm =>
               match footer (sourceMapCommentOf o) (stringifyMap (rewriteMap o m sm)) (moduleId m) with
               | Some ft =>
                   let evalSource := "eval(" +:+ stringifyString (srcText src +:+ ft) +:+ ");" in
                   (<[sid src := evalSource]> cache, Some (Raw evalSource))
               | None => (cache, None)
               end
           end
  end.

End Hook.

(** A string that contains the placeholder. *)
Definition hasPlaceholder (s : string) : Prop := ∃ a b, s = a +:+ "[url]" +:+ b.

Fixpoint stars (n : nat) : string :=
  match n with
  | 0 => ""
  | S n' => String "*" (stars n')
  end.

(** What the results [out] for the entries [pre] of [array] are: all
    different, each the entry followed by markers, with none for an entry
    that is equal to no earlier one and at least one for the others, and
    then different from every entry of [array]. *)
Definition deduplicated (array pre out : list string) : Prop :=
  length out = length pre ∧ NoDup out ∧
  ∀ j r, out !! j = Some r →
    ∃ o k, pre !! j = Some o ∧ r = o +:+ stars k ∧
           (o ∉ take j pre → k = 0) ∧ (o ∈ take j pre → 1 ≤ k ∧ r ∉ array).

End EvalSourceMap.


(* ===================================================================== *)
(** * NodeStuffPlugin: the module decorators *)
(* ===================================================================== *)

Module ModuleDecorator.

(** ** Objects *)

Inductive value :=
  | VUndefined
  | VNull
  | VBool (b : bool)
  | VNum (n : Z)
  | VStr (s : string)
  | VRef (l : nat).

Definition truthy (v : value) : bool :=
  match v with
  | VUndefined | VNull => false
  | VBool b => b
  | VNum n => negb (n =? 0)%Z
  | VStr s => negb (String.eqb s "")
  | VRef _ => true
  end.

(** The getters of the decorators: [function () { return target.name; }] *)
Inductive getter :=
  | Getter (target : nat) (name : string).

(** A property: a data property or an accessor property whose [set] is
    [undefined] (no setter is ever defined by the code at hand). *)
Inductive property :=
  | Data (v : value) (writable enumerable configurable : bool)
  | Accessor (get : option getter) (enumerable configurable : bool).

Record object := Object {
  proto : option nat;
  props : list (string * property);
  extensible : bool;
  isArray : bool
}.

(** The heap: an object lives at its index. *)
Definition heap := list object.

Global Instance value_eq_dec : EqDecision value.
Proof. solve_decision. Defined.
Global Instance getter_eq_dec : EqDecision getter.
Proof. solve_decision. Defined.

Fixpoint getOwn (name : string) (ps : list (string * property)) : option property :=
  match ps with
  | [] => None
  | (k, p) :: rest => if String.eqb name k then Some p else getOwn name rest
  end.

Fixpoint setOwn (name : string) (p : property) (ps : list (string * property))
    : list (string * property) :=
  match ps with
  | [] => [(name, p)]
  | (k, q) :: rest => if String.eqb name k then (k, p) :: rest else (k, q) :: setOwn name p rest
  end.

Definition withProps (o : object) (ps : list (string * property)) : object :=
  Object (proto o) ps (extensible o) (isArray o).

Definition alloc (h : heap) (o : object) : heap * nat := (h ++ [o], length h).

(** [{}], [[]] and [Object.create(p)]. *)
Definition emptyObject : object := Object None [] true false.
Definition emptyArray : object := Object None [] true true.
Definition objectCreate (p : nat) : object := Object (Some p) [] true false.

(** [o.name]: the property is looked up along the prototype chain, a
    getter is run. [None] when the fuel runs out or a reference dangles. *)
Fixpoint Get (fuel : nat) (h : heap) (l : nat) (name : string) : option value :=
  match fuel with
  | 0 => None
  | S fuel' =>
      match h !! l with
      | None => None
      | Some o =>
          match getOwn name (props o) with
          | Some (Data v _ _ _) => Some v
          | Some (Accessor (Some (Getter target name')) _ _) => Get fuel' h target name'
          | Some (Accessor None _ _) => Some VUndefined
          | None =>
              match proto o with
              | Some p => Get fuel' h p name
              | None => Some VUndefined
              end
          end
      end
  end.

(** The property found on the prototype chain, if there is one. *)
Fixpoint findProperty (fuel : nat) (h : heap) (l : nat) (name : string) : option (option property) :=
  match fuel with
  | 0 => None
  | S fuel' =>
      match h !! l with
      | None => None
      | Some o =>
          match getOwn name (props o) with
          | Some p => Some (Some p)
          | None =>
              match proto o with
              | Some p => findProperty fuel' h p name
              | None => Some None
              end
          end
      end
  end.

(** [o.name = v] in strict code (the runtime starts with ["use strict"]):
    [None] stands for the [TypeError] thrown when the property is
    read-only, an accessor without setter, or the object is not
    extensible (and for running out of fuel). *)
Definition Set_ (fuel : nat) (h : heap) (l : nat) (name : string) (v : value) : option heap :=
  match h !! l with
  | None => None
  | Some o =>
      match getOwn name (props o) with
      | Some (Data _ true e c) => Some (<[l := withProps o (setOwn name (Data v true e c) (props o))]> h)
      | Some (Data _ false _ _) => None
      | Some (Accessor _ _ _) => None
      | None =>
          let inherited :=
            match proto o with
            | Some p => findProperty fuel h p name
            | None => Some None
            end in
          match inherited with
          | None => None
          | Some (Some (Data _ false _ _)) => None
          | Some (Some (Accessor _ _ _)) => None
          | Some _ =>
              if extensible o
              then Some (<[l := withProps o (setOwn name (Data v true true true) (props o))]> h)
              else None
          end
      end
  end.

(** A property descriptor: the fields that are present. The [get] of the
    descriptors at hand is a function when it is present. *)
Record descriptor := Descriptor {
  d_value : option value;
  d_writable : option bool;
  d_get : option getter;
  d_enumerable : option bool;
  d_configurable : option bool
}.

Definition orFalse (b : option bool) : bool := default false b.

(** [Object.defineProperty(o, name, d)]; [None] stands for the
    [TypeError]. A property that does not exist is created with the
    defaults ([undefined], [false]); an existing configurable property
    takes over the fields of the descriptor; a non-configurable one
    accepts only a descriptor that changes nothing (a [get] in the
    descriptor is a function object of its own, so it always changes
    the getter). *)
Definition defineProperty (h : heap) (l : nat) (name : string) (d : descriptor) : option heap :=
  match h !! l with
  | None => None
  | Some o =>
      let store p := Some (<[l := withProps o (setOwn name p (props o))]> h) in
      match getOwn name (props o) with
      | None =>
          if extensible o then
            match d_get d with
            | Some g => store (Accessor (Some g) (orFalse (d_enumerable d)) (orFalse (d_configurable d)))
            | None => store (Data (default VUndefined (d_value d)) (orFalse (d_writable d))
                                  (orFalse (d_enumerable d)) (orFalse (d_configurable d)))
            end
          else None
      | Some (Data v w e c) =>
          if c then
            match d_get d with
            | Some g => store (Accessor (Some g) (default e (d_enumerable d)) (default c (d_configurable d)))
            | None => store (Data (default v (d_value d)) (default w (d_writable d))
                                  (default e (d_enumerable d)) (default c (d_configurable d)))
            end
          else if bool_decide (d_get d = None ∧ d_configurable d ≠ Some true
                               ∧ default e (d_enumerable d) = e
                               ∧ (w = true ∨ (d_writable d ≠ Some true ∧ default v (d_value d) = v)))
          then store (Data (default v (d_value d)) (default w (d_writable d)) e c)
          else None
      | Some (Accessor g e c) =>
          if c then
            match d_get d, d_value d, d_writable d with
            | Some g', _, _ =>
                store (Accessor (Some g') (default e (d_enumerable d)) (default c (d_configurable d)))
            | None, None, None =>
                store (Accessor g (default e (d_enumerable d)) (default c (d_configurable d)))
            | None, _, _ =>
                store (Data (default VUndefined (d_value d)) (orFalse (d_writable d))
                            (default e (d_enumerable d)) (default c (d_configurable d)))
            end
          else if bool_decide (d_value d = None ∧ d_writable d = None ∧ d_get d = None
                               ∧ d_configurable d ≠ Some true
                               ∧ default e (d_enumerable d) = e)
          then Some h
          else None
      end
  end.

(** ** The bootstrap and the decorators *)

(** [installedModules[moduleId] = { i: moduleId, l: false, exports: {} }];
    the result is the heap, the module and its exports object. *)
Definition newModule (h : heap) (moduleId : value) : heap * nat * nat :=
  let '(h, e) := alloc h emptyObject in
  let '(h, m) :=
    alloc h (Object None [("i", Data moduleId true true true);
                          ("l", Data (VBool false) true true true);
                          ("exports", Data (VRef e) true true true)] true false) in
  (h, m, e).

(** [if (!module.children) module.children = [];] *)
Definition ensureChildren (fuel : nat) (h : heap) (module : nat) : option heap :=
  match Get fuel h module "children" with
  | None => None
  | Some c =>
      if truthy c then Some h
      else let '(h, a) := alloc h emptyArray in Set_ fuel h module "children" (VRef a)
  end.

Definition getterDescriptor (module : nat) (field : string) : descriptor :=
  Descriptor None None (Some (Getter module field)) (Some true) None.

(** The function [NodeModuleDecoratorRuntimeModule.generate] emits. *)
Definition nodeModuleDecorator (fuel : nat) (h : heap) (module : nat) : option (heap * nat) :=
  let '(h, paths) := alloc h emptyArray in
  match Set_ fuel h module "paths" (VRef paths) with
  | None => None
  | Some h =>
      match ensureChildren fuel h module with
      | None => None
      | Some h =>
          match defineProperty h module "loaded" (getterDescriptor module "l") with
          | None => None
          | Some h =>
              match defineProperty h module "id" (getterDescriptor module "i") with
              | None => None
              | Some h => Some (h, module)
              end
          end
      end
  end.

(** The function [HarmonyModuleDecoratorRuntimeModule.generate] emits;
    the variable [module] is the object made by [Object.create] from its
    second statement on, also inside the getters. *)
Definition harmonyModuleDecorator (fuel : nat) (h : heap) (module0 : nat) : option (heap * nat) :=
  let '(h, module) := alloc h (objectCreate module0) in
  match ensureChildren fuel h module with
  | None => None
  | Some h =>
      match defineProperty h module "loaded" (getterDescriptor module "l") with
      | None => None
      | Some h =>
          match defineProperty h module "id" (getterDescriptor module "i") with
          | None => None
          | Some h =>
              match defineProperty h module "exports" (Descriptor None None None (Some true) None) with
              | None => None
              | Some h => Some (h, module)
              end
          end
      end
  end.

(** ** The choice of the decorator *)

(** [RuntimeGlobals.harmonyModuleDecorator] and
    [RuntimeGlobals.nodeModuleDecorator]. *)
Inductive decorator :=
  | HarmonyModuleDecorator
  | NodeModuleDecorator.

(** [module.buildMeta]: [None] when it is not set; [exportsType] is
    [undefined] ([None]) or a string. *)
Record buildMeta := BuildMeta {
  exportsType : option string
}.

(** [isHarmony = buildMeta && buildMeta.exportsType], as a condition. *)
Definition isHarmony (bm : option buildMeta) : bool :=
  match bm with
  | Some b => match exportsType b with
              | Some s => negb (String.eqb s "")
              | None => false
              end
  | None => false
  end.

(** The hook on the expression [module]: the runtime global of the
    [ModuleDecoratorDependency] it adds. *)
Definition decoratorFor (bm : option buildMeta) : decorator :=
  if isHarmony bm then HarmonyModuleDecorator else NodeModuleDecorator.

(** The runtime modules registered for the two runtime globals. *)
Definition decorate (d : decorator) : nat → heap → nat → option (heap * nat) :=
  match d with
  | HarmonyModuleDecorator => harmonyModuleDecorator
  | NodeModuleDecorator => nodeModuleDecorator
  end.

(** A decorator that marks the exports object of a module changes it:
    the object at [e] is not what it was. *)
Definition marksExports (h h' : heap) (e : nat) : Prop := h' !! e ≠ h !! e.

End ModuleDecorator.

(* ===================================================================== *)
(** * The scripts of the JSONP chunk loading runtime *)
(* ===================================================================== *)

Module JsonpScripts.
Import Jsonp.

(** What [f_j] writes into every script it appends, [nc] being unset. *)
Definition standard (sc : script) : Prop :=
  src sc = "dist/" +:+ pretty (chunk sc) +:+ ".output.js" ∧ charset sc = "utf-8" ∧
  timeoutAttr sc = 120%N ∧ nonce sc = None ∧ handlers sc = timer sc.

End JsonpScripts.

(* ===================================================================== *)
(** * The bootstrap: [__webpack_require__] and the module cache *)
(* ===================================================================== *)

Module Bootstrap.

(** What a module can export: the object [{}] created for the module
    [owner] by [__webpack_require__], a string or a function. *)
Inductive value :=
  | Fresh (owner : N)
  | Str (s : string)
  | Fn (f : nat).

(** An entry of [installedModules]. *)
Record moduleObj := Module_ {
  i : N;
  l : bool;
  exports : value
}.

(** What a module function does with its arguments [module] and
    [__webpack_require__]. *)
Inductive stmt :=
  | SetExports (v : value)   (* module.exports = v; *)
  | Require (id : N)         (* __webpack_require__(id); *)
  | Reexport (id : N)        (* module.exports = __webpack_require__(id); *)
  | ReadLoaded               (* a use of module.l, as [module.loaded] is compiled *)
  | Throw.                   (* throw new Error(..); *)

(** [thrown]: the [TypeError] of [modules[moduleId].call] when
    [modules[moduleId]] is [undefined], or the error of a [throw]. *)
Inductive thrown := TypeError | UserError.

Inductive outcome (A : Type) :=
  | Ok (a : A)
  | Throws (e : thrown)
  | OutOfFuel.
Arguments Ok {A} a.
Arguments Throws {A} e.
Arguments OutOfFuel {A}.

(** [installedModules], the module functions called so far, in the
    order of the calls, and the values of [module.l] the module functions
    have read, with the module that read them. *)
Record state := State {
  installedModules : gmap N moduleObj;
  calls : list N;
  reads : list (N * option bool)
}.

Definition set_installed (f : gmap N moduleObj → gmap N moduleObj) (st : state) : state :=
  State (f (installedModules st)) (calls st) (reads st).

Definition called (id : N) (st : state) : state :=
  State (installedModules st) (calls st ++ [id]) (reads st).

Definition read (id : N) (st : state) : state :=
  State (installedModules st) (calls st) (reads st ++ [(id, l <$> installedModules st !! id)]).

Definition init : state := State ∅ [] [].

(** The body of a module function; [req] is [__webpack_require__] and
    [id] the module the function belongs to. *)
Fixpoint execBody (req : N → state → state * outcome value) (id : N) (body : list stmt)
    (st : state) : state * outcome unit :=
  match body with
  | [] => (st, Ok ())
  | SetExports v :: rest =>
      execBody req id rest (set_installed (alter (λ m, Module_ (i m) (l m) v) id) st)
  | Require id' :: rest =>
      match req id' st with
      | (st, Ok _) => execBody req id rest st
      | (st, Throws e) => (st, Throws e)
      | (st, OutOfFuel) => (st, OutOfFuel)
      end
  | Reexport id' :: rest =>
      match req id' st with
      | (st, Ok v) =>
          execBody req id rest (set_installed (alter (λ m, Module_ (i m) (l m) v) id) st)
      | (st, Throws e) => (st, Throws e)
      | (st, OutOfFuel) => (st, OutOfFuel)
      end
  | ReadLoaded :: rest => execBody req id rest (read id st)
  | Throw :: _ => (st, Throws UserError)
  end.

(** [__webpack_require__(moduleId)] over the module functions [modules];
    [fuel] bounds the depth of nested calls. *)
Fixpoint require (modules : gmap N (list stmt)) (fuel : nat) (moduleId : N) (st : state)
    : state * outcome value :=
  match fuel with
  | 0 => (st, OutOfFuel)
  | S fuel =>
      match installedModules st !! moduleId with
      | Some m => (st, Ok (exports m))
      | None =>
          let st := set_installed <[moduleId := Module_ moduleId false (Fresh moduleId)]> st in
          match modules !! moduleId with
          | None => (st, Throws TypeError)
          | Some body =>
              match execBody (require modules fuel) moduleId body (called moduleId st) with
              | (st, Ok _) =>
                  let st := set_installed (alter (λ m, Module_ (i m) true (exports m)) moduleId) st in
                  (st, Ok (from_option exports (Fresh moduleId) (installedModules st !! moduleId)))
              | (st, Throws e) => (st, Throws e)
              | (st, OutOfFuel) => (st, OutOfFuel)
              end
          end
      end
  end.

(** Calls of [__webpack_require__] from outside the module functions, one
    after the other, whatever their outcome. *)
Fixpoint requireAll (modules : gmap N (list stmt)) (fuel : nat) (ids : list N) (st : state)
    : state :=
  match ids with
  | [] => st
  | id :: rest => requireAll modules fuel rest (require modules fuel id st).1
  end.

(** The modules that have a function but no entry in the cache. *)
Definition pending (modules : gmap N (list stmt)) (st : state) : gset N :=
  dom modules ∖ dom (installedModules st).

(** A function that leaves the entries of the cache as they are. *)
Definition keeps (req : N → state → state * outcome value) : Prop :=
  ∀ id st k m, installedModules st !! k = Some m → installedModules (req id st).1 !! k = Some m.

(** No module function has been called twice, and the module functions
    called are those of the modules in the cache. *)
Definition once (modules : gmap N (list stmt)) (st : state) : Prop :=
  NoDup (calls st) ∧
  ∀ id, id ∈ calls st ↔ is_Some (installedModules st !! id) ∧ is_Some (modules !! id).

(** What reaches the bootstrap from outside the module functions: a call
    of [__webpack_require__], or a chunk file, whose module functions
    [webpackJsonpCallback] copies into [modules], over the functions
    that are there under the same ids. *)
Inductive op :=
  | Req (id : N)
  | Install (moreModules : gmap N (list stmt)).

Fixpoint runOps (fuel : nat) (ops : list op) (modules : gmap N (list stmt)) (st : state)
    : gmap N (list stmt) * state :=
  match ops with
  | [] => (modules, st)
  | Req id :: rest => runOps fuel rest modules (require modules fuel id st).1
  | Install moreModules :: rest => runOps fuel rest (moreModules ∪ modules) st
  end.

(** The ids an [op] list requires. *)
Definition required (ops : list op) : list N :=
  omap (λ o, match o with Req id => Some id | Install _ => None end) ops.

(** No module function has been called twice, and a module whose
    function has been called has an entry in the cache and a function. *)
Definition calledOnce (modules : gmap N (list stmt)) (st : state) : Prop :=
  NoDup (calls st) ∧
  ∀ id, id ∈ calls st → is_Some (installedModules st !! id) ∧ is_Some (modules !! id).

(** The modules of the example: [example.js] requires the wrapper made
    by the bundle loader, which exports a function; [file.js] exports a
    string. *)
Definition exampleModules : gmap N (list stmt) :=
  {[ 0%N := [Require 1]; 1%N := [SetExports (Fn 0)]; 2%N := [SetExports (Str "It works")] ]}.

(** Modules that require each other in a cycle, one of which throws. *)
Definition cyclicModules : gmap N (list stmt) :=
  {[ 0%N := [Require 1; SetExports (Str "a")];
     1%N := [ReadLoaded; Reexport 0; Require 2];
     2%N := [Throw] ]}.

End Bootstrap.

(* ===================================================================== *)
(** * WebpackOptionsApply: the whole of [process] *)
(* ===================================================================== *)

Module Process.
Export OptionsApply.

(** Option values: a primitive value, a function, a plain object
    (functions and objects are told apart by a number; an object has no
    methods of its own, so it is no array), or the object of a literal
    [{}]. *)
Inductive value :=
  | Prim (v : optval)
  | Func (f : nat)
  | Obj (o : nat)
  | EmptyObject.

Definition undefined : value := Prim OUndefined.
Definition str (s : string) : value := Prim (OStr s).

Definition truthy (v : value) : bool :=
  match v with
  | Prim p => OptionsApply.truthy p
  | _ => true
  end.

(** [a || b] *)
Definition or (a b : value) : value := if truthy a then a else b.

(** [typeof v === "string"] *)
Definition isString (v : value) : bool :=
  match v with
  | Prim (OStr _) => true
  | _ => false
  end.

(** [s.includes(sub)] *)
Fixpoint includes (s sub : string) : bool :=
  String.prefix sub s ||
  match s with
  | EmptyString => false
  | String _ s' => includes s' sub
  end.

Record outputOptions := Output {
  path : value;
  library : value;
  libraryTarget : value;
  umdNamedDefine : value;
  auxiliaryComment : value;
  libraryExport : value;
  sourceMapFilename : value;
  devtoolModuleFilenameTemplate : value;
  devtoolFallbackModuleFilenameTemplate : value;
  devtoolNamespace : value
}.

Record optimizationOptions := Optimization {
  mangleWasmImports : value;
  removeAvailableModules : value;
  removeEmptyChunks : value;
  mergeDuplicateChunks : value;
  flagIncludedChunks : value;
  sideEffects : value;
  providedExports : value;
  usedExports : value;
  concatenateModules : value;
  splitChunks : value;
  runtimeChunk : value;
  noEmitOnErrors : value;
  checkWasmTypes : value;
  moduleIds : optval;
  chunkIds : optval;
  nodeEnv : value;
  minimize : value;
  minimizer : list nat;
  portableRecords : value
}.

(** [cacheType] is [options.cache.type], for an [options.cache] that is
    an object. *)
Record options := Options {
  output : outputOptions;
  recordsInputPath : value;
  recordsOutputPath : value;
  recordsPath : value;
  name : value;
  target : value;
  externals : value;
  devtool : value;
  context : value;
  entry : value;
  module : value;
  amd : value;
  node : value;
  resolveModules : value;       (* options.resolve.modules *)
  resolveExtensions : value;    (* options.resolve.extensions *)
  resolveMainFiles : value;     (* options.resolve.mainFiles *)
  mode : value;
  optimization : optimizationOptions;
  performance : value;
  cache : value;
  cacheType : optval
}.

(** The second argument of [ExternalsPlugin]. *)
Inductive externalsArg :=
  | ExtName (s : string)
  | ExtNames (l : list string)
  | ExtOption (v : value).

(** The options handed to the two source map plugins. *)
Record sourceMapOptions := SourceMapOptions {
  sm_filename : value;
  sm_moduleFilenameTemplate : value;
  sm_fallbackModuleFilenameTemplate : value;
  sm_append : value;
  sm_module : bool;
  sm_columns : bool;
  sm_noSources : bool;
  sm_namespace : value
}.

(** The plugins, with the arguments of their constructors. *)
Inductive plugin :=
  | JsonpTemplatePlugin
  | FetchCompileWasmPlugin (mangleImports : value)
  | FunctionModulePlugin
  | NodeSourcePlugin (node : value)
  | LoaderTargetPlugin (target : value)
  | WebWorkerTemplatePlugin
  | StartupChunkDependenciesPlugin
  | NodeTemplatePlugin (asyncChunkLoading : bool)
  | ReadFileCompileWasmPlugin (mangleImports : value)
  | NodeTargetPlugin
  | ExternalsPlugin (type : value) (externals : externalsArg)
  | LibraryTemplatePlugin (name target umdNamedDefine auxiliaryComment exportProperty : value)
  | EvalSourceMapDevToolPlugin (o : sourceMapOptions)
  | SourceMapDevToolPlugin (o : sourceMapOptions)
  | EvalDevToolModulePlugin (sourceUrlComment moduleFilenameTemplate namespace : value)
  | JavascriptModulesPlugin
  | JsonModulesPlugin
  | WebAssemblyModulesPlugin (mangleImports : value)
  | EntryOptionPlugin
  | RuntimePlugin
  | CompatibilityPlugin
  | HarmonyModulesPlugin (module : value)
  | AMDPlugin (module amd : value)
  | CommonJsPlugin (module : value)
  | LoaderPlugin
  | NodeStuffPlugin (node : value)
  | RequireJsStuffPlugin
  | APIPlugin
  | ConstPlugin
  | UseStrictPlugin
  | RequireIncludePlugin
  | RequireEnsurePlugin
  | RequireContextPlugin (modules extensions mainFiles : value)
  | ImportPlugin (module : value)
  | SystemPlugin (module : value)
  | DefaultStatsFactoryPlugin
  | DefaultStatsPresetPlugin
  | DefaultStatsPrinterPlugin
  | WarnNoModeSetPlugin
  | EnsureChunkConditionsPlugin
  | RemoveParentModulesPlugin
  | RemoveEmptyChunksPlugin
  | MergeDuplicateChunksPlugin
  | FlagIncludedChunksPlugin
  | SideEffectsFlagPlugin
  | FlagDependencyExportsPlugin
  | FlagDependencyUsagePlugin
  | ModuleConcatenationPlugin
  | SplitChunksPlugin (o : value)
  | RuntimeChunkPlugin (o : value)
  | NoEmitOnErrorsPlugin
  | WasmFinalizeExportsPlugin
  | IdPlugin (p : OptionsApply.plugin)
  | DefinePlugin (nodeEnv : value)   (* "process.env.NODE_ENV": JSON.stringify(nodeEnv) *)
  | SizeLimitsPlugin (o : value)
  | TemplatedPathPlugin
  | RecordIdsPlugin (portableIds : value)
  | WarnCaseSensitiveModulesPlugin
  | MemoryCachePlugin
  | FileCachePlugin (o : value)
  | ResolverCachePlugin.

(** What [process] does to the compiler and to the values it is given,
    in order. A plugin's [apply], a hook and a function of the options
    are taken to return. *)
Inductive action :=
  | Apply (p : plugin)                        (* new P(..).apply(compiler) *)
  | CallTarget (f : nat)                      (* options.target(compiler) *)
  | ApplyMinimizer (m : nat)                  (* minimizer.apply(compiler) *)
  | EntryOption (context entry : value)       (* compiler.hooks.entryOption.call *)
  | AfterPlugins                              (* compiler.hooks.afterPlugins.call *)
  | TapResolveOptions (kind : string)         (* resolveOptions.for(kind).tap *)
  | AfterResolvers.                           (* compiler.hooks.afterResolvers.call *)

Inductive exn :=
  | Error (message : string)
  | TypeError (what : string).

(** The compiler: the four fields [process] assigns, the input file
    system as [process] finds it after the hook [afterPlugins] (the
    plugins at hand are taken not to change it behind its back), and
    what has been done to the compiler so far. *)
Record compiler := Compiler {
  outputPath : value;
  c_recordsInputPath : value;
  c_recordsOutputPath : value;
  c_name : value;
  inputFileSystem : value;
  log : list action
}.

(** A stretch of [process]: what it does, and the exception that ends
    it, if any. *)
Definition stretch : Type := list action * option exn.

Definition done_ (l : list action) : stretch := (l, None).
Definition throw (e : exn) : stretch := ([], Some e).
Definition apply (p : plugin) : stretch := ([Apply p], None).
Definition when (b : bool) (s : stretch) : stretch := if b then s else ([], None).

Definition seq (a b : stretch) : stretch :=
  match a.2 with
  | Some e => a
  | None => (a.1 ++ b.1, b.2)
  end.

Fixpoint seqs (l : list stretch) : stretch :=
  match l with
  | [] => ([], None)
  | a :: rest => seq a (seqs rest)
  end.

Definition electronMainExternals : list string :=
  ["app"; "auto-updater"; "browser-window"; "clipboard"; "content-tracing";
   "crash-reporter"; "dialog"; "electron"; "global-shortcut"; "ipc"; "ipc-main";
   "menu"; "menu-item"; "native-image"; "original-fs"; "power-monitor";
   "power-save-blocker"; "protocol"; "screen"; "session"; "shell"; "tray";
   "web-contents"].

Definition electronRendererExternals : list string :=
  ["clipboard"; "crash-reporter"; "desktop-capturer"; "electron"; "ipc";
   "ipc-renderer"; "native-image"; "original-fs"; "remote"; "screen"; "shell";
   "web-frame"].

(** The [switch] over [options.target] and the two branches after it. *)
Definition applyTarget (o : options) : stretch :=
  let mangle := mangleWasmImports (optimization o) in
  match target o with
  | Prim (OStr t) =>
      if String.eqb t "web" then
        done_ [Apply JsonpTemplatePlugin; Apply (FetchCompileWasmPlugin mangle);
               Apply FunctionModulePlugin; Apply (NodeSourcePlugin (node o));
               Apply (LoaderTargetPlugin (target o))]
      else if String.eqb t "webworker" then
        done_ [Apply WebWorkerTemplatePlugin; Apply (FetchCompileWasmPlugin mangle);
               Apply FunctionModulePlugin; Apply (NodeSourcePlugin (node o));
               Apply (LoaderTargetPlugin (target o)); Apply StartupChunkDependenciesPlugin]
      else if String.eqb t "node" || String.eqb t "async-node" then
        done_ [Apply (NodeTemplatePlugin (String.eqb t "async-node"));
               Apply (ReadFileCompileWasmPlugin mangle);
               Apply FunctionModulePlugin; Apply NodeTargetPlugin;
               Apply (LoaderTargetPlugin (str "node")); Apply StartupChunkDependenciesPlugin]
      else if String.eqb t "node-webkit" then
        done_ [Apply JsonpTemplatePlugin; Apply FunctionModulePlugin; Apply NodeTargetPlugin;
               Apply (ExternalsPlugin (str "commonjs") (ExtName "nw.gui"));
               Apply (LoaderTargetPlugin (target o)); Apply StartupChunkDependenciesPlugin]
      else if String.eqb t "electron-main" then
        done_ [Apply (NodeTemplatePlugin true); Apply FunctionModulePlugin;
               Apply NodeTargetPlugin;
               Apply (ExternalsPlugin (str "commonjs") (ExtNames electronMainExternals));
               Apply (LoaderTargetPlugin (target o)); Apply StartupChunkDependenciesPlugin]
      else if String.eqb t "electron-renderer" then
        done_ [Apply JsonpTemplatePlugin; Apply (FetchCompileWasmPlugin mangle);
               Apply FunctionModulePlugin; Apply NodeTargetPlugin;
               Apply (ExternalsPlugin (str "commonjs") (ExtNames electronRendererExternals));
               Apply (LoaderTargetPlugin (target o))]
      else throw (Error ("Unsupported target '" +:+ t +:+ "'."))
  | Prim (OBool false) => throw (Error ("Unsupported target '" +:+ "false" +:+ "'."))
  | Func f => done_ [CallTarget f]
  | _ => throw (TypeError "options.target is not a function")
  end.

Definition applyLibrary (o : options) : stretch :=
  when (truthy (library (output o)) ||
        negb (match libraryTarget (output o) with
              | Prim (OStr s) => String.eqb s "var"
              | _ => false
              end))
    (apply (LibraryTemplatePlugin (library (output o)) (libraryTarget (output o))
              (umdNamedDefine (output o)) (or (auxiliaryComment (output o)) (str ""))
              (libraryExport (output o)))).

Definition applyExternals (o : options) : stretch :=
  when (truthy (externals o))
    (apply (ExternalsPlugin (libraryTarget (output o)) (ExtOption (externals o)))).

(** The comments of the two [devtool] branches. *)
Definition sourceMappingComment (legacy modern : bool) : value :=
  if legacy && modern then
    str (nl +:+ "/*" +:+ nl +:+ "//@ source" +:+ "MappingURL=[url]" +:+ nl +:+ "//# source"
         +:+ "MappingURL=[url]" +:+ nl +:+ "*/")
  else if legacy then
    str (nl +:+ "/*" +:+ nl +:+ "//@ source" +:+ "MappingURL=[url]" +:+ nl +:+ "*/")
  else if modern then str (nl +:+ "//# source" +:+ "MappingURL=[url]")
  else Prim ONull.

Definition sourceUrlComment (legacy modern : bool) : value :=
  if legacy && modern then
    str (nl +:+ "//@ sourceURL=[url]" +:+ nl +:+ "//# sourceURL=[url]")
  else if legacy then str (nl +:+ "//@ sourceURL=[url]")
  else if modern then str (nl +:+ "//# sourceURL=[url]")
  else Prim ONull.

(** The [devtool] branches. A truthy [options.devtool] that is no
    string has no [includes]. *)
Definition applyDevtool (o : options) : stretch :=
  if truthy (devtool o) then
    match devtool o with
    | Prim (OStr d) =>
        if includes d "sourcemap" || includes d "source-map" then
          let hidden := includes d "hidden" in
          let inline := includes d "inline" in
          let evalWrapped := includes d "eval" in
          let cheap := includes d "cheap" in
          let moduleMaps := includes d "module" in
          let noSources := includes d "nosources" in
          let legacy := includes d "@" in
          let modern := includes d "#" in
          let comment := sourceMappingComment legacy modern in
          let opts :=
            SourceMapOptions
              (if inline then Prim ONull else sourceMapFilename (output o))
              (devtoolModuleFilenameTemplate (output o))
              (devtoolFallbackModuleFilenameTemplate (output o))
              (if hidden then Prim (OBool false) else comment)
              (if moduleMaps then true else if cheap then false else true)
              (if cheap then false else true)
              noSources
              (devtoolNamespace (output o)) in
          apply (if evalWrapped then EvalSourceMapDevToolPlugin opts
                 else SourceMapDevToolPlugin opts)
        else if includes d "eval" then
          apply (EvalDevToolModulePlugin
                   (sourceUrlComment (includes d "@") (includes d "#"))
                   (devtoolModuleFilenameTemplate (output o))
                   (devtoolNamespace (output o)))
        else done_ []
    | _ => throw (TypeError "options.devtool.includes is not a function")
    end
  else done_ [].

(** From [JavascriptModulesPlugin] to [EnsureChunkConditionsPlugin]. *)
Definition applyLanguage (o : options) : stretch :=
  done_
    ([Apply JavascriptModulesPlugin; Apply JsonModulesPlugin;
      Apply (WebAssemblyModulesPlugin (mangleWasmImports (optimization o)));
      Apply EntryOptionPlugin; EntryOption (context o) (entry o);
      Apply RuntimePlugin; Apply CompatibilityPlugin;
      Apply (HarmonyModulesPlugin (module o));
      Apply (AMDPlugin (module o) (or (amd o) EmptyObject));
      Apply (CommonJsPlugin (module o)); Apply LoaderPlugin;
      Apply (NodeStuffPlugin (node o)); Apply RequireJsStuffPlugin; Apply APIPlugin;
      Apply ConstPlugin; Apply UseStrictPlugin; Apply RequireIncludePlugin;
      Apply RequireEnsurePlugin;
      Apply (RequireContextPlugin (resolveModules o) (resolveExtensions o)
               (resolveMainFiles o));
      Apply (ImportPlugin (module o)); Apply (SystemPlugin (module o));
      Apply DefaultStatsFactoryPlugin; Apply DefaultStatsPresetPlugin;
      Apply DefaultStatsPrinterPlugin]
     ++ (if isString (mode o) then [] else [Apply WarnNoModeSetPlugin])
     ++ [Apply EnsureChunkConditionsPlugin]).

(** The flags of [options.optimization] up to [checkWasmTypes]. *)
Definition applyFlags (o : options) : stretch :=
  let opt := optimization o in
  let flag (v : value) (p : plugin) : list action := if truthy v then [Apply p] else [] in
  done_
    (flag (removeAvailableModules opt) RemoveParentModulesPlugin
     ++ flag (removeEmptyChunks opt) RemoveEmptyChunksPlugin
     ++ flag (mergeDuplicateChunks opt) MergeDuplicateChunksPlugin
     ++ flag (flagIncludedChunks opt) FlagIncludedChunksPlugin
     ++ flag (sideEffects opt) SideEffectsFlagPlugin
     ++ flag (providedExports opt) FlagDependencyExportsPlugin
     ++ flag (usedExports opt) FlagDependencyUsagePlugin
     ++ flag (concatenateModules opt) ModuleConcatenationPlugin
     ++ flag (splitChunks opt) (SplitChunksPlugin (splitChunks opt))
     ++ flag (runtimeChunk opt) (RuntimeChunkPlugin (runtimeChunk opt))
     ++ flag (noEmitOnErrors opt) NoEmitOnErrorsPlugin
     ++ flag (checkWasmTypes opt) WasmFinalizeExportsPlugin).

(** One of the two switches over the id options. *)
Definition idSwitch (r : OptionsApply.result) : stretch :=
  match r with
  | Applied ps => done_ (Apply <$> (IdPlugin <$> ps))
  | Thrown msg => throw (Error msg)
  end.

(** From [nodeEnv] to [WarnCaseSensitiveModulesPlugin]. *)
Definition applyMinimizers (o : options) : stretch :=
  let opt := optimization o in
  done_
    ((if truthy (nodeEnv opt) then [Apply (DefinePlugin (nodeEnv opt))] else [])
     ++ (if truthy (minimize opt) then ApplyMinimizer <$> minimizer opt else [])
     ++ (if truthy (performance o) then [Apply (SizeLimitsPlugin (performance o))] else [])
     ++ [Apply TemplatedPathPlugin; Apply (RecordIdsPlugin (portableRecords opt));
         Apply WarnCaseSensitiveModulesPlugin]).

(** [if (options.cache && typeof options.cache === "object") switch ...] *)
Definition applyCache (o : options) : stretch :=
  match cache o with
  | Obj _ =>
      match cacheType o with
      | OStr t =>
          if String.eqb t "memory" then apply MemoryCachePlugin
          else if String.eqb t "filesystem" then
            done_ [Apply MemoryCachePlugin; Apply (FileCachePlugin (cache o))]
          else throw (Error ("Unknown cache type " +:+ toString (cacheType o)))
      | _ => throw (Error ("Unknown cache type " +:+ toString (cacheType o)))
      end
  | EmptyObject => throw (Error ("Unknown cache type " +:+ "undefined"))
  | _ => done_ []
  end.

(** The end of [process], which looks at the compiler. *)
Definition applyResolvers (c : compiler) : stretch :=
  seq (done_ [Apply ResolverCachePlugin; AfterPlugins])
    (if truthy (inputFileSystem c) then
       done_ [TapResolveOptions "normal"; TapResolveOptions "context";
              TapResolveOptions "loader"; AfterResolvers]
     else throw (Error "No input filesystem provided")).

(** What [process] does after the four assignments. *)
Definition body (o : options) (c : compiler) : stretch :=
  seqs [applyTarget o; applyLibrary o; applyExternals o; applyDevtool o;
        applyLanguage o; applyFlags o;
        idSwitch (applyModuleIds (moduleIds (optimization o)) []);
        idSwitch (applyChunkIds (chunkIds (optimization o)) []);
        applyMinimizers o; applyCache o; applyResolvers c].

(** [process(options, compiler)]: the compiler afterwards, and the
    exception thrown, if any; without one, [options] is returned. *)
Definition process (o : options) (c : compiler) : compiler * option exn :=
  let c := Compiler (path (output o))
                    (or (recordsInputPath o) (recordsPath o))
                    (or (recordsOutputPath o) (recordsPath o))
                    (name o) (inputFileSystem c) (log c) in
  (Compiler (outputPath c) (c_recordsInputPath c) (c_recordsOutputPath c) (c_name c)
            (inputFileSystem c) (log c ++ (body o c).1),
   (body o c).2).

(** The name of the class of a plugin. *)
Definition className (p : plugin) : string :=
  match p with
  | JsonpTemplatePlugin => "JsonpTemplatePlugin"
  | FetchCompileWasmPlugin _ => "FetchCompileWasmPlugin"
  | FunctionModulePlugin => "FunctionModulePlugin"
  | NodeSourcePlugin _ => "NodeSourcePlugin"
  | LoaderTargetPlugin _ => "LoaderTargetPlugin"
  | WebWorkerTemplatePlugin => "WebWorkerTemplatePlugin"
  | StartupChunkDependenciesPlugin => "StartupChunkDependenciesPlugin"
  | NodeTemplatePlugin _ => "NodeTemplatePlugin"
  | ReadFileCompileWasmPlugin _ => "ReadFileCompileWasmPlugin"
  | NodeTargetPlugin => "NodeTargetPlugin"
  | ExternalsPlugin _ _ => "ExternalsPlugin"
  | LibraryTemplatePlugin _ _ _ _ _ => "LibraryTemplatePlugin"
  | EvalSourceMapDevToolPlugin _ => "EvalSourceMapDevToolPlugin"
  | SourceMapDevToolPlugin _ => "SourceMapDevToolPlugin"
  | EvalDevToolModulePlugin _ _ _ => "EvalDevToolModulePlugin"
  | JavascriptModulesPlugin => "JavascriptModulesPlugin"
  | JsonModulesPlugin => "JsonModulesPlugin"
  | WebAssemblyModulesPlugin _ => "WebAssemblyModulesPlugin"
  | EntryOptionPlugin => "EntryOptionPlugin"
  | RuntimePlugin => "RuntimePlugin"
  | CompatibilityPlugin => "CompatibilityPlugin"
  | HarmonyModulesPlugin _ => "HarmonyModulesPlugin"
  | AMDPlugin _ _ => "AMDPlugin"
  | CommonJsPlugin _ => "CommonJsPlugin"
  | LoaderPlugin => "LoaderPlugin"
  | NodeStuffPlugin _ => "NodeStuffPlugin"
  | RequireJsStuffPlugin => "RequireJsStuffPlugin"
  | APIPlugin => "APIPlugin"
  | ConstPlugin => "ConstPlugin"
  | UseStrictPlugin => "UseStrictPlugin"
  | RequireIncludePlugin => "RequireIncludePlugin"
  | RequireEnsurePlugin => "RequireEnsurePlugin"
  | RequireContextPlugin _ _ _ => "RequireContextPlugin"
  | ImportPlugin _ => "ImportPlugin"
  | SystemPlugin _ => "SystemPlugin"
  | DefaultStatsFactoryPlugin => "DefaultStatsFactoryPlugin"
  | DefaultStatsPresetPlugin => "DefaultStatsPresetPlugin"
  | DefaultStatsPrinterPlugin => "DefaultStatsPrinterPlugin"
  | WarnNoModeSetPlugin => "WarnNoModeSetPlugin"
  | EnsureChunkConditionsPlugin => "EnsureChunkConditionsPlugin"
  | RemoveParentModulesPlugin => "RemoveParentModulesPlugin"
  | RemoveEmptyChunksPlugin => "RemoveEmptyChunksPlugin"
  | MergeDuplicateChunksPlugin => "MergeDuplicateChunksPlugin"
  | FlagIncludedChunksPlugin => "FlagIncludedChunksPlugin"
  | SideEffectsFlagPlugin => "SideEffectsFlagPlugin"
  | FlagDependencyExportsPlugin => "FlagDependencyExportsPlugin"
  | FlagDependencyUsagePlugin => "FlagDependencyUsagePlugin"
  | ModuleConcatenationPlugin => "ModuleConcatenationPlugin"
  | SplitChunksPlugin _ => "SplitChunksPlugin"
  | RuntimeChunkPlugin _ => "RuntimeChunkPlugin"
  | NoEmitOnErrorsPlugin => "NoEmitOnErrorsPlugin"
  | WasmFinalizeExportsPlugin => "WasmFinalizeExportsPlugin"
  | IdPlugin OptionsApply.NaturalModuleIdsPlugin => "NaturalModuleIdsPlugin"
  | IdPlugin OptionsApply.NamedModuleIdsPlugin => "NamedModuleIdsPlugin"
  | IdPlugin (OptionsApply.WarnDeprecatedOptionPlugin _ _ _) => "WarnDeprecatedOptionPlugin"
  | IdPlugin OptionsApply.HashedModuleIdsPlugin => "HashedModuleIdsPlugin"
  | IdPlugin OptionsApply.DeterministicModuleIdsPlugin => "DeterministicModuleIdsPlugin"
  | IdPlugin (OptionsApply.OccurrenceModuleIdsPlugin _) => "OccurrenceModuleIdsPlugin"
  | IdPlugin OptionsApply.NaturalChunkIdsPlugin => "NaturalChunkIdsPlugin"
  | IdPlugin OptionsApply.NamedChunkIdsPlugin => "NamedChunkIdsPlugin"
  | IdPlugin OptionsApply.DeterministicChunkIdsPlugin => "DeterministicChunkIdsPlugin"
  | IdPlugin (OptionsApply.OccurrenceChunkIdsPlugin _) => "OccurrenceChunkIdsPlugin"
  | DefinePlugin _ => "DefinePlugin"
  | SizeLimitsPlugin _ => "SizeLimitsPlugin"
  | TemplatedPathPlugin => "TemplatedPathPlugin"
  | RecordIdsPlugin _ => "RecordIdsPlugin"
  | WarnCaseSensitiveModulesPlugin => "WarnCaseSensitiveModulesPlugin"
  | MemoryCachePlugin => "MemoryCachePlugin"
  | FileCachePlugin _ => "FileCachePlugin"
  | ResolverCachePlugin => "ResolverCachePlugin"
  end.

(** How often a plugin of the class [n] is applied in [l]. *)
Definition applied (n : string) (l : list action) : nat :=
  length (List.filter (λ a, match a with
                            | Apply p => String.eqb (className p) n
                            | _ => false
                            end) l).

(** The targets [process] has a case for. *)
Definition supportedTargets : list string :=
  ["web"; "webworker"; "node"; "async-node"; "node-webkit"; "electron-main";
   "electron-renderer"].

(** The classes that render the chunks of a target. *)
Definition templatePlugins : list string :=
  ["JsonpTemplatePlugin"; "WebWorkerTemplatePlugin"; "NodeTemplatePlugin"].

(** The plugins [process] applies whatever the options are. *)
Definition always : list string :=
  ["JavascriptModulesPlugin"; "JsonModulesPlugin"; "WebAssemblyModulesPlugin";
   "EntryOptionPlugin"; "RuntimePlugin"; "CompatibilityPlugin"; "HarmonyModulesPlugin";
   "AMDPlugin"; "CommonJsPlugin"; "LoaderPlugin"; "NodeStuffPlugin";
   "RequireJsStuffPlugin"; "APIPlugin"; "ConstPlugin"; "UseStrictPlugin";
   "RequireIncludePlugin"; "RequireEnsurePlugin"; "RequireContextPlugin"; "ImportPlugin";
   "SystemPlugin"; "DefaultStatsFactoryPlugin"; "DefaultStatsPresetPlugin";
   "DefaultStatsPrinterPlugin"; "EnsureChunkConditionsPlugin"; "TemplatedPathPlugin";
   "RecordIdsPlugin"; "WarnCaseSensitiveModulesPlugin"; "ResolverCachePlugin"].

(** The classes of the plugins applied in [l], in order. *)
Definition classes (l : list action) : list string :=
  omap (λ a, match a with Apply p => Some (className p) | _ => None end) l.

(** The classes the [switch] over the target can apply, and the classes
    the rest of [process] can apply, in the order of the code. *)
Definition targetClasses : list string :=
  ["JsonpTemplatePlugin"; "FetchCompileWasmPlugin"; "FunctionModulePlugin";
   "NodeSourcePlugin"; "LoaderTargetPlugin"; "WebWorkerTemplatePlugin";
   "StartupChunkDependenciesPlugin"; "NodeTemplatePlugin"; "ReadFileCompileWasmPlugin";
   "NodeTargetPlugin"; "ExternalsPlugin"].

Definition laterClasses : list string :=
  ["LibraryTemplatePlugin"; "ExternalsPlugin"; "EvalSourceMapDevToolPlugin";
   "SourceMapDevToolPlugin"; "EvalDevToolModulePlugin";
   "JavascriptModulesPlugin"; "JsonModulesPlugin"; "WebAssemblyModulesPlugin";
   "EntryOptionPlugin"; "RuntimePlugin"; "CompatibilityPlugin"; "HarmonyModulesPlugin";
   "AMDPlugin"; "CommonJsPlugin"; "LoaderPlugin"; "NodeStuffPlugin";
   "RequireJsStuffPlugin"; "APIPlugin"; "ConstPlugin"; "UseStrictPlugin";
   "RequireIncludePlugin"; "RequireEnsurePlugin"; "RequireContextPlugin"; "ImportPlugin";
   "SystemPlugin"; "DefaultStatsFactoryPlugin"; "DefaultStatsPresetPlugin";
   "DefaultStatsPrinterPlugin"; "WarnNoModeSetPlugin"; "EnsureChunkConditionsPlugin";
   "RemoveParentModulesPlugin"; "RemoveEmptyChunksPlugin"; "MergeDuplicateChunksPlugin";
   "FlagIncludedChunksPlugin"; "SideEffectsFlagPlugin"; "FlagDependencyExportsPlugin";
   "FlagDependencyUsagePlugin"; "ModuleConcatenationPlugin"; "SplitChunksPlugin";
   "RuntimeChunkPlugin"; "NoEmitOnErrorsPlugin"; "WasmFinalizeExportsPlugin";
   "NaturalModuleIdsPlugin"; "NamedModuleIdsPlugin"; "WarnDeprecatedOptionPlugin";
   "HashedModuleIdsPlugin"; "DeterministicModuleIdsPlugin"; "OccurrenceModuleIdsPlugin";
   "NaturalChunkIdsPlugin"; "NamedChunkIdsPlugin"; "DeterministicChunkIdsPlugin";
   "OccurrenceChunkIdsPlugin";
   "DefinePlugin"; "SizeLimitsPlugin"; "TemplatedPathPlugin"; "RecordIdsPlugin";
   "WarnCaseSensitiveModulesPlugin"; "MemoryCachePlugin"; "FileCachePlugin";
   "ResolverCachePlugin"].

(** What [process] does after the [switch] over the target. *)
Definition later (o : options) (c : compiler) : list stretch :=
  [applyLibrary o; applyExternals o; applyDevtool o; applyLanguage o; applyFlags o;
   idSwitch (applyModuleIds (moduleIds (optimization o)) []);
   idSwitch (applyChunkIds (chunkIds (optimization o)) []);
   applyMinimizers o; applyCache o; applyResolvers c].

(** An action that is no call of a hook of the compiler. *)
Definition plain (a : action) : Prop :=
  match a with
  | Apply _ | CallTarget _ | ApplyMinimizer _ => True
  | _ => False
  end.

(** Options as the defaults for a production build for the web leave
    them, and a compiler that has an input file system. *)
Definition webOptions : options :=
  Options
    (Output (str "/dist") undefined (str "var") undefined undefined undefined
            (str "[file].map[query]") undefined undefined undefined)
    undefined undefined undefined undefined
    (str "web") undefined (Prim (OBool false)) (str "/") (str "./example.js")
    (Obj 1) undefined (Obj 2) (Obj 3) (Obj 4) (Obj 5)
    (str "production")
    (Optimization (Prim (OBool false)) (Prim (OBool true)) (Prim (OBool true))
       (Prim (OBool true)) (Prim (OBool true)) (Prim (OBool true)) (Prim (OBool true))
       (Prim (OBool true)) (Prim (OBool true)) (Obj 6) undefined (Prim (OBool true))
       (Prim (OBool true)) (OStr "deterministic") (OStr "deterministic")
       (str "production") (Prim (OBool true)) [0] (Prim (OBool false)))
    (Obj 7) (Prim (OBool false)) OUndefined.

Definition someCompiler : compiler :=
  Compiler undefined undefined undefined undefined (Obj 0) [].

(** The same for another target. *)
Definition withTarget (t : value) (o : options) : options :=
  Options (output o) (recordsInputPath o) (recordsOutputPath o) (recordsPath o) (name o)
    t (externals o) (devtool o) (context o) (entry o) (module o) (amd o) (node o)
    (resolveModules o) (resolveExtensions o) (resolveMainFiles o) (mode o)
    (optimization o) (performance o) (cache o) (cacheType o).

End Process.

(* ===================================================================== *)
(** * Facts about the JSONP chunk loading runtime *)
(* ===================================================================== *)

Module JsonpFacts.
Import Jsonp.

Lemma exec_app st a b :
  exec st (a ++ b) =
  let '(st1, o1) := exec st a in
  let '(st2, o2) := exec st1 b in (st2, o1 ++ o2).
Proof.
  revert st. induction a as [|ev a IH]; intros st; simpl.
  - by destruct (exec st b).
  - destruct (step st ev) as [st1 o]. rewrite IH.
    destruct (exec st1 a) as [st2 o1]. by destruct (exec st2 b).
Qed.

Lemma run_app st a b : run st (a ++ b) = run (run st a) b.
Proof.
  unfold run. rewrite exec_app. destruct (exec st a) as [st1 o1]; simpl.
  by destruct (exec st1 b).
Qed.

Lemma exec_length st evs : length (exec st evs).2 = length evs.
Proof.
  revert st. induction evs as [|ev evs IH]; intros st; simpl; [done|].
  destruct (step st ev) as [st1 o]. specialize (IH st1).
  destruct (exec st1 evs); simpl in *. by rewrite IH.
Qed.

Lemma chunk_disarm (l : list script) s sc :
  l !! s = Some sc → chunk <$> <[s := disarm sc]> l = chunk <$> l.
Proof.
  intros H. rewrite list_fmap_insert. simpl.
  apply list_insert_id. by rewrite list_lookup_fmap, H.
Qed.

Lemma filter_unique {A} (P : A → Prop) `{∀ x, Decision (P x)} (l : list A) i j x y :
  length (filter P l) ≤ 1 → l !! i = Some x → l !! j = Some y → P x → P y → i = j.
Proof.
  revert i j. induction l as [|a l IH]; intros i j Hlen Hi Hj Px Py; [done|].
  rewrite filter_cons in Hlen.
  destruct i as [|i], j as [|j]; simpl in *; simplify_eq; try done.
  - rewrite decide_True in Hlen by done. simpl in Hlen.
    assert (y ∈ filter P l) as Hin.
    { apply list_elem_of_filter. split; [done|]. by eapply list_elem_of_lookup_2. }
    destruct (filter P l); [by apply elem_of_nil in Hin | simpl in Hlen; lia].
  - rewrite decide_True in Hlen by done. simpl in Hlen.
    assert (x ∈ filter P l) as Hin.
    { apply list_elem_of_filter. split; [done|]. by eapply list_elem_of_lookup_2. }
    destruct (filter P l); [by apply elem_of_nil in Hin | simpl in Hlen; lia].
  - f_equal. apply IH; try done. destruct (decide (P a)); simpl in Hlen; lia.
Qed.


Lemma length_settle p s ps : length (settle p s ps) = length ps.
Proof. unfold settle. destruct (ps !! p) as [[]|]; try done. apply length_insert. Qed.

Lemma settle_lookup_ne p q s ps : p ≠ q → settle p s ps !! q = ps !! q.
Proof.
  intros Hne. unfold settle. destruct (ps !! p) as [[]|]; try done.
  by apply list_lookup_insert_ne.
Qed.

Lemma settle_lookup_pending p s ps : ps !! p = Some Pending → settle p s ps !! p = Some s.
Proof.
  intros H. unfold settle. rewrite H. apply list_lookup_insert_eq.
  by eapply lookup_lt_Some.
Qed.

Lemma wf_init : wf init.
Proof.
  split; simpl.
  - intros c p H. apply lookup_singleton_Some in H as [_ ?]; done.
  - intros c c' p H. apply lookup_singleton_Some in H as [_ ?]; done.
  - done.
  - intros c p H. apply lookup_singleton_Some in H as [_ ?]; done.
  - intros c H. apply lookup_singleton_Some in H as [_ ?]; done.
  - intros s sc p H. done.
Qed.

Lemma f_j_cases c acc st :
  f_j c acc st =
  match installedChunks st !! c with
  | Some Installed => (st, acc)
  | Some (Loading p) => (st, acc ++ [p])
  | _ => (startLoading c st, acc ++ [length (promises st)])
  end.
Proof. unfold f_j. by destruct (installedChunks st !! c) as [[]|]. Qed.

Lemma fetches_startLoading c c0 st :
  fetches c0 (startLoading c st) = fetches c0 st + (if decide (c = c0) then 1 else 0).
Proof.
  unfold fetches, startLoading; simpl.
  rewrite fmap_app, filter_app, length_app. f_equal. simpl.
  rewrite filter_cons. by destruct (decide (c = c0)).
Qed.

Lemma wf_startLoading c st :
  wf st → installedChunks st !! c = None → wf (startLoading c st).
Proof.
  intros [Hb Hi Hn Hl Hp Hpe] Hc. split.
  - intros c0 p. simpl. rewrite length_app; simpl.
    intros [[-> [= <-]]|[? H]]%lookup_insert_Some; [lia|].
    apply Hb in H. lia.
  - intros c1 c2 p. simpl.
    intros [[<- [= <-]]|[? H1]]%lookup_insert_Some [[<- ?]|[? H2]]%lookup_insert_Some;
      simplify_eq; try done.
    + apply Hb in H2. lia.
    + apply Hb in H1. lia.
    + eauto.
  - intros c0. simpl. intros [H ?]%lookup_insert_None.
    rewrite fetches_startLoading, decide_False by done. rewrite (Hn _ H). done.
  - intros c0 p. simpl. rewrite fetches_startLoading.
    intros [[<- [= <-]]|[? H]]%lookup_insert_Some.
    + rewrite decide_True by done. by rewrite (Hn _ Hc).
    + rewrite decide_False by done. rewrite (Hl _ _ H). done.
  - intros c0. simpl. intros [[? ?]|[? H]]%lookup_insert_Some; [done|]. by eapply Hp.
  - intros s sc p. simpl.
    intros [Hs|[? [? <-]%list_lookup_singleton_Some]]%lookup_app_Some Harm; simpl.
    + intros [[Hch [= <-]]|[? H]]%lookup_insert_Some.
      * by apply list_lookup_middle.
      * rewrite lookup_app_l by (by eapply Hb). eauto.
    + rewrite lookup_insert_eq. intros [= <-]. by apply list_lookup_middle.
Qed.

Lemma wf_f_j c acc st : wf st → wf (f_j c acc st).1.
Proof.
  intros Hwf. rewrite f_j_cases.
  destruct (installedChunks st !! c) as [[]|] eqn:Hc; simpl; try done.
  - by destruct (wf_noprefetch st Hwf c).
  - by apply wf_startLoading.
Qed.


Lemma onScriptComplete_cases s event st sc :
  scripts st !! s = Some sc →
  onScriptComplete s event st =
  let st1 := set_scripts (<[s := disarm sc]>) st in
  match installedChunks st !! chunk sc with
  | Some (Loading p) => reject p (loadError sc event) st1
  | Some Installed => st1
  | _ => set_installedChunks (delete (chunk sc)) st1
  end.
Proof.
  intros H. unfold onScriptComplete, loadingEnded. rewrite H. simpl.
  by destruct (installedChunks st !! chunk sc) as [[]|].
Qed.

Lemma fetches_disarm c s sc st :
  scripts st !! s = Some sc → fetches c (set_scripts (<[s := disarm sc]>) st) = fetches c st.
Proof. intros H. unfold fetches; simpl. by rewrite chunk_disarm. Qed.

Lemma wf_disarm s sc st :
  wf st → scripts st !! s = Some sc → wf (set_scripts (<[s := disarm sc]>) st).
Proof.
  intros [Hb Hi Hn Hl Hp Hpe] Hs. split; simpl; try done.
  - intros c H. rewrite <- (Hn _ H). by apply fetches_disarm.
  - intros c p H. rewrite <- (Hl _ _ H). by apply fetches_disarm.
  - intros s0 sc0 p [[-> [<- ?]]|[? H]]%list_lookup_insert_Some; [done|]. eauto.
Qed.

Lemma script_unique st s s' sc sc' :
  fetches (chunk sc) st ≤ 1 →
  scripts st !! s = Some sc → scripts st !! s' = Some sc' → chunk sc' = chunk sc → s = s'.
Proof.
  intros Hle Hs Hs' Hc. unfold fetches in Hle.
  apply (filter_unique (λ c', c' = chunk sc) (chunk <$> scripts st) s s'
           (chunk sc) (chunk sc')); try done.
  - by rewrite list_lookup_fmap, Hs.
  - by rewrite list_lookup_fmap, Hs'.
Qed.

Lemma wf_onScriptComplete s event st : wf st → wf (onScriptComplete s event st).
Proof.
  intros Hwf. destruct (scripts st !! s) as [sc|] eqn:Hs.
  2:{ unfold onScriptComplete. by rewrite Hs. }
  rewrite (onScriptComplete_cases _ _ _ _ Hs). simpl.
  pose proof (wf_disarm _ _ _ Hwf Hs) as Hwf1.
  destruct (installedChunks st !! chunk sc) as [[| |p]|] eqn:Hc; try done.
  - by destruct (wf_noprefetch st Hwf (chunk sc)).
  - destruct Hwf as [Hb Hi Hn Hl Hp Hpe]. destruct Hwf1 as [Hb1 Hi1 Hn1 Hl1 Hp1 Hpe1].
    split; simpl in *; try done.
    + intros c q H. rewrite length_settle. eauto.
    + intros s0 sc0 q Hs0 Harm Hq.
      destruct (decide (q = p)) as [->|Hne].
      * exfalso. apply list_lookup_insert_Some in Hs0 as [[-> [<- ?]]|[Hne Hs0]]; [done|].
        apply Hne. pose proof (Hi _ _ _ Hq Hc) as Heq.
        eapply (script_unique st); [|exact Hs|exact Hs0|done].
        by rewrite (Hl _ _ Hc).
      * rewrite settle_lookup_ne by done. eauto.
  - replace (set_installedChunks (delete (chunk sc)) (set_scripts <[s:=disarm sc]> st))
      with (set_scripts <[s:=disarm sc]> st); [done|].
    unfold set_installedChunks; simpl. by rewrite delete_id.
Qed.

(** Marking a chunk as installed and resolving a promise that no entry
    refers to keep the invariant. *)
Lemma wf_mark c st : wf st → wf (set_installedChunks <[c := Installed]> st).
Proof.
  intros [Hb Hi Hn Hl Hp Hpe]. split; simpl.
  - intros c0 p [[? ?]|[? H]]%lookup_insert_Some; [done|]. eauto.
  - intros c1 c2 p [[? ?]|[? H1]]%lookup_insert_Some [[? ?]|[? H2]]%lookup_insert_Some;
      try done. eauto.
  - intros c0 [H ?]%lookup_insert_None. apply (Hn _ H).
  - intros c0 p [[? ?]|[? H]]%lookup_insert_Some; [done|]. apply (Hl _ _ H).
  - intros c0 [[? ?]|[? H]]%lookup_insert_Some; [done|]. by eapply Hp.
  - intros s sc p Hs Harm [[? ?]|[? H]]%lookup_insert_Some; [done|]. eauto.
Qed.

Lemma wf_resolve p st : wf st → unreferenced p st → wf (resolve p st).
Proof.
  intros [Hb Hi Hn Hl Hp Hpe] Hun. split; simpl; try done.
  - intros c q H. rewrite length_settle. eauto.
  - intros s sc q Hs Harm Hq. rewrite settle_lookup_ne; [eauto|].
    intros ->. by destruct (Hun (chunk sc)).
Qed.

Lemma flagChunks_wf ids acc st :
  wf st → Forall (λ p, unreferenced p st) acc →
  wf (flagChunks ids acc st).1 ∧
  Forall (λ p, unreferenced p (flagChunks ids acc st).1) (flagChunks ids acc st).2.
Proof.
  revert acc st. induction ids as [|c ids IH]; intros acc st Hwf Hacc; simpl; [done|].
  apply IH; [by apply wf_mark|].
  assert (Forall (λ p, unreferenced p (set_installedChunks <[c:=Installed]> st)) acc) as Hacc'.
  { eapply Forall_impl; [exact Hacc|]. intros p Hun c0; simpl.
    intros [[? ?]|[? H]]%lookup_insert_Some; [done|]. by destruct (Hun c0). }
  destruct (installedChunks st !! c) as [[| |p]|] eqn:Hc; try done.
  apply Forall_app; split; [done|]. constructor; [|done].
  intros c0; simpl. intros [[? ?]|[Hne H]]%lookup_insert_Some; [done|].
  apply Hne. by eapply (wf_inj st Hwf).
Qed.

Lemma drain_wf rs st : wf st → Forall (λ p, unreferenced p st) rs → wf (drain rs st).
Proof.
  revert st. induction rs as [|p rs IH]; intros st Hwf Hrs; simpl; [done|].
  apply Forall_cons in Hrs as [Hp Hrs]. apply IH; [by apply wf_resolve|done].
Qed.

Lemma wf_emit e st : wf st → wf (emit e st).
Proof. by intros []. Qed.

Lemma wf_set_jsonpArray f st : wf st → wf (set_jsonpArray f st).
Proof. by intros []. Qed.

Lemma wf_set_modules f st : wf st → wf (set_modules f st).
Proof. by intros []. Qed.

Lemma wf_addModules v st : wf st → wf (addModules v st).
Proof. intros H. destruct v; simpl; try done. by apply wf_set_modules. Qed.

Lemma wf_webpackJsonpCallback data st : wf st → wf (webpackJsonpCallback data st).1.
Proof.
  intros Hwf. unfold webpackJsonpCallback.
  set (ids := match nth 0 data VUndefined with VIds ids => ids | _ => [] end).
  destruct (flagChunks_wf ids [] st Hwf) as [Hwf1 Hrs]; [done|].
  assert (wf (let '(st0, resolves) := flagChunks ids [] st in
     let st1 := addModules (nth 1 data VUndefined) st0 in
     let after_runtime :=
       if truthy (nth 3 data VUndefined)
       then match nth 3 data VUndefined with
            | VFunc f => (emit (CallRuntime f) st1, Returned)
            | _ => (st1, Threw)
            end
       else (st1, Returned) in
     let (st2, o) := after_runtime in
     match o with
     | Returned => (drain resolves (emit (ParentPush data) (set_jsonpArray (λ a, a ++ [data]) st2)), Returned)
     | Threw => (st2, Threw)
     end).1) as Hgoal.
  { destruct (flagChunks ids [] st) as [st0 rs]; simpl in *.
    pose proof (wf_addModules (nth 1 data VUndefined) _ Hwf1) as Hwf2.
    assert (Forall (λ p, unreferenced p (addModules (nth 1 data VUndefined) st0)) rs) as Hrs2.
    { eapply Forall_impl; [exact Hrs|]. intros p Hun c. specialize (Hun c).
      by destruct (nth 1 data VUndefined). }
    destruct (truthy (nth 3 data VUndefined)); [destruct (nth 3 data VUndefined)|]; simpl; try done.
    all: apply drain_wf; [by repeat first [apply wf_emit | apply wf_set_jsonpArray]|].
    all: eapply Forall_impl; [exact Hrs2|]; intros p Hun c; apply (Hun c). }
  destruct (nth 0 data VUndefined); try done.
Qed.

Lemma wf_step st ev : wf st → wf (step st ev).1.
Proof.
  intros Hwf. destruct ev as [c|s|s|s|data|d]; simpl.
  - by apply wf_f_j.
  - destruct (scripts st !! s) as [sc|]; [|done].
    destruct (handlers sc); [|done]. by apply wf_onScriptComplete.
  - destruct (scripts st !! s) as [sc|]; [|done].
    destruct (handlers sc); [|done]. by apply wf_onScriptComplete.
  - destruct (scripts st !! s) as [sc|]; [|done].
    destruct (timer sc && (deadline sc <=? now st)%N); [|done]. by apply wf_onScriptComplete.
  - by apply wf_webpackJsonpCallback.
  - by destruct Hwf.
Qed.

Lemma wf_run st evs : wf st → wf (run st evs).
Proof.
  revert st. induction evs as [|ev evs IH]; intros st Hwf; [done|].
  change (ev :: evs) with ([ev] ++ evs). rewrite run_app. apply IH.
  unfold run; simpl. pose proof (wf_step st ev Hwf). by destruct (step st ev).
Qed.

(** ** What [webpackJsonpCallback] leaves behind *)

Lemma flagChunks_chunks ids acc st c :
  installedChunks (flagChunks ids acc st).1 !! c =
  if bool_decide (c ∈ ids) then Some Installed else installedChunks st !! c.
Proof.
  revert acc st. induction ids as [|c0 ids IH]; intros acc st; simpl; [done|].
  rewrite IH. simpl. destruct (decide (c = c0)) as [->|Hne].
  - rewrite lookup_insert_eq. rewrite (bool_decide_eq_true_2 (c0 ∈ c0 :: ids)) by left.
    by case_bool_decide.
  - rewrite lookup_insert_ne by done.
    case_bool_decide as H1; case_bool_decide as H2; try done.
    + destruct H2. by right.
    + apply elem_of_cons in H2 as [?|?]; done.
Qed.

Lemma flagChunks_frame ids acc st :
  let st' := (flagChunks ids acc st).1 in
  modules st' = modules st ∧ promises st' = promises st ∧ scripts st' = scripts st ∧
  jsonpArray st' = jsonpArray st ∧ nc st' = nc st ∧ now st' = now st ∧ trace st' = trace st.
Proof.
  revert acc st. induction ids as [|c0 ids IH]; intros acc st; simpl; [done|].
  exact (IH _ (set_installedChunks <[c0:=Installed]> st)).
Qed.

Lemma flagChunks_resolves ids acc st seen ic0 :
  (∀ c, installedChunks st !! c =
        if bool_decide (c ∈ seen) then Some Installed else ic0 !! c) →
  (flagChunks ids acc st).2 = acc ++ omap (loadingPromise ic0) (firsts seen ids).
Proof.
  revert acc st seen. induction ids as [|c0 ids IH]; intros acc st seen Hst; simpl.
  - by rewrite app_nil_r.
  - rewrite Hst. destruct (decide (c0 ∈ seen)) as [Hin|Hin].
    + rewrite !bool_decide_eq_true_2 by done. apply IH.
      intros c; simpl. destruct (decide (c = c0)) as [->|Hne].
      * rewrite lookup_insert_eq. by rewrite bool_decide_eq_true_2.
      * rewrite lookup_insert_ne by done. apply Hst.
    + rewrite !bool_decide_eq_false_2 by done. rewrite (IH _ _ (c0 :: seen)).
      * simpl. unfold loadingPromise at 2.
        destruct (ic0 !! c0) as [[]|]; simpl; try done. by rewrite <- app_assoc.
      * intros c; simpl. destruct (decide (c = c0)) as [->|Hne].
        -- rewrite lookup_insert_eq. rewrite bool_decide_eq_true_2; [done|left].
        -- rewrite lookup_insert_ne by done. rewrite Hst.
           case_bool_decide as H1; case_bool_decide as H2; try done.
           ++ destruct H2. by right.
           ++ apply elem_of_cons in H2 as [?|?]; done.
Qed.

Lemma drain_frame rs st :
  installedChunks (drain rs st) = installedChunks st ∧ modules (drain rs st) = modules st ∧
  scripts (drain rs st) = scripts st ∧ jsonpArray (drain rs st) = jsonpArray st ∧
  now (drain rs st) = now st ∧
  trace (drain rs st) = trace st ++ (Resolve <$> rs) ∧
  promises (drain rs st) = foldl (λ ps p, settle p Fulfilled ps) (promises st) rs.
Proof.
  revert st. induction rs as [|p rs IH]; intros st; simpl.
  - by rewrite app_nil_r.
  - destruct (IH (resolve p st)) as (-> & -> & -> & -> & -> & -> & ->). simpl.
    by rewrite <- app_assoc.
Qed.

Lemma settle_all_keeps rs ps q s :
  ps !! q = Some s → s ≠ Pending →
  foldl (λ ps p, settle p Fulfilled ps) ps rs !! q = Some s.
Proof.
  revert ps. induction rs as [|p rs IH]; intros ps Hq Hs; simpl; [done|].
  apply IH; [|done]. destruct (decide (p = q)) as [->|Hne].
  - unfold settle. rewrite Hq. by destruct s.
  - by rewrite settle_lookup_ne.
Qed.

Lemma settle_all_fulfils rs ps q :
  q ∈ rs → ps !! q = Some Pending →
  foldl (λ ps p, settle p Fulfilled ps) ps rs !! q = Some Fulfilled.
Proof.
  revert ps. induction rs as [|p rs IH]; intros ps Hin Hq; simpl.
  - by apply elem_of_nil in Hin.
  - destruct (decide (p = q)) as [->|Hne].
    + apply settle_all_keeps; [|done]. by apply settle_lookup_pending.
    + apply IH.
      * apply elem_of_cons in Hin as [?|?]; [congruence|done].
      * by rewrite settle_lookup_ne.
Qed.

Lemma webpackJsonpCallback_chunks data st c :
  installedChunks (webpackJsonpCallback data st).1 !! c =
  if bool_decide (c ∈ dataIds data) then Some Installed else installedChunks st !! c.
Proof.
  unfold webpackJsonpCallback, dataIds.
  set (ids := match nth 0 data VUndefined with VIds ids => ids | _ => [] end).
  pose proof (flagChunks_chunks ids [] st c) as Hc.
  assert (nth 0 data VUndefined = VUndefined → ids = []) as Hu by (by intros H; subst ids; rewrite H).
  destruct (flagChunks ids [] st) as [st0 rs]; simpl in Hc.
  assert (∀ v, installedChunks (addModules v st0) = installedChunks st0) as Hadd by (by intros []).
  destruct (nth 0 data VUndefined) eqn:E0.
  { rewrite Hu by done. by rewrite bool_decide_eq_false_2 by apply not_elem_of_nil. }
  all: destruct (truthy (nth 3 data VUndefined)); [destruct (nth 3 data VUndefined)|]; simpl.
  all: rewrite ?(proj1 (drain_frame _ _)); simpl; by rewrite ?Hadd.
Qed.

Lemma webpackJsonpCallback_scripts data st :
  scripts (webpackJsonpCallback data st).1 = scripts st.
Proof.
  unfold webpackJsonpCallback.
  set (ids := match nth 0 data VUndefined with VIds ids => ids | _ => [] end).
  pose proof (flagChunks_frame ids [] st) as (_ & _ & Hs & _).
  destruct (flagChunks ids [] st) as [st0 rs]; simpl in Hs.
  assert (∀ v, scripts (addModules v st0) = scripts st0) as Hadd by (by intros []).
  destruct (nth 0 data VUndefined) eqn:E0; [done|..].
  all: destruct (truthy (nth 3 data VUndefined)); [destruct (nth 3 data VUndefined)|]; simpl.
  all: rewrite ?(proj1 (proj2 (proj2 (drain_frame _ _)))); simpl; by rewrite ?Hadd.
Qed.


(** ** The state machine of an entry *)

Lemma onScriptComplete_chunks s event st c :
  wf st → installedChunks (onScriptComplete s event st) !! c = installedChunks st !! c.
Proof.
  intros Hwf. destruct (scripts st !! s) as [sc|] eqn:Hs.
  2:{ unfold onScriptComplete. by rewrite Hs. }
  rewrite (onScriptComplete_cases _ _ _ _ Hs). simpl.
  destruct (installedChunks st !! chunk sc) as [[| |p]|] eqn:Hc; simpl; try done.
  - by destruct (wf_noprefetch st Hwf (chunk sc)).
  - by rewrite delete_id.
Qed.

Lemma onScriptComplete_fetches s event st c :
  fetches c (onScriptComplete s event st) = fetches c st.
Proof.
  destruct (scripts st !! s) as [sc|] eqn:Hs.
  2:{ unfold onScriptComplete. by rewrite Hs. }
  rewrite (onScriptComplete_cases _ _ _ _ Hs). simpl.
  destruct (installedChunks st !! chunk sc) as [[| |p]|]; simpl;
    by apply (fetches_disarm c s sc st).
Qed.

Lemma step_entry c st ev :
  wf st →
  entry_step c (installedChunks st !! c) ev (step st ev).2 (installedChunks (step st ev).1 !! c).
Proof.
  intros Hwf. destruct ev as [c'|s|s|s|data|d]; simpl.
  - unfold requireEnsure. rewrite f_j_cases. destruct (decide (c' = c)) as [->|Hne].
    + destruct (installedChunks st !! c) as [[| |p]|] eqn:Hc; simpl; rewrite ?Hc.
      * constructor.
      * by destruct (wf_noprefetch st Hwf c).
      * constructor.
      * rewrite lookup_insert_eq. constructor.
    + assert (installedChunks
        (match installedChunks st !! c' with
         | Some Installed => (st, [])
         | Some (Loading p) => (st, [] ++ [p])
         | _ => (startLoading c' st, [] ++ [length (promises st)])
         end).1 !! c = installedChunks st !! c) as ->.
      { destruct (installedChunks st !! c') as [[| |p]|]; simpl; try done.
        all: by rewrite lookup_insert_ne. }
      apply es_other; [congruence|tauto].
  - assert (installedChunks
      (match scripts st !! s with
       | Some sc => if handlers sc then (onScriptComplete s (DomEvent "load" (src sc)) st, [])
                    else (st, [])
       | None => (st, [])
       end).1 !! c = installedChunks st !! c) as ->.
    { destruct (scripts st !! s) as [sc|]; [|done]. destruct (handlers sc); [|done].
      by apply onScriptComplete_chunks. }
    apply es_other; [done|simpl; tauto].
  - assert (installedChunks
      (match scripts st !! s with
       | Some sc => if handlers sc then (onScriptComplete s (DomEvent "error" (src sc)) st, [])
                    else (st, [])
       | None => (st, [])
       end).1 !! c = installedChunks st !! c) as ->.
    { destruct (scripts st !! s) as [sc|]; [|done]. destruct (handlers sc); [|done].
      by apply onScriptComplete_chunks. }
    apply es_other; [done|simpl; tauto].
  - assert (installedChunks
      (match scripts st !! s with
       | Some sc => if timer sc && (deadline sc <=? now st)%N
                    then (onScriptComplete s (DomEvent "timeout" (src sc)) st, [])
                    else (st, [])
       | None => (st, [])
       end).1 !! c = installedChunks st !! c) as ->.
    { destruct (scripts st !! s) as [sc|]; [|done].
      destruct (timer sc && (deadline sc <=? now st)%N); [|done].
      by apply onScriptComplete_chunks. }
    apply es_other; [done|simpl; tauto].
  - rewrite webpackJsonpCallback_chunks. case_bool_decide as Hin.
    + by apply es_push.
    + by apply es_other.
  - apply es_other; [done|simpl; tauto].
Qed.

Lemma step_fetches_other c st ev :
  ev ≠ Request c → fetches c (step st ev).1 = fetches c st.
Proof.
  intros Hne. destruct ev as [c'|s|s|s|data|d]; simpl; try done.
  - unfold requireEnsure. rewrite f_j_cases.
    destruct (installedChunks st !! c') as [[| |p]|]; simpl; try done.
    all: rewrite fetches_startLoading, decide_False by congruence; lia.
  - destruct (scripts st !! s) as [sc|]; [|done]. destruct (handlers sc); [|done].
    apply onScriptComplete_fetches.
  - destruct (scripts st !! s) as [sc|]; [|done]. destruct (handlers sc); [|done].
    apply onScriptComplete_fetches.
  - destruct (scripts st !! s) as [sc|]; [|done].
    destruct (timer sc && (deadline sc <=? now st)%N); [|done].
    apply onScriptComplete_fetches.
  - unfold fetches. by rewrite webpackJsonpCallback_scripts.
Qed.

(** Once installed, always installed; nothing is fetched for the chunk
    any more and its requesters are handed no promise. *)
Lemma step_installed c st ev :
  installedChunks st !! c = Some Installed →
  installedChunks (step st ev).1 !! c = Some Installed ∧
  fetches c (step st ev).1 = fetches c st ∧
  (ev = Request c → (step st ev).2 = []).
Proof.
  intros Hc.
  assert (∀ s event, installedChunks (onScriptComplete s event st) !! c = Some Installed) as Hosc.
  { intros s event. destruct (scripts st !! s) as [sc|] eqn:Hs.
    2:{ unfold onScriptComplete. by rewrite Hs. }
    rewrite (onScriptComplete_cases _ _ _ _ Hs). simpl.
    destruct (installedChunks st !! chunk sc) as [[| |p]|] eqn:Hsc; simpl; try done.
    all: rewrite lookup_delete_ne by congruence; done. }
  destruct ev as [c'|s|s|s|data|d].
  - destruct (decide (c' = c)) as [->|Hne].
    + simpl. unfold requireEnsure. rewrite f_j_cases, Hc. done.
    + split; [|split; [apply step_fetches_other; congruence|congruence]].
      simpl. unfold requireEnsure. rewrite f_j_cases.
      destruct (installedChunks st !! c') as [[| |p]|]; simpl; try done.
      all: rewrite lookup_insert_ne by congruence; done.
  - split; [|split; [by apply step_fetches_other|done]]. simpl.
    destruct (scripts st !! s) as [sc|]; [|done]. destruct (handlers sc); [|done]. apply Hosc.
  - split; [|split; [by apply step_fetches_other|done]]. simpl.
    destruct (scripts st !! s) as [sc|]; [|done]. destruct (handlers sc); [|done]. apply Hosc.
  - split; [|split; [by apply step_fetches_other|done]]. simpl.
    destruct (scripts st !! s) as [sc|]; [|done].
    destruct (timer sc && (deadline sc <=? now st)%N); [|done]. apply Hosc.
  - split; [|split; [by apply step_fetches_other|done]]. simpl.
    rewrite webpackJsonpCallback_chunks. by case_bool_decide.
  - split; [|split; [by apply step_fetches_other|done]]. done.
Qed.

Lemma exec_installed c evs st :
  installedChunks st !! c = Some Installed →
  installedChunks (run st evs) !! c = Some Installed ∧
  fetches c (run st evs) = fetches c st ∧
  answered c evs (exec st evs).2 [].
Proof.
  revert st. induction evs as [|ev evs IH]; intros st Hc.
  - repeat split; try done.
  - destruct (step_installed c st ev Hc) as (Hc1 & Hf1 & Ho1).
    unfold run in *; simpl. destruct (step st ev) as [st1 o] eqn:Est; simpl in *.
    destruct (IH st1 Hc1) as (Hc2 & Hf2 & Ha2).
    destruct (exec st1 evs) as [st2 outs]; simpl in *.
    repeat split; [done|congruence|].
    intros [|i]; simpl; [|by apply Ha2]. intros [= ->]. by rewrite Ho1.
Qed.

(** ** The answers of a run *)

Lemma hist_step st evs outs ev :
  wf st → length outs = length evs → hist st evs outs →
  hist (step st ev).1 (evs ++ [ev]) (outs ++ [(step st ev).2]).
Proof.
  intros Hwf Hlen Hh c. specialize (Hh c).
  pose proof (step_entry c st ev Hwf) as Hes.
  destruct Hes as [p|p| |e data o Hin|e ev o Hne Hpush]; try done.
  - intros i Hi. apply lookup_app_Some in Hi as [Hi|[Hge Hi]].
    + by destruct (Hh i).
    + apply list_lookup_singleton_Some in Hi as [Hi _].
      rewrite lookup_app_r by lia. rewrite Hlen. by replace (i - length evs) with 0 by lia.
  - intros i Hi. apply lookup_app_Some in Hi as [Hi|[Hge Hi]].
    + rewrite lookup_app_l; [by apply Hh|]. rewrite Hlen. by eapply lookup_lt_Some.
    + apply list_lookup_singleton_Some in Hi as [Hi _].
      rewrite lookup_app_r by lia. rewrite Hlen. by replace (i - length evs) with 0 by lia.
  - destruct e as [[| |p]|]; try done.
    + intros i Hi. apply lookup_app_Some in Hi as [Hi|[Hge Hi]].
      * rewrite lookup_app_l; [by apply Hh|]. rewrite Hlen. by eapply lookup_lt_Some.
      * by apply list_lookup_singleton_Some in Hi as [_ ?].
    + intros i Hi. apply lookup_app_Some in Hi as [Hi|[Hge Hi]].
      * by destruct (Hh i).
      * by apply list_lookup_singleton_Some in Hi as [_ ?].
Qed.

Lemma exec_snoc st evs ev :
  exec st (evs ++ [ev]) =
  ((step (exec st evs).1 ev).1, (exec st evs).2 ++ [(step (exec st evs).1 ev).2]).
Proof.
  rewrite exec_app. destruct (exec st evs) as [st1 o1]; simpl.
  by destruct (step st1 ev).
Qed.

Lemma exec_invariant evs :
  wf (exec init evs).1 ∧ hist (exec init evs).1 evs (exec init evs).2.
Proof.
  induction evs as [|ev evs [IHwf IHh]] using rev_ind.
  - split; [apply wf_init|]. intros c; simpl.
    destruct (decide (c = 404%N)) as [->|Hne].
    + by rewrite lookup_singleton_eq.
    + rewrite lookup_singleton_ne by done. by intros i.
  - rewrite exec_snoc; simpl. split; [by apply wf_step|].
    apply hist_step; try done. apply exec_length.
Qed.


(** The loading state is entered from the unrequested state only, and by
    a request. *)
Lemma loading_entered_from_unrequested c pre ev p :
  installedChunks (step (run init pre) ev).1 !! c = Some (Loading p) →
  installedChunks (run init pre) !! c = Some (Loading p) ∨
  (installedChunks (run init pre) !! c = None ∧ ev = Request c).
Proof.
  intros Hp. pose proof (proj1 (exec_invariant pre)) as Hwf. fold (run init pre) in Hwf.
  pose proof (step_entry c (run init pre) ev Hwf) as Hes. rewrite Hp in Hes.
  inversion Hes; subst; try by left.
  right. by split.
Qed.

Lemma filter_requests_lookup c evs :
  1 ≤ length (filter (λ ev, Is_true (requestsb c ev)) evs) → ∃ i, evs !! i = Some (Request c).
Proof.
  intros Hlen.
  destruct (filter (λ ev, Is_true (requestsb c ev)) evs) as [|ev l] eqn:E; [simpl in Hlen; lia|].
  assert (ev ∈ filter (λ ev, Is_true (requestsb c ev)) evs) as Hin by (rewrite E; left).
  apply list_elem_of_filter in Hin as [Hreq Hin].
  apply list_elem_of_lookup in Hin as [i Hi]. exists i. rewrite Hi.
  destruct ev; simpl in Hreq; try done. apply bool_decide_unpack in Hreq. by subst.
Qed.

(** C6. The timeout forces the failure. The timer armed by a request made
    at time [t] for an unrequested chunk is due at [t + 120000] and does
    nothing when it is run earlier; and in every reachable state in which
    a chunk is loading and the timer of its script is still armed (neither
    [onload] nor [onerror] has run: they would have cleared it), running
    the timer once it is due rejects the promise of the chunk, which was
    pending, with an error of type [timeout]. *)
Theorem timeout_rejects_with_kind_timeout (evs : list event) (s : nat) (sc : script) (p : nat) :
  scripts (run init evs) !! s = Some sc → timer sc = true →
  installedChunks (run init evs) !! chunk sc = Some (Loading p) →
  (deadline sc ≤ now (run init evs))%N →
  let err := Error ("Loading chunk " +:+ pretty (chunk sc) +:+ " failed." +:+ nl
                    +:+ "(timeout: " +:+ src sc +:+ ")") "timeout" (src sc) in
  let st' := (step (run init evs) (TimerFire s)).1 in
  promises (run init evs) !! p = Some Pending ∧
  promises st' !! p = Some (Rejected err) ∧
  trace st' = trace (run init evs) ++ [Reject p err] ∧
  (∀ st c, installedChunks st !! c = None →
     ∃ sc', scripts (step st (Request c)).1 !! length (scripts st) = Some sc' ∧
            chunk sc' = c ∧ armed sc' = true ∧ timer sc' = true ∧
            deadline sc' = (now st + 120000)%N) ∧
  (∀ st s' sc', scripts st !! s' = Some sc' → (now st < deadline sc')%N →
     step st (TimerFire s') = (st, [])).
Proof.
  intros Hs Ht Hc Hd err st'.
  pose proof (proj1 (exec_invariant evs)) as Hwf. fold (run init evs) in Hwf.
  assert (promises (run init evs) !! p = Some Pending) as Hp.
  { apply (wf_pending _ Hwf s sc p); try done. unfold armed. rewrite Ht. by destruct (handlers sc). }
  split; [done|].
  assert (st' = reject p err (set_scripts (<[s := disarm sc]>) (run init evs))) as ->.
  { subst st'. simpl. rewrite Hs, Ht. simpl.
    rewrite (proj2 (N.leb_le _ _) Hd). simpl.
    rewrite (onScriptComplete_cases _ _ _ _ Hs). simpl. by rewrite Hc. }
  simpl. split; [by apply settle_lookup_pending|]. split; [done|]. split.
  - intros st c Hnone. simpl. unfold requireEnsure. rewrite f_j_cases, Hnone. simpl.
    eexists. split; [by apply list_lookup_middle|]. done.
  - intros st s' sc' Hs' Hlt. simpl. rewrite Hs'.
    rewrite (proj2 (N.leb_gt _ _) Hlt). by rewrite andb_false_r.
Qed.

Lemma timeout_rejects_with_kind_timeout_witness :
  let evs := [Request 396; Elapse 120000] in
  let sc := Script "dist/396.output.js" "utf-8" 120 None 396 true true 120000 in
  scripts (run init evs) !! 0 = Some sc ∧ timer sc = true ∧
  installedChunks (run init evs) !! chunk sc = Some (Loading 0) ∧
  (deadline sc ≤ now (run init evs))%N ∧
  promises (run init evs) !! 0 = Some Pending.
Proof.
  assert (scripts (run init [Request 396; Elapse 120000]) !! 0 =
          Some (Script "dist/396.output.js" "utf-8" 120 None 396 true true 120000)) as H1
    by (vm_compute; reflexivity).
  assert (installedChunks (run init [Request 396; Elapse 120000])
            !! chunk (Script "dist/396.output.js" "utf-8" 120 None 396 true true 120000)
          = Some (Loading 0)) as H2 by (vm_compute; reflexivity).
  assert (deadline (Script "dist/396.output.js" "utf-8" 120 None 396 true true 120000)
          ≤ now (run init [Request 396; Elapse 120000]))%N as H3 by (vm_compute; discriminate).
  split; [exact H1|]. split; [reflexivity|]. split; [exact H2|]. split; [exact H3|].
  exact (proj1 (timeout_rejects_with_kind_timeout [Request 396; Elapse 120000] 0
                  (Script "dist/396.output.js" "utf-8" 120 None 396 true true 120000) 0
                  H1 eq_refl H2 H3)).
Defined.

(** C1 (the code departs from the claim). After a failed load the entry
    of the chunk is not reset: [loadingEnded] returns the [reject]
    function before it reaches the assignment of [undefined]. Chunk 396 is
    requested and its script reports an error, or its timer runs after
    120000 ms: the promise is rejected, the entry still holds it, and the
    next request is handed the rejected promise and appends no script. *)
Theorem failed_load_keeps_the_entry :
  let failed := run init [Request 396; ScriptError 0] in
  let timedOut := run init [Request 396; Elapse 120000; TimerFire 0] in
  installedChunks failed !! 396%N = Some (Loading 0) ∧
  (∃ e, promises failed !! 0 = Some (Rejected e) ∧ type e = "error") ∧
  step failed (Request 396) = (failed, [0]) ∧
  fetches 396 (run failed [Request 396]) = 1 ∧
  installedChunks timedOut !! 396%N = Some (Loading 0) ∧
  (∃ e, promises timedOut !! 0 = Some (Rejected e) ∧ type e = "timeout") ∧
  step timedOut (Request 396) = (timedOut, [0]) ∧
  fetches 396 (run timedOut [Request 396]) = 1.
Proof.
  cbv zeta.
  refine (conj _ (conj _ (conj _ (conj _ (conj _ (conj _ (conj _ _))))))).
  - vm_compute; reflexivity.
  - eexists. refine (conj _ _); vm_compute; reflexivity.
  - vm_compute; reflexivity.
  - vm_compute; reflexivity.
  - vm_compute; reflexivity.
  - eexists. refine (conj _ _); vm_compute; reflexivity.
  - vm_compute; reflexivity.
  - vm_compute; reflexivity.
Qed.


Lemma addModules_own m ms k :
  (filter (λ kv : N * factory, is_Some (own m !! kv.1)) (own m ∪ inherited m) ∪ ms) !! k =
  match own m !! k with
  | Some f => Some f
  | None => ms !! k
  end.
Proof.
  rewrite lookup_union. destruct (own m !! k) as [f|] eqn:Hk.
  - rewrite (map_lookup_filter_Some_2 _ _ k f); [by destruct (ms !! k)| |simpl; by rewrite Hk].
    by apply lookup_union_Some_l.
  - rewrite (proj2 (map_lookup_filter_None _ _ k)); [by destruct (ms !! k)|].
    right. intros x _. simpl. rewrite Hk. by intros [? ?].
Qed.

Lemma webpackJsonpCallback_shape st data ids m :
  nth 0 data VUndefined = VIds ids → nth 1 data VUndefined = VModules m →
  (truthy (nth 3 data VUndefined) = true → ∃ f, nth 3 data VUndefined = VFunc f) →
  webpackJsonpCallback data st =
  (drain (flagChunks ids [] st).2
     (emit (ParentPush data)
        (set_jsonpArray (λ a, a ++ [data])
           (match nth 3 data VUndefined with
            | VFunc f => emit (CallRuntime f) (addModules (VModules m) (flagChunks ids [] st).1)
            | _ => addModules (VModules m) (flagChunks ids [] st).1
            end))), Returned).
Proof.
  intros H0 H1 H3. unfold webpackJsonpCallback. rewrite H0, H1.
  destruct (flagChunks ids [] st) as [st0 rs0].
  destruct (truthy (nth 3 data VUndefined)) eqn:Ht.
  - destruct (H3 eq_refl) as [f ->]. done.
  - by destruct (nth 3 data VUndefined).
Qed.

(** C5, as the code has it. The array [data] handed to
    [webpackJsonpCallback] is read at the indices 0, 1 and 3, whatever
    its length: with the chunk ids in slot 0, the module map in slot 1
    and a function or nothing (a falsy value) in slot 3, the callback
    returns normally, copies every own entry of the module map into
    [__webpack_require__.m] and leaves the other module ids alone, marks
    every listed chunk as loaded and no other, and then, in this order,
    calls the runtime function when slot 3 holds one, hands [data] to the
    previous [push], and calls the [resolve] functions of the listed
    chunks that were loading. These are queued in [resolves] by the first
    loop and called first in, first out; all the promises among them that
    were pending are fulfilled. *)
Theorem jsonp_callback_registers_chunks
    (st : state) (data : list jsval) (ids : list N) (m : moduleMap) :
  nth 0 data VUndefined = VIds ids → nth 1 data VUndefined = VModules m →
  (truthy (nth 3 data VUndefined) = true → ∃ f, nth 3 data VUndefined = VFunc f) →
  let st' := (webpackJsonpCallback data st).1 in
  let rs := omap (loadingPromise (installedChunks st)) (firsts [] ids) in
  let called := match nth 3 data VUndefined with VFunc f => [CallRuntime f] | _ => [] end in
  (webpackJsonpCallback data st).2 = Returned ∧
  (∀ k f, own m !! k = Some f → modules st' !! k = Some f) ∧
  (∀ k, own m !! k = None → modules st' !! k = modules st !! k) ∧
  (∀ c, c ∈ ids → installedChunks st' !! c = Some Installed) ∧
  (∀ c, c ∉ ids → installedChunks st' !! c = installedChunks st !! c) ∧
  (flagChunks ids [] st).2 = rs ∧
  trace st' = trace st ++ called ++ [ParentPush data] ++ (Resolve <$> rs) ∧
  jsonpArray st' = jsonpArray st ++ [data] ∧
  (∀ p, p ∈ rs → promises st !! p = Some Pending → promises st' !! p = Some Fulfilled) ∧
  (∀ i p q, rs !! i = Some p → rs !! S i = Some q →
     ∃ pre post, trace st' = pre ++ [Resolve p; Resolve q] ++ post).
Proof.
  intros H0 H1 H3 st' rs called.
  assert (∀ c, installedChunks st' !! c =
               if bool_decide (c ∈ ids) then Some Installed else installedChunks st !! c) as Hch.
  { intros c. subst st'. rewrite webpackJsonpCallback_chunks. unfold dataIds. by rewrite H0. }
  assert ((flagChunks ids [] st).2 = rs) as Hrs.
  { rewrite (flagChunks_resolves ids [] st [] (installedChunks st)); [done|].
    intros c. by rewrite bool_decide_eq_false_2 by apply not_elem_of_nil. }
  pose proof (flagChunks_frame ids [] st) as (Hm & Hp & _ & Hj & _ & _ & Ht).
  assert (trace st' = trace st ++ called ++ [ParentPush data] ++ (Resolve <$> rs)) as Htrace.
  { subst st' called. rewrite (webpackJsonpCallback_shape st data ids m H0 H1 H3).
    rewrite Hrs. simpl fst.
    match goal with |- context [drain rs ?s] =>
      destruct (drain_frame rs s) as (_ & _ & _ & _ & _ & -> & _) end.
    destruct (nth 3 data VUndefined); simpl; rewrite Ht; by rewrite <- ?app_assoc. }
  split; [|split; [|split; [|split; [|split; [|split; [|split; [|split; [|split]]]]]]]];
    try done.
  - subst st'. by rewrite (webpackJsonpCallback_shape st data ids m H0 H1 H3).
  - intros k g Hk. subst st'. rewrite (webpackJsonpCallback_shape st data ids m H0 H1 H3).
    simpl fst.
    match goal with |- context [drain ?r ?s] =>
      destruct (drain_frame r s) as (_ & -> & _) end.
    destruct (nth 3 data VUndefined); simpl; by rewrite addModules_own, Hk.
  - intros k Hk. subst st'. rewrite (webpackJsonpCallback_shape st data ids m H0 H1 H3).
    simpl fst.
    match goal with |- context [drain ?r ?s] =>
      destruct (drain_frame r s) as (_ & -> & _) end.
    destruct (nth 3 data VUndefined); simpl; by rewrite addModules_own, Hk, Hm.
  - intros c Hin. by rewrite Hch, bool_decide_eq_true_2.
  - intros c Hin. by rewrite Hch, bool_decide_eq_false_2.
  - subst st'. rewrite (webpackJsonpCallback_shape st data ids m H0 H1 H3).
    simpl fst.
    match goal with |- context [drain ?r ?s] =>
      destruct (drain_frame r s) as (_ & _ & _ & -> & _) end.
    destruct (nth 3 data VUndefined); simpl; by rewrite Hj.
  - intros p Hin Hpend. subst st'.
    rewrite (webpackJsonpCallback_shape st data ids m H0 H1 H3). rewrite Hrs. simpl fst.
    match goal with |- context [drain rs ?s] =>
      destruct (drain_frame rs s) as (_ & _ & _ & _ & _ & _ & ->) end.
    apply settle_all_fulfils; [done|].
    destruct (nth 3 data VUndefined); simpl; by rewrite Hp.
  - intros i p q Hi Hq. rewrite Htrace.
    exists (trace st ++ called ++ [ParentPush data] ++ (Resolve <$> take i rs)),
           (Resolve <$> drop (S (S i)) rs).
    rewrite <- !app_assoc. do 3 f_equal.
    rewrite <- (take_drop i rs) at 1. rewrite fmap_app. f_equal.
    rewrite (drop_S _ _ _ Hi), (drop_S _ _ _ Hq). done.
Qed.

Lemma jsonp_callback_registers_chunks_witness :
  let st := (step init (Request 396)).1 in
  let data := [VIds [396%N]; VModules (ModuleMap {[ 2%N := 7 ]} ∅)] in
  396%N ∈ [396%N] ∧ own (ModuleMap {[ 2%N := 7 ]} ∅) !! 2%N = Some 7 ∧
  installedChunks (webpackJsonpCallback data st).1 !! 396%N = Some Installed ∧
  modules (webpackJsonpCallback data st).1 !! 2%N = Some 7 ∧
  promises (webpackJsonpCallback data st).1 !! 0 = Some Fulfilled.
Proof.
  assert (396%N ∈ [396%N]) as H1 by (apply list_elem_of_In; simpl; tauto).
  assert (own (ModuleMap {[ 2%N := 7 ]} ∅) !! 2%N = Some 7) as H2 by (vm_compute; reflexivity).
  split; [exact H1|]. split; [exact H2|].
  destruct (jsonp_callback_registers_chunks (step init (Request 396)).1
              [VIds [396%N]; VModules (ModuleMap {[ 2%N := 7 ]} ∅)] [396%N]
              (ModuleMap {[ 2%N := 7 ]} ∅) eq_refl eq_refl)
    as (_ & Hm & _ & Hc & _ & _ & _ & _ & Hf & _).
  { discriminate. }
  split; [exact (Hc 396%N H1)|]. split; [exact (Hm 2%N 7 H2)|].
  apply (Hf 0); [apply list_elem_of_here|vm_compute; reflexivity].
Defined.

(** C5, as stated, fails: handed the three-element array
    [[chunkIds, moduleMap, runtime]], the callback marks the chunk, adds
    the module and resolves the requester, but never calls [runtime],
    which it looks for at index 3. *)
Lemma jsonp_callback_ignores_third_slot :
  let st := (step init (Request 396)).1 in
  let data := [VIds [396%N]; VModules (ModuleMap {[ 2%N := 7 ]} ∅); VFunc 5] in
  let st' := (webpackJsonpCallback data st).1 in
  installedChunks st' !! 396%N = Some Installed ∧
  modules st' !! 2%N = Some 7 ∧
  promises st' !! 0 = Some Fulfilled ∧
  trace st' = [AppendScript 0; ParentPush data; Resolve 0] ∧
  ¬ (CallRuntime 5 ∈ trace st').
Proof.
  cbv zeta.
  refine (conj _ (conj _ (conj _ (conj _ _)))); try (vm_compute; reflexivity).
  intros H. vm_compute in H.
  repeat (apply elem_of_cons in H as [H|H]; [discriminate H|]).
  by apply elem_of_nil in H.
Qed.

End JsonpFacts.

(* ===================================================================== *)
(** * Facts about the bundle-loader wrapper *)
(* ===================================================================== *)

Module BundleLoaderFacts.
Import BundleLoader.

Lemma each_resolved (f : callback → state → state * bool)
    (g : callback → list (nat * value) * bool) (l : list callback) d :
  Forall (λ cb, ∀ cs, f cb (State None d cs) = (State None d (cs ++ (g cb).1), (g cb).2)) l →
  ∀ cs, each f l (State None d cs)
        = (State None d (cs ++ (firedEach g l).1), (firedEach g l).2).
Proof.
  intros Hl. induction Hl as [|cb l Hcb _ IH]; intros cs; simpl.
  - by rewrite app_nil_r.
  - rewrite Hcb. destruct (g cb) as [c [|]]; simpl; [done|].
    rewrite IH. by rewrite <- app_assoc.
Qed.

(** Once [cbs] is [null], calling a callback logs its calls and leaves
    the variables alone. *)
Lemma call_resolved cb d cs :
  call cb (State None d cs) = (State None d (cs ++ (fired d cb).1), (fired d cb).2).
Proof.
  revert cs. induction cb as [n nested throws IH] using callback_nested_ind; intros cs.
  simpl. rewrite (each_resolved (exported call) (fired d) nested d) by done.
  destruct (firedEach (fired d) nested) as [c [|]]; simpl; by rewrite <- app_assoc.
Qed.

Lemma drain_resolved (l : list callback) d cs :
  each call l (State None d cs)
  = (State None d (cs ++ (firedEach (fired d) l).1), (firedEach (fired d) l).2).
Proof.
  apply each_resolved, Forall_forall. intros cb _ cs'. apply call_resolved.
Qed.

Lemma run_buffer (l acc : list callback) d cs :
  run (State (Some acc) d cs) (Register <$> l) = Some (State (Some (acc ++ l)) d cs).
Proof.
  revert acc. induction l as [|cb l IH]; intros acc; simpl.
  - by rewrite app_nil_r.
  - rewrite IH. by rewrite <- app_assoc.
Qed.

Lemma run_after (l : list callback) d cs :
  run (State None d cs) (Register <$> l)
  = Some (State None d (cs ++ flat_map (λ cb, (fired d cb).1) l)).
Proof.
  revert cs. induction l as [|cb l IH]; intros cs; simpl.
  - by rewrite app_nil_r.
  - unfold register, exported; simpl. rewrite call_resolved. simpl.
    rewrite IH. by rewrite <- app_assoc.
Qed.

Lemma bundle_run_app st a b :
  run st (a ++ b) = match run st a with Some st' => run st' b | None => None end.
Proof.
  revert st. induction a as [|ev a IH]; intros st; simpl; [done|].
  destruct (step st ev); [apply IH|done].
Qed.

Lemma firedEach_returns v (l : list callback) :
  Forall (returns v) l →
  firedEach (fired v) l = (flat_map (λ cb, (fired v cb).1) l, false).
Proof.
  induction 1 as [|cb l Hcb _ IH]; simpl; [done|].
  unfold returns in Hcb. destruct (fired v cb) as [c t]; simpl in *. subst t.
  by rewrite IH.
Qed.

Lemma firedEach_throws v (ok rest : list callback) cb :
  Forall (returns v) ok → (fired v cb).2 = true →
  firedEach (fired v) (ok ++ cb :: rest)
  = (flat_map (λ c, (fired v c).1) ok ++ (fired v cb).1, true).
Proof.
  intros Hok Hcb. induction Hok as [|c0 ok Hc0 _ IH]; simpl.
  - destruct (fired v cb) as [c t]; simpl in *. by subst t.
  - unfold returns in Hc0. destruct (fired v c0) as [c t]; simpl in *. subst t.
    rewrite IH. simpl. by rewrite <- app_assoc.
Qed.

(** C7, as stated, fails: two callbacks are registered before the chunk
    is loaded, and the first one throws when it is called. The loop over
    the buffered callbacks ends there; [cbs] is [null] by then, so the
    second callback is neither called nor kept. *)
Lemma bundle_loader_throw_drops_the_rest :
  let v := Str "It works" in
  let before := [Callback 1 [] true; Callback 2 [] false] in
  run init (Register <$> before) = Some (State (Some before) Undefined []) ∧
  run init ((Register <$> before) ++ [ChunkLoaded v]) = Some (State None v [(1, v)]) ∧
  onChunkLoaded v (State (Some before) Undefined []) = Some (State None v [(1, v)], true) ∧
  (2, v) ∉ [(1, v)].
Proof.
  cbv zeta. split; [reflexivity|]. split; [reflexivity|]. split; [reflexivity|].
  intros H. apply list_elem_of_singleton in H. discriminate H.
Qed.

(** C7, as the code has it. Callbacks given to the wrapper before the
    chunk is loaded are kept in [cbs] in the order of registration and
    none is called; when the chunk is loaded they are called in that
    order with the exports of the inner module, up to the first one that
    throws: when all of them return, all of them are called, and when
    one throws, those registered before it and this one have been called
    and the loop ends. A callback registered afterwards is called at
    once with the stored exports, also after a throw. (The calls a
    callback itself makes to the wrapper while it runs follow its own
    call.) *)
Theorem bundle_loader_callbacks_in_order (before after : list callback) (v : value) :
  run init (Register <$> before) = Some (State (Some before) Undefined []) ∧
  run init ((Register <$> before) ++ [ChunkLoaded v] ++ (Register <$> after))
    = Some (State None v ((firedEach (fired v) before).1
                          ++ flat_map (λ cb, (fired v cb).1) after)) ∧
  (Forall (returns v) before →
     (firedEach (fired v) before).1 = flat_map (λ cb, (fired v cb).1) before) ∧
  (∀ ok cb rest, before = ok ++ cb :: rest → Forall (returns v) ok → ¬ returns v cb →
     (firedEach (fired v) before).1 = flat_map (λ c, (fired v c).1) ok ++ (fired v cb).1) ∧
  (∀ cb d cs, register cb (State None d cs)
              = (State None d (cs ++ (fired d cb).1), (fired d cb).2)) ∧
  (∀ cb, ∃ rest, (fired v cb).1 = (name cb, v) :: rest).
Proof.
  assert (run init (Register <$> before) = Some (State (Some before) Undefined [])) as Hb
    by apply (run_buffer before []).
  split; [done|]. split; [|split; [|split; [|split]]].
  - rewrite bundle_run_app, Hb. simpl. unfold onChunkLoaded; simpl.
    rewrite drain_resolved. simpl. apply run_after.
  - intros Hall. by rewrite firedEach_returns.
  - intros ok cb rest -> Hok Hcb. rewrite (firedEach_throws v ok rest cb); [done..|].
    unfold returns in Hcb. by destruct ((fired v cb).2).
  - intros cb d cs. unfold register, exported; simpl. apply call_resolved.
  - intros [n nested throws]. simpl.
    destruct (firedEach (fired v) nested) as [c [|]]; by eexists.
Qed.

Example bundle_loader_example :
  run init [Register (Callback 1 [] false);
            Register (Callback 2 [Callback 3 [] false] false);
            ChunkLoaded (Str "It works"); Register (Callback 4 [] false)]
  = Some (State None (Str "It works")
            [(1, Str "It works"); (2, Str "It works"); (3, Str "It works"); (4, Str "It works")]).
Proof. reflexivity. Qed.

Example bundle_loader_throwing_example :
  run init [Register (Callback 1 [] false);
            Register (Callback 2 [Callback 3 [] true; Callback 4 [] false] false);
            Register (Callback 5 [] false);
            ChunkLoaded (Str "It works"); Register (Callback 6 [] true);
            Register (Callback 7 [] false)]
  = Some (State None (Str "It works")
            [(1, Str "It works"); (2, Str "It works"); (3, Str "It works");
             (6, Str "It works"); (7, Str "It works")]).
Proof. reflexivity. Qed.

End BundleLoaderFacts.

(* ===================================================================== *)
(** * Facts about LibManifestPlugin *)
(* ===================================================================== *)

Module LibManifestFacts.
Import LibManifest.

Lemma getProp_setProp_eq k v props : getProp k (setProp k v props) = Some v.
Proof.
  induction props as [|[k' v'] props IH]; simpl.
  - by rewrite String.eqb_refl.
  - destruct (String.eqb k k') eqn:E; simpl; [by rewrite String.eqb_refl|by rewrite E].
Qed.

Lemma getProp_setProp_ne k k' v props :
  k ≠ k' → getProp k' (setProp k v props) = getProp k' props.
Proof.
  intros Hne. induction props as [|[k0 v0] props IH]; simpl.
  - by rewrite (proj2 (String.eqb_neq k' k)).
  - destruct (String.eqb k k0) eqn:E; simpl.
    + apply String.eqb_eq in E as <-. by rewrite (proj2 (String.eqb_neq k' k)).
    + by rewrite IH.
Qed.

Lemma elem_of_setProp k v props kd :
  kd ∈ setProp k v props → kd = (k, v) ∨ kd ∈ props.
Proof.
  induction props as [|[k' v'] props IH]; simpl.
  - intros ->%list_elem_of_singleton. by left.
  - destruct (String.eqb k k').
    + intros [->|?]%elem_of_cons; [by left|right; by right].
    + intros [->|H]%elem_of_cons; [right; by left|].
      destruct (IH H) as [?|?]; [by left|right; by right].
Qed.

Lemma elem_of_written items acc kd :
  kd ∈ foldl (λ obj item, setProp item.1 item.2 obj) acc items → kd ∈ items ∨ kd ∈ acc.
Proof.
  revert acc. induction items as [|[k v] items IH]; intros acc; simpl; [by right|].
  intros [?|H]%IH; [left; by right|].
  apply elem_of_setProp in H as [->|?]; [left; by left|by right].
Qed.

Lemma getProp_written_other items acc k :
  (∀ kd, kd ∈ items → kd.1 ≠ k) →
  getProp k (foldl (λ obj item, setProp item.1 item.2 obj) acc items) = getProp k acc.
Proof.
  revert acc. induction items as [|[k0 v0] items IH]; intros acc Hne; simpl; [done|].
  rewrite IH by (intros kd ?; apply Hne; by right).
  apply getProp_setProp_ne. apply (Hne (k0, v0)). by left.
Qed.

(** The last write under a key is the one that is read. *)
Lemma getProp_written_last l1 k d l2 acc :
  (∀ kd, kd ∈ l2 → kd.1 ≠ k) →
  getProp k (foldl (λ obj item, setProp item.1 item.2 obj) acc (l1 ++ (k, d) :: l2)) = Some d.
Proof.
  intros Hne. rewrite foldl_app. simpl.
  rewrite getProp_written_other by done. apply getProp_setProp_eq.
Qed.

Lemma manifestItem_Some opts ctx m k d :
  manifestItem opts ctx m = Some (k, d) → libIdent m ctx = Some k ∧ d = moduleData m.
Proof.
  unfold manifestItem.
  destruct (entryOnly opts && negb (existsb (λ b, b) (incoming m))); [done|].
  destruct (libIdent m ctx) as [ident|]; [|done].
  destruct (nonEmpty ident); [|done]. by intros [= -> <-].
Qed.

Lemma jsonOf_names names : jsonOf (JArr (JStr <$> names)) = JArr (JStr <$> names).
Proof.
  cbn [jsonOf]. f_equal. induction names as [|n names IH]; [done|].
  cbn. f_equal. exact IH.
Qed.

(** C3, as the code has it. Every entry of [content] belongs to a module
    of the chunk that passed the [entryOnly] test and has an identity,
    is keyed by that identity and is the object
    [{id, buildMeta, exports}], where [exports] is the list of provided
    names when it is a list and [undefined] otherwise; every such module
    has the entry under its identity (its own data when no later module
    of the chunk has the same identity); and in what [JSON.stringify]
    writes, the [exports] property is present exactly when the provided
    exports are a list. *)
Theorem manifest_entries (opts : options) (ctx : string) (c : chunk) :
  (∀ k d, (k, d) ∈ manifestContent opts ctx c →
     ∃ m, m ∈ chunkModules c ∧ manifestItem opts ctx m = Some (k, d) ∧
          libIdent m ctx = Some k ∧
          d = JObj [("id", idValue (id m)); ("buildMeta", JObj (buildMeta m));
                    ("exports", match provided m with
                                | PEList names => JArr (JStr <$> names)
                                | _ => JUndefined
                                end)]) ∧
  (∀ l1 m l2 k,
     chunkModules c = l1 ++ m :: l2 →
     manifestItem opts ctx m = Some (k, moduleData m) →
     (∀ m' d', m' ∈ l2 → manifestItem opts ctx m' ≠ Some (k, d')) →
     getProp k (manifestContent opts ctx c) = Some (moduleData m)) ∧
  (∀ m, jsonOf (moduleData m) =
        JObj ([("id", idValue (id m)); ("buildMeta", jsonOf (JObj (buildMeta m)))]
              ++ match provided m with
                 | PEList names => [("exports", JArr (JStr <$> names))]
                 | _ => []
                 end)).
Proof.
  split; [|split].
  - intros k d Hin. unfold manifestContent in Hin.
    apply elem_of_written in Hin as [Hin|Hin]; [|by apply elem_of_nil in Hin].
    apply list_elem_of_omap in Hin as (m & Hm & Hitem).
    exists m. destruct (manifestItem_Some _ _ _ _ _ Hitem) as [Hid ->]. done.
  - intros l1 m l2 k Hc Hm Hlater. unfold manifestContent. rewrite Hc.
    rewrite omap_app. simpl. rewrite Hm.
    apply getProp_written_last. intros [k' d'] Hin; simpl. intros ->.
    apply list_elem_of_omap in Hin as (m' & Hm' & Hitem). by destruct (Hlater m' d' Hm').
  - intros m. unfold moduleData.
    assert (jsonOf (idValue (id m)) = idValue (id m)) as Hid by (by destruct (id m)).
    destruct (provided m) as [| |names].
    + cbn [jsonOf flat_map app]. destruct (id m); done.
    + cbn [jsonOf flat_map app]. destruct (id m); done.
    + pose proof (jsonOf_names names) as Hn.
      cbn [jsonOf flat_map app] in *. rewrite Hn. destruct (id m); done.
Qed.

Lemma manifest_entries_witness :
  let c := Chunk "main" true [dynamicModule] in
  manifestItem exampleOptions "/app" dynamicModule = Some ("./file.js", moduleData dynamicModule) ∧
  getProp "./file.js" (manifestContent exampleOptions "/app" c) = Some (moduleData dynamicModule).
Proof.
  split; [reflexivity|].
  apply (proj1 (proj2 (manifest_entries exampleOptions "/app" (Chunk "main" true [dynamicModule])))
           [] dynamicModule [] "./file.js" eq_refl eq_refl).
  intros m' d' Hin. by apply elem_of_nil in Hin.
Defined.

(** C3, as stated, fails: for a module whose provided exports are not a
    list the written entry has the properties [id] and [buildMeta] only;
    there is no [exports] property and so no marker. *)
Lemma manifest_entry_without_exports :
  let written := jsonOf (manifest (λ t _, t) "/app" exampleOptions (Chunk "main" true [dynamicModule])) in
  written = JObj [("type", JStr "var");
                  ("content", JObj [("./file.js", JObj [("id", JNum 2); ("buildMeta", JObj [])])])] ∧
  ¬ hasExportsKey (jsonOf (moduleData dynamicModule)).
Proof.
  split; [reflexivity|]. simpl. by intros [? ?].
Qed.

(** C10. A chunk that is not only initial gets no manifest: nothing is
    done on the output file system for it, whatever the options are
    ([entryOnly] included); every operation of an [emit] comes from a
    chunk that is only initial. *)
Theorem manifest_only_for_initial_chunks
    (getPath : string → chunk → string) (dirname : string → string)
    (mkdirp writeFile : string → option string) (compilerContext : string)
    (opts : options) (c : chunk) :
  isOnlyInitial c = false →
  emitChunk getPath dirname mkdirp writeFile compilerContext opts c = ([], None) ∧
  (∀ chunks op,
     op ∈ (emit getPath dirname mkdirp writeFile compilerContext opts chunks).1 →
     ∃ c', c' ∈ chunks ∧ isOnlyInitial c' = true ∧
           op ∈ (emitChunk getPath dirname mkdirp writeFile compilerContext opts c').1).
Proof.
  intros Hc. split.
  - unfold emitChunk. by rewrite Hc.
  - intros chunks op Hin. simpl in Hin.
    apply list_elem_of_In, in_flat_map in Hin as (c' & Hc' & Hop).
    exists c'. split; [by apply list_elem_of_In|].
    apply list_elem_of_In in Hop. split; [|done].
    unfold emitChunk in Hop. destruct (isOnlyInitial c'); [done|].
    simpl in Hop. by apply elem_of_nil in Hop.
Qed.

Lemma manifest_only_for_initial_chunks_witness :
  let c := Chunk "async" false [dynamicModule] in
  isOnlyInitial c = false ∧
  emitChunk (λ t _, t) (λ p, p) (λ _, None) (λ _, None) "/app" exampleOptions c = ([], None).
Proof.
  split; [reflexivity|].
  exact (proj1 (manifest_only_for_initial_chunks (λ t _, t) (λ p, p) (λ _, None) (λ _, None) "/app"
                  exampleOptions (Chunk "async" false [dynamicModule]) eq_refl)).
Defined.

End LibManifestFacts.

(* ===================================================================== *)
(** * Facts about the choice of the id plugins *)
(* ===================================================================== *)

Module OptionsApplyFacts.
Import OptionsApply.

Ltac in_list := apply list_elem_of_In; simpl; tauto.

Ltac case_known s Hne :=
  repeat match goal with
         | |- context [String.eqb s ?k] =>
             destruct (String.eqb_spec s k); [exfalso; apply (Hne k); [in_list|done]|]
         end.

(** C9, as the code has it. For each value the [moduleIds] switch has a
    case for, exactly one plugin that assigns module ids is added to the
    compiler, and likewise for [chunkIds] ([hashed] is known to the first
    switch only, [total-size] to the second only); every other value
    that is truthy makes the switch throw; a falsy value ([undefined],
    [false], the empty string, ...) is skipped by the guard around the
    switch: nothing is added and nothing is thrown. Which plugin a value
    selects: [natural], [named] and [deterministic] the plugin of that
    name; [hashed] the hashed plugin, after a warning that the value is
    deprecated in favour of [deterministic]; [size] the occurrence plugin
    with [prioritiseInitial] set, and [total-size] (chunks only) the
    occurrence plugin without it. *)
Theorem id_plugins_by_option (c : compiler) :
  (∀ s, s ∈ knownModuleIds →
     ∃ added, applyModuleIds (OStr s) c = Applied (c ++ added) ∧
              count assignsModuleIds added = 1 ∧ count assignsChunkIds added = 0) ∧
  (∀ s, s ∈ knownChunkIds →
     ∃ added, applyChunkIds (OStr s) c = Applied (c ++ added) ∧
              count assignsChunkIds added = 1 ∧ count assignsModuleIds added = 0) ∧
  (∀ v, truthy v = true → (∀ s, s ∈ knownModuleIds → v ≠ OStr s) →
     applyModuleIds v c = Thrown ("webpack bug: moduleIds: " +:+ toString v +:+ " is not implemented")) ∧
  (∀ v, truthy v = true → (∀ s, s ∈ knownChunkIds → v ≠ OStr s) →
     applyChunkIds v c = Thrown ("webpack bug: chunkIds: " +:+ toString v +:+ " is not implemented")) ∧
  (∀ v, truthy v = false → applyModuleIds v c = Applied c ∧ applyChunkIds v c = Applied c) ∧
  (applyModuleIds (OStr "natural") c = Applied (c ++ [NaturalModuleIdsPlugin]) ∧
   applyModuleIds (OStr "named") c = Applied (c ++ [NamedModuleIdsPlugin]) ∧
   applyModuleIds (OStr "hashed") c =
     Applied (c ++ [WarnDeprecatedOptionPlugin "optimization.moduleIds" "hashed" "deterministic";
                    HashedModuleIdsPlugin]) ∧
   applyModuleIds (OStr "deterministic") c = Applied (c ++ [DeterministicModuleIdsPlugin]) ∧
   applyModuleIds (OStr "size") c = Applied (c ++ [OccurrenceModuleIdsPlugin true])) ∧
  (applyChunkIds (OStr "natural") c = Applied (c ++ [NaturalChunkIdsPlugin]) ∧
   applyChunkIds (OStr "named") c = Applied (c ++ [NamedChunkIdsPlugin]) ∧
   applyChunkIds (OStr "deterministic") c = Applied (c ++ [DeterministicChunkIdsPlugin]) ∧
   applyChunkIds (OStr "size") c = Applied (c ++ [OccurrenceChunkIdsPlugin true]) ∧
   applyChunkIds (OStr "total-size") c = Applied (c ++ [OccurrenceChunkIdsPlugin false])) ∧
  (∀ (o v s : string) added,
     applyModuleIds (OStr "hashed") c = Applied (c ++ added) →
     WarnDeprecatedOptionPlugin o v s ∈ added →
     o = "optimization.moduleIds" ∧ v = "hashed" ∧ s = "deterministic").
Proof.
  split; [|split; [|split; [|split; [|split; [|split; [|split]]]]]].
  - intros s Hs. unfold knownModuleIds in Hs.
    repeat (apply elem_of_cons in Hs as [->|Hs]; [eexists; split; [reflexivity|done]|]).
    by apply elem_of_nil in Hs.
  - intros s Hs. unfold knownChunkIds in Hs.
    repeat (apply elem_of_cons in Hs as [->|Hs]; [eexists; split; [reflexivity|done]|]).
    by apply elem_of_nil in Hs.
  - intros v Hv Hother. unfold applyModuleIds. rewrite Hv.
    destruct v as [| | | |s]; try done.
    assert (∀ k, k ∈ knownModuleIds → s ≠ k) as Hne by (intros k Hk ->; by eapply Hother).
    by case_known s Hne.
  - intros v Hv Hother. unfold applyChunkIds. rewrite Hv.
    destruct v as [| | | |s]; try done.
    assert (∀ k, k ∈ knownChunkIds → s ≠ k) as Hne by (intros k Hk ->; by eapply Hother).
    by case_known s Hne.
  - intros v Hv. unfold applyModuleIds, applyChunkIds. by rewrite Hv.
  - by repeat split.
  - by repeat split.
  - intros o v s added Hadd Hin. simpl in Hadd. injection Hadd as Hadd.
    apply app_inv_head in Hadd as <-.
    apply elem_of_cons in Hin as [Hin|Hin]; [by injection Hin as -> -> ->|].
    apply elem_of_cons in Hin as [Hin|Hin]; [done|]. by apply elem_of_nil in Hin.
Qed.

Lemma id_plugins_by_option_witness :
  "hashed" ∈ knownModuleIds ∧
  truthy (OStr "hashed") = true ∧
  applyChunkIds (OStr "hashed") [] = Thrown "webpack bug: chunkIds: hashed is not implemented".
Proof.
  split; [in_list|]. split; [reflexivity|].
  apply (proj1 (proj2 (proj2 (proj2 (id_plugins_by_option []))))); [reflexivity|].
  intros s Hs. unfold knownChunkIds in Hs.
  repeat (apply elem_of_cons in Hs as [->|Hs]; [discriminate|]).
  by apply elem_of_nil in Hs.
Defined.

(** C9, as stated, fails: [false] is none of the values the switches
    know, and option processing neither throws nor applies a plugin for
    it; the same holds for [undefined] and for the empty string. *)
Lemma id_plugins_falsy_value_passes :
  (∀ s, s ∈ knownModuleIds ++ knownChunkIds → OBool false ≠ OStr s) ∧
  applyIds (OBool false) (OBool false) [] = Applied [] ∧
  applyIds OUndefined (OStr "") [] = Applied [] ∧
  ¬ (∃ msg, applyModuleIds (OBool false) [] = Thrown msg).
Proof.
  split; [done|]. split; [reflexivity|]. split; [reflexivity|].
  by intros [msg H].
Qed.

End OptionsApplyFacts.

(* ===================================================================== *)
(** * Facts about the eval source map plugin *)
(* ===================================================================== *)

Module EvalSourceMapFacts.
Import EvalSourceMap.

(** ** Strings *)

Lemma sapp_cons x (a b : string) : String x a +:+ b = String x (a +:+ b).
Proof. reflexivity. Qed.

Lemma sapp_assoc (a b c : string) : (a +:+ b) +:+ c = a +:+ (b +:+ c).
Proof. induction a as [|x a IH]; [done|]. rewrite !sapp_cons. by f_equal. Qed.

Lemma sapp_nil_r (a : string) : a +:+ "" = a.
Proof. induction a as [|x a IH]; [done|]. rewrite !sapp_cons. by f_equal. Qed.

Lemma slength_app (a b : string) : String.length (a +:+ b) = String.length a + String.length b.
Proof. induction a as [|x a IH]; [done|]. rewrite !sapp_cons. simpl. by f_equal. Qed.

Lemma slength_stars n : String.length (stars n) = n.
Proof. induction n as [|n IH]; [done|]. simpl. by f_equal. Qed.

Lemma addStars_stars filename n : addStars filename n = filename +:+ stars n.
Proof.
  revert filename. induction n as [|n IH]; intros filename; simpl.
  - by rewrite sapp_nil_r.
  - rewrite IH, sapp_assoc. done.
Qed.

(** ** Base64 never yields a dollar sign *)

Lemma digit_no_dollar n : Ascii.eqb (digit n) "$" = false.
Proof.
  unfold digit.
  assert (forallb (λ c, negb (Ascii.eqb c "$")) alphabet = true) as Hall by reflexivity.
  rewrite forallb_forall in Hall.
  destruct (nth_in_or_default (N.to_nat n) alphabet "A"%char) as [Hin| ->]; [|done].
  apply Hall in Hin. by destruct (Ascii.eqb _ _).
Qed.

Lemma hasDollar_app a b : hasDollar (a +:+ b) = hasDollar a || hasDollar b.
Proof. induction a as [|x a IH]; [done|]. rewrite sapp_cons. simpl. by rewrite IH, orb_assoc. Qed.

Lemma base64_no_dollar_bounded n s : String.length s ≤ n → hasDollar (base64 s) = false.
Proof.
  revert s. induction n as [n IH] using lt_wf_ind; intros s Hlen.
  destruct s as [|a [|b [|c rest]]]; simpl; rewrite ?digit_no_dollar; simpl; try done.
  apply (IH (String.length rest)); simpl in Hlen; lia.
Qed.

Lemma dataUri_no_dollar json : hasDollar (dataUri json) = false.
Proof.
  unfold dataUri. rewrite hasDollar_app.
  by rewrite (base64_no_dollar_bounded _ json (le_n _)).
Qed.

(** ** The replacement of the placeholder *)

Lemma replacePlaceholder_app_bounded r n a b :
  String.length a ≤ n →
  replacePlaceholder r (a +:+ "[url]" +:+ b)
  = replacePlaceholder r a +:+ r +:+ replacePlaceholder r b.
Proof.
  revert a. induction n as [n IH] using lt_wf_ind. intros a Hlen.
  destruct a as [|c1 a]; [done|].
  assert (∀ a', String.length a' ≤ String.length a →
            replacePlaceholder r (a' +:+ "[url]" +:+ b)
            = replacePlaceholder r a' +:+ r +:+ replacePlaceholder r b) as IH'.
  { intros a' Ha'. apply (IH (String.length a')); [simpl in Hlen; lia|done]. }
  destruct a as [|c2 [|c3 [|c4 [|c5 a]]]].
  - change (replacePlaceholder r (String c1 "" +:+ "[url]" +:+ b))
      with (if isPlaceholder c1 "[" "u" "r" "l" then r +:+ replacePlaceholder r ("]" +:+ b)
            else String c1 (replacePlaceholder r ("" +:+ "[url]" +:+ b))).
    replace (isPlaceholder c1 "[" "u" "r" "l") with false
      by (unfold isPlaceholder; simpl; by rewrite !andb_false_r).
    by rewrite IH'.
  - change (replacePlaceholder r (String c1 (String c2 "") +:+ "[url]" +:+ b))
      with (if isPlaceholder c1 c2 "[" "u" "r" then r +:+ replacePlaceholder r ("l]" +:+ b)
            else String c1 (replacePlaceholder r (String c2 "" +:+ "[url]" +:+ b))).
    replace (isPlaceholder c1 c2 "[" "u" "r") with false
      by (unfold isPlaceholder; simpl; by rewrite !andb_false_r).
    by rewrite IH'.
  - change (replacePlaceholder r (String c1 (String c2 (String c3 "")) +:+ "[url]" +:+ b))
      with (if isPlaceholder c1 c2 c3 "[" "u" then r +:+ replacePlaceholder r ("rl]" +:+ b)
            else String c1 (replacePlaceholder r (String c2 (String c3 "") +:+ "[url]" +:+ b))).
    replace (isPlaceholder c1 c2 c3 "[" "u") with false
      by (unfold isPlaceholder; simpl; by rewrite !andb_false_r).
    by rewrite IH'.
  - change (replacePlaceholder r (String c1 (String c2 (String c3 (String c4 ""))) +:+ "[url]" +:+ b))
      with (if isPlaceholder c1 c2 c3 c4 "[" then r +:+ replacePlaceholder r ("url]" +:+ b)
            else String c1 (replacePlaceholder r (String c2 (String c3 (String c4 "")) +:+ "[url]" +:+ b))).
    replace (isPlaceholder c1 c2 c3 c4 "[") with false
      by (unfold isPlaceholder; simpl; by rewrite !andb_false_r).
    by rewrite IH'.
  - change (replacePlaceholder r (String c1 (String c2 (String c3 (String c4 (String c5 a))))
                                    +:+ "[url]" +:+ b))
      with (if isPlaceholder c1 c2 c3 c4 c5 then r +:+ replacePlaceholder r (a +:+ "[url]" +:+ b)
            else String c1 (replacePlaceholder r (String c2 (String c3 (String c4 (String c5 a)))
                                    +:+ "[url]" +:+ b))).
    change (replacePlaceholder r (String c1 (String c2 (String c3 (String c4 (String c5 a))))))
      with (if isPlaceholder c1 c2 c3 c4 c5 then r +:+ replacePlaceholder r a
            else String c1 (replacePlaceholder r (String c2 (String c3 (String c4 (String c5 a)))))).
    destruct (isPlaceholder c1 c2 c3 c4 c5) eqn:E.
    + rewrite IH' by (simpl; lia). by rewrite sapp_assoc.
    + by rewrite IH'.
Qed.

(** Every occurrence of the placeholder is replaced, wherever it is. *)
Lemma replacePlaceholder_app r a b :
  replacePlaceholder r (a +:+ "[url]" +:+ b)
  = replacePlaceholder r a +:+ r +:+ replacePlaceholder r b.
Proof. by apply (replacePlaceholder_app_bounded r (String.length a)). Qed.

Lemma isPlaceholder_true c1 c2 c3 c4 c5 :
  isPlaceholder c1 c2 c3 c4 c5 = true →
  c1 = "["%char ∧ c2 = "u"%char ∧ c3 = "r"%char ∧ c4 = "l"%char ∧ c5 = "]"%char.
Proof.
  unfold isPlaceholder. rewrite !andb_true_iff, !Ascii.eqb_eq. tauto.
Qed.

(** A string without the placeholder is left as it is. *)
Lemma replacePlaceholder_none r s : ¬ hasPlaceholder s → replacePlaceholder r s = s.
Proof.
  induction s as [|c1 s IH]; intros Hno; [done|].
  assert (replacePlaceholder r s = s) as Hs.
  { apply IH. intros (a & b & ->). apply Hno. by exists (String c1 a), b. }
  destruct s as [|c2 [|c3 [|c4 [|c5 rest]]]]; try (cbn in *; by rewrite ?Hs).
  change (replacePlaceholder r (String c1 (String c2 (String c3 (String c4 (String c5 rest))))))
    with (if isPlaceholder c1 c2 c3 c4 c5 then r +:+ replacePlaceholder r rest
          else String c1 (replacePlaceholder r (String c2 (String c3 (String c4 (String c5 rest)))))).
  destruct (isPlaceholder c1 c2 c3 c4 c5) eqn:E; [|by rewrite Hs].
  apply isPlaceholder_true in E as (-> & -> & -> & -> & ->).
  destruct Hno. by exists "", rest.
Qed.


(** ** The entries of [sources] *)

Lemma marker_inj filename i a b : marker filename i a = marker filename i b → a = b.
Proof.
  unfold marker. rewrite !addStars_stars. intros H.
  apply (f_equal String.length) in H. rewrite !slength_app, !slength_stars in H. lia.
Qed.

Lemma filter_remove_length (x : string) (l : list string) :
  x ∈ l → length (filter (λ y, y ≠ x) l) < length l.
Proof.
  induction l as [|y l IH]; intros Hin; [by apply elem_of_nil in Hin|].
  rewrite filter_cons. destruct (decide (y ≠ x)) as [Hne|Heq]; simpl.
  - apply elem_of_cons in Hin as [->|Hin]; [done|]. apply IH in Hin. lia.
  - pose proof (length_filter (λ y, y ≠ x) l). lia.
Qed.

(** The search ends at a free name when the names are all different:
    [taken'] holds what can still stand in the way. *)
Lemma firstFree_free (fn : nat → string) :
  (∀ a b, fn a = fn b → a = b) →
  ∀ fuel n (taken taken' : list string),
    (∀ m, n ≤ m → fn m ∈ taken → fn m ∈ taken') → length taken' ≤ fuel →
    firstFree fn taken fuel n ∉ taken.
Proof.
  intros Hinj. induction fuel as [|fuel IH]; intros n taken taken' Hsub Hlen; simpl.
  - destruct taken' as [|x taken']; [|simpl in Hlen; lia].
    intros Hin. apply (Hsub n) in Hin; [|lia]. by apply elem_of_nil in Hin.
  - destruct (bool_decide (fn n ∈ taken)) eqn:E.
    + apply bool_decide_eq_true in E.
      apply (IH (S n) taken (filter (λ y, y ≠ fn n) taken')).
      * intros m Hm Hin. apply list_elem_of_filter. split.
        -- intros Heq. apply Hinj in Heq. lia.
        -- apply Hsub; [lia|done].
      * assert (fn n ∈ taken') as Hn by (apply Hsub; [lia|done]).
        apply filter_remove_length in Hn. lia.
    + by apply bool_decide_eq_false in E.
Qed.

Lemma firstFree_form (fn : nat → string) taken fuel n :
  ∃ k, n ≤ k ∧ firstFree fn taken fuel n = fn k.
Proof.
  revert n. induction fuel as [|fuel IH]; intros n; simpl.
  - exists n. split; [lia|done].
  - destruct (bool_decide (fn n ∈ taken)).
    + destruct (IH (S n)) as (k & Hk & ->). exists k. split; [lia|done].
    + exists n. split; [lia|done].
Qed.

Lemma deduplicated_step (pre rest out : list string) item :
  deduplicated (pre ++ item :: rest) pre out →
  deduplicated (pre ++ item :: rest) (pre ++ [item])
       (out ++ [if bool_decide (item ∈ take (length out) (pre ++ item :: rest))
                then firstFree (marker item (length out)) ((pre ++ item :: rest) ++ out)
                               (length ((pre ++ item :: rest) ++ out)) 1
                else item]).
Proof.
  intros (Hlen & Hnd & Hout). set (array := pre ++ item :: rest).
  assert (take (length out) array = pre) as Htake.
  { subst array. rewrite Hlen. by rewrite take_app_length. }
  rewrite Htake.
  set (r := if bool_decide (item ∈ pre)
            then firstFree (marker item (length out)) (array ++ out) (length (array ++ out)) 1
            else item).
  assert (item ∈ array) as Hitem.
  { subst array. apply elem_of_app. right. apply list_elem_of_here. }
  assert (∃ k, r = item +:+ stars k ∧ (item ∉ pre → k = 0) ∧
               (item ∈ pre → 1 ≤ k ∧ r ∉ array) ∧ r ∉ out) as (k & Hr & Hk0 & Hk1 & Hfresh).
  { subst r. destruct (bool_decide (item ∈ pre)) eqn:E.
    - apply bool_decide_eq_true in E.
      assert (firstFree (marker item (length out)) (array ++ out) (length (array ++ out)) 1
              ∉ array ++ out) as Hfree.
      { apply (firstFree_free _ (marker_inj item (length out)) _ 1 _ (array ++ out)); done. }
      destruct (firstFree_form (marker item (length out)) (array ++ out)
                  (length (array ++ out)) 1) as (k & Hk & Heq).
      rewrite Heq in *. exists k. unfold marker in *. rewrite addStars_stars in *.
      split; [done|]. split; [done|]. split.
      + intros _. split; [done|]. intros Hin. apply Hfree, elem_of_app. by left.
      + intros Hin. apply Hfree, elem_of_app. by right.
    - apply bool_decide_eq_false in E. exists 0. rewrite sapp_nil_r.
      split; [done|]. split; [done|]. split; [done|].
      intros [j Hj]%list_elem_of_lookup.
      destruct (Hout j item Hj) as (o & k & Ho & Heq & H0 & H1).
      destruct (decide (o ∈ take j pre)) as [Hin|Hnin].
      + by destruct (H1 Hin) as [_ ?].
      + rewrite (H0 Hnin), sapp_nil_r in Heq. subst o.
        apply E. by eapply list_elem_of_lookup_2. }
  split; [by rewrite !length_app, Hlen|]. split.
  - apply NoDup_app. split; [done|]. split; [|apply NoDup_singleton].
    by intros x Hx ->%list_elem_of_singleton.
  - intros j x Hj. apply lookup_app_Some in Hj as [Hj|[Hge Hj]].
    + destruct (Hout j x Hj) as (o & k' & Ho & Heq & H0 & H1).
      assert (j < length pre) as Hlt by (by apply lookup_lt_Some in Ho).
      exists o, k'. rewrite lookup_app_l by done. rewrite take_app_le by lia. done.
    + destruct (j - length out) as [|d] eqn:Hd; [|done]. simpl in Hj. injection Hj as <-.
      assert (j = length pre) as -> by lia.
      exists item, k. rewrite list_lookup_middle by done.
      rewrite take_app_length. done.
Qed.

Lemma replaceFrom_deduplicated (rest : list string) : ∀ pre out,
  deduplicated (pre ++ rest) pre out →
  deduplicated (pre ++ rest) (pre ++ rest) (replaceFrom marker (pre ++ rest) out rest).
Proof.
  induction rest as [|item rest IH]; intros pre out Hgood; simpl.
  - by rewrite app_nil_r in *.
  - apply deduplicated_step in Hgood.
    replace (pre ++ item :: rest) with ((pre ++ [item]) ++ rest) in * by (by rewrite <- app_assoc).
    by apply IH.
Qed.

Lemma replaceDuplicates_deduplicated (l : list string) : deduplicated l l (replaceDuplicates l marker).
Proof.
  apply (replaceFrom_deduplicated l []). split; [done|]. split; [apply NoDup_nil_2|]. done.
Qed.

(** Every entry comes out as the filename followed by markers. *)
Lemma replaceDuplicates_form (l : list string) i n :
  l !! i = Some n →
  ∃ k, replaceDuplicates l marker !! i = Some (n +:+ stars k) ∧
       (n ∉ take i l → k = 0) ∧ (n ∈ take i l → 1 ≤ k).
Proof.
  intros Hi. destruct (replaceDuplicates_deduplicated l) as (Hlen & _ & Hout).
  destruct (lookup_lt_is_Some_2 (replaceDuplicates l marker) i) as [r Hr].
  { rewrite Hlen. by apply lookup_lt_Some in Hi. }
  destruct (Hout i r Hr) as (o & k & Ho & -> & H0 & H1).
  rewrite Hi in Ho. injection Ho as <-. exists k. split; [done|]. split; [done|].
  intros Hin. by destruct (H1 Hin).
Qed.

(** ** The footer and the hook *)

Lemma footer_spec comment json moduleId :
  footer comment json moduleId =
  Some (replacePlaceholder (dataUri json) comment +:+ nl
        +:+ "//# sourceURL=webpack-internal:///" +:+ moduleId +:+ nl).
Proof. unfold footer, replaceUrl. by rewrite dataUri_no_dollar. Qed.

Section HookFacts.

Variable matchModule : string → bool.
Variable findModule : string → option string.
Variable createFilename : moduleOrSource → string → string → string.
Variable stringifyMap : sourceMap → string.
Variable stringifyString : string → string.

Lemma moduleHook_renders o cache src m sm :
  cache !! sid src = None → isNormalModule m = true → matchModule (resource m) = true →
  srcMap src = Some sm →
  let map' := rewriteMap findModule createFilename o m sm in
  let text := "eval(" +:+ stringifyString
                (srcText src
                 +:+ replacePlaceholder (dataUri (stringifyMap map')) (sourceMapCommentOf o)
                 +:+ nl +:+ "//# sourceURL=webpack-internal:///" +:+ moduleId m +:+ nl)
              +:+ ");" in
  moduleHook matchModule findModule createFilename stringifyMap stringifyString o cache src m
  = (<[sid src := text]> cache, Some (Raw text)).
Proof.
  intros Hc Hn Hm Hs. unfold moduleHook. rewrite Hc, Hn, Hm, Hs. simpl.
  by rewrite footer_spec.
Qed.

End HookFacts.

(** C8, with the helper as the spec describes it. No two entries of
    the de-duplicated [sources] list are equal, in particular none that
    were equal before; each entry is its filename followed by markers
    [*], none when no earlier entry is equal to it and at least one
    otherwise; a list without equal entries stays as it is; the footer
    is the comment with every [[url]] replaced by the data URI of the
    base64 of the JSON text, followed by the [sourceURL] line; and a
    normal module that matches and has a source map is rendered as an
    [eval] of its text followed by that footer, its map listing the
    de-duplicated filenames. *)
Theorem eval_source_map_sources_and_footer :
  (∀ l : list string, NoDup (replaceDuplicates l marker)) ∧
  (∀ (l : list string) i j n, i ≠ j → l !! i = Some n → l !! j = Some n →
     replaceDuplicates l marker !! i ≠ replaceDuplicates l marker !! j) ∧
  (∀ (l : list string) i n, l !! i = Some n →
     ∃ k, replaceDuplicates l marker !! i = Some (n +:+ stars k) ∧
          (n ∉ take i l → k = 0) ∧ (n ∈ take i l → 1 ≤ k)) ∧
  (∀ l : list string, NoDup l → replaceDuplicates l marker = l) ∧
  (∀ filename i n, marker filename i n = filename +:+ stars n) ∧
  (∀ comment json moduleId,
     footer comment json moduleId =
     Some (replacePlaceholder (dataUri json) comment +:+ nl
           +:+ "//# sourceURL=webpack-internal:///" +:+ moduleId +:+ nl)) ∧
  (∀ json, dataUri json = "data:application/json;charset=utf-8;base64," +:+ base64 json) ∧
  (∀ r a b, replacePlaceholder r (a +:+ "[url]" +:+ b)
            = replacePlaceholder r a +:+ r +:+ replacePlaceholder r b) ∧
  (∀ r s, ¬ hasPlaceholder s → replacePlaceholder r s = s) ∧
  (∀ matchModule findModule createFilename stringifyMap stringifyString o cache src m sm,
     cache !! sid src = None → isNormalModule m = true → matchModule (resource m) = true →
     srcMap src = Some sm →
     ∃ ft,
       footer (sourceMapCommentOf o)
              (stringifyMap (rewriteMap findModule createFilename o m sm)) (moduleId m) = Some ft ∧
       moduleHook matchModule findModule createFilename stringifyMap stringifyString o cache src m
       = (<[sid src := "eval(" +:+ stringifyString (srcText src +:+ ft) +:+ ");"]> cache,
          Some (Raw ("eval(" +:+ stringifyString (srcText src +:+ ft) +:+ ");"))) ∧
       sources (rewriteMap findModule createFilename o m sm) =
       replaceDuplicates
         (map (λ md, createFilename md (moduleFilenameTemplateOf o) (namespaceOf o))
              (map (λ s, match findModule s with
                         | Some md => AModule md
                         | None => ASource s
                         end) (sources sm))) marker).
Proof.
  split; [|split; [|split; [|split; [|split; [|split; [|split; [|split; [|split]]]]]]]].
  - intros l. by destruct (replaceDuplicates_deduplicated l) as (_ & ? & _).
  - intros l i j n Hne Hi Hj Heq.
    destruct (replaceDuplicates_deduplicated l) as (_ & Hnd & _).
    destruct (replaceDuplicates_form l i n Hi) as (k & Hk & _).
    apply Hne. apply (proj1 (NoDup_alt _) Hnd i j (n +:+ stars k)); [done|].
    by rewrite <- Heq.
  - apply replaceDuplicates_form.
  - intros l Hnd. apply list_eq. intros i.
    destruct (l !! i) as [n|] eqn:Hi.
    + destruct (replaceDuplicates_form l i n Hi) as (k & -> & H0 & _).
      rewrite H0, sapp_nil_r; [done|].
      intros [j Hj]%list_elem_of_lookup. apply lookup_take_Some in Hj as [Hj Hlt].
      pose proof (proj1 (NoDup_alt _) Hnd i j n Hi Hj). lia.
    + apply lookup_ge_None. apply lookup_ge_None in Hi.
      destruct (replaceDuplicates_deduplicated l) as (-> & _). done.
  - intros filename i n. apply addStars_stars.
  - apply footer_spec.
  - done.
  - apply replacePlaceholder_app.
  - apply replacePlaceholder_none.
  - intros matchModule findModule createFilename stringifyMap stringifyString o cache src m sm
           Hc Hn Hm Hs.
    eexists. split; [apply footer_spec|]. split; [|done].
    rewrite (moduleHook_renders matchModule findModule createFilename stringifyMap stringifyString
               o cache src m sm Hc Hn Hm Hs).
    done.
Qed.

Lemma eval_source_map_sources_and_footer_witness :
  let l := ["./a.js"; "./b.js"; "./a.js"] in
  let sm := SourceMap 3 ["./a.js"; "./a.js"; "./a.js*"] [] [] "" None None in
  let out := sources (rewriteMap (λ _, None)
                        (λ md _ _, match md with AModule s => s | ASource s => s end)
                        (PluginOptions None None None None) (Module_ true "./a.js" "2") sm) in
  0 ≠ 2 ∧ l !! 0 = Some "./a.js" ∧ l !! 2 = Some "./a.js" ∧
  replaceDuplicates l marker !! 0 ≠ replaceDuplicates l marker !! 2 ∧
  replaceDuplicates l marker = ["./a.js"; "./b.js"; "./a.js*"] ∧
  out = ["./a.js"; "./a.js**"; "./a.js*"] ∧ NoDup out.
Proof.
  split; [lia|]. split; [reflexivity|]. split; [reflexivity|]. split.
  - apply (proj1 (proj2 eval_source_map_sources_and_footer)
             ["./a.js"; "./b.js"; "./a.js"] 0 2 "./a.js"); [lia|reflexivity|reflexivity].
  - split; [vm_compute; reflexivity|]. split; [vm_compute; reflexivity|].
    apply (proj1 eval_source_map_sources_and_footer).
Defined.

End EvalSourceMapFacts.

(* ===================================================================== *)
(** * Facts about the module decorators *)
(* ===================================================================== *)

Module ModuleDecoratorFacts.
Import ModuleDecorator.

(** ** Heaps of the form [h ++ s], addressed from [length h] *)

Lemma lookup_base (h s : heap) k : (h ++ s) !! (length h + k) = s !! k.
Proof. rewrite lookup_app_r by lia. f_equal. lia. Qed.

Lemma insert_base (h s : heap) k o : <[length h + k := o]> (h ++ s) = h ++ <[k := o]> s.
Proof. apply insert_app_r. Qed.

Lemma alloc_base (h s : heap) o : alloc (h ++ s) o = (h ++ (s ++ [o]), length h + length s).
Proof. unfold alloc. by rewrite length_app, <- app_assoc. Qed.

Lemma newModule_base h moduleId :
  newModule h moduleId =
  (h ++ [emptyObject;
         Object None [("i", Data moduleId true true true);
                      ("l", Data (VBool false) true true true);
                      ("exports", Data (VRef (length h + 0)) true true true)] true false],
   length h + 1, length h + 0).
Proof.
  unfold newModule, alloc. rewrite length_app, Nat.add_0_r, <- app_assoc. done.
Qed.

Ltac heap_eval :=
  repeat (progress
    (unfold ensureChildren, Set_, defineProperty, getterDescriptor,
            emptyArray, emptyObject, objectCreate, withProps, orFalse;
     rewrite ?alloc_base, ?lookup_base, ?insert_base;
     cbn [Get findProperty getOwn setOwn
          props proto extensible isArray truthy from_option id
          d_value d_writable d_get d_enumerable d_configurable
          String.eqb Ascii.eqb Bool.eqb negb andb orb
          lookup list_lookup insert list_insert length app fst snd])).

Lemma decoratorFor_harmony bm :
  decoratorFor bm = HarmonyModuleDecorator ↔
  ∃ s, bm = Some (BuildMeta (Some s)) ∧ s ≠ "".
Proof.
  unfold decoratorFor, isHarmony. split.
  - destruct bm as [[[s|]]|]; try done. simpl.
    destruct (String.eqb_spec s ""); [done|]. intros _. by exists s.
  - intros (s & -> & Hs). simpl. by rewrite (proj2 (String.eqb_neq s "")).
Qed.

(** C4, as the code has it. A module object as the bootstrap creates it
    is decorated (with enough fuel for the two lookups along the
    prototype chain). The plain (node) decorator changes the module
    itself and returns it: [loaded] and [id] read [l] and [i], follow a
    later change of [l], and cannot be assigned; [exports] is still the
    exports object; the module also gets two new empty arrays, [paths]
    and [children]. The interop (harmony) decorator returns a new object
    whose prototype is the module: [loaded] and [id] behave in the same
    way, following the [l] of the original module, and in addition the
    new object gets an own, enumerable, read-only property [exports]
    whose value is [undefined]; the exports object and the original
    module are left exactly as they were. Which of the two is applied is
    decided by [buildMeta.exportsType] being set and not empty. *)
Theorem decorators_expose_module_state (h : heap) (moduleId : value) (fuel : nat) :
  3 ≤ fuel →
  let '(h0, m, e) := newModule h moduleId in
  (∃ h1 h2,
     decorate NodeModuleDecorator fuel h0 m = Some (h1, m) ∧
     Get fuel h1 m "loaded" = Some (VBool false) ∧
     Get fuel h1 m "id" = Some moduleId ∧
     (∀ v, Set_ fuel h1 m "loaded" v = None) ∧
     (∀ v, Set_ fuel h1 m "id" v = None) ∧
     Set_ fuel h1 m "l" (VBool true) = Some h2 ∧
     Get fuel h2 m "loaded" = Some (VBool true) ∧
     Get fuel h1 m "exports" = Some (VRef e) ∧
     h1 !! e = h0 !! e ∧
     ∃ pl cl, length h0 ≤ pl ∧ length h0 ≤ cl ∧ pl ≠ cl ∧
              Get fuel h1 m "paths" = Some (VRef pl) ∧ h1 !! pl = Some emptyArray ∧
              Get fuel h1 m "children" = Some (VRef cl) ∧ h1 !! cl = Some emptyArray) ∧
  (∃ h1 h2 d o,
     decorate HarmonyModuleDecorator fuel h0 m = Some (h1, d) ∧
     d ≠ m ∧ h1 !! d = Some o ∧ proto o = Some m ∧
     Get fuel h1 d "loaded" = Some (VBool false) ∧
     Get fuel h1 d "id" = Some moduleId ∧
     (∀ v, Set_ fuel h1 d "loaded" v = None) ∧
     (∀ v, Set_ fuel h1 d "id" v = None) ∧
     Set_ fuel h1 m "l" (VBool true) = Some h2 ∧
     Get fuel h2 d "loaded" = Some (VBool true) ∧
     getOwn "exports" (props o) = Some (Data VUndefined false true false) ∧
     Get fuel h1 d "exports" = Some VUndefined ∧
     (∀ v, Set_ fuel h1 d "exports" v = None) ∧
     h1 !! e = h0 !! e ∧ h1 !! m = h0 !! m ∧
     getOwn "paths" (props o) = None ∧
     ∃ cl, length h0 ≤ cl ∧ getOwn "children" (props o) = Some (Data (VRef cl) true true true) ∧
           h1 !! cl = Some emptyArray) ∧
  (∀ bm, decoratorFor bm = HarmonyModuleDecorator ↔ ∃ s, bm = Some (BuildMeta (Some s)) ∧ s ≠ "").
Proof.
  intros Hfuel. destruct fuel as [|[|[|fuel]]]; try lia.
  rewrite newModule_base. split; [|split].
  - eexists _, _. split; [unfold decorate, nodeModuleDecorator; heap_eval; reflexivity|].
    split; [by heap_eval|]. split; [by heap_eval|].
    split; [intros v; by heap_eval|]. split; [intros v; by heap_eval|].
    split; [heap_eval; reflexivity|].
    split; [by heap_eval|]. split; [by heap_eval|].
    split; [by heap_eval|].
    exists (length h + 2), (length h + 3).
    split; [rewrite length_app; simpl; lia|]. split; [rewrite length_app; simpl; lia|].
    split; [lia|]. split; [by heap_eval|]. split; [by heap_eval|].
    split; by heap_eval.
  - eexists _, _, _, _. split; [unfold decorate, harmonyModuleDecorator; heap_eval; reflexivity|].
    split; [lia|]. split; [heap_eval; reflexivity|]. split; [done|].
    split; [by heap_eval|]. split; [by heap_eval|].
    split; [intros v; by heap_eval|]. split; [intros v; by heap_eval|].
    split; [heap_eval; reflexivity|].
    split; [by heap_eval|]. split; [done|]. split; [by heap_eval|].
    split; [intros v; by heap_eval|].
    split; [by heap_eval|]. split; [by heap_eval|]. split; [done|].
    exists (length h + 3). split; [rewrite length_app; simpl; lia|].
    split; [done|by heap_eval].
  - apply decoratorFor_harmony.
Qed.

Lemma decorators_expose_module_state_witness :
  3 ≤ 3 ∧
  ∃ h1, decorate NodeModuleDecorator 3 (newModule [] (VNum 1)).1.1 1 = Some (h1, 1) ∧
        Get 3 h1 1 "id" = Some (VNum 1).
Proof.
  split; [lia|].
  destruct (decorators_expose_module_state [] (VNum 1) 3 (le_n 3))
    as [(h1 & h2 & Hd & _ & Hid & _) _].
  exists h1. split; [exact Hd|exact Hid].
Defined.

(** C4, as stated, fails: the interop decorator does not mark the
    exports object of the module. For module 1 the exports object is the
    same empty object before and after, and what the decorated module
    shows as [exports] is [undefined]. *)
Lemma harmony_decorator_leaves_exports_unmarked :
  let '(h0, m, e) := newModule [] (VNum 1) in
  ∃ h1 d, decorate HarmonyModuleDecorator 3 h0 m = Some (h1, d) ∧
          h1 !! e = Some emptyObject ∧
          ¬ marksExports h0 h1 e ∧
          Get 3 h1 d "exports" = Some VUndefined.
Proof.
  eexists _, _. split; [vm_compute; reflexivity|].
  split; [reflexivity|]. split; [|reflexivity].
  unfold marksExports. simpl. by intros H.
Qed.

End ModuleDecoratorFacts.

(* ===================================================================== *)
(** * More about the JSONP chunk loading runtime *)
(* ===================================================================== *)

Module JsonpRuns.
Import Jsonp JsonpScripts JsonpFacts.

(** ** What a step does to the scripts, the promises and the modules *)

Lemma onScriptComplete_scripts s event st sc :
  scripts st !! s = Some sc →
  scripts (onScriptComplete s event st) = <[s := disarm sc]> (scripts st).
Proof.
  intros Hs. rewrite (onScriptComplete_cases _ _ _ _ Hs). simpl.
  by destruct (installedChunks st !! chunk sc) as [[| |p]|].
Qed.

(** The scripts after a step: one script may have been disarmed, one may
    have been appended. *)
Lemma step_scripts st ev :
  scripts (step st ev).1 = scripts st ∨
  (∃ s sc, scripts st !! s = Some sc ∧
           scripts (step st ev).1 = <[s := disarm sc]> (scripts st)) ∨
  (∃ c, ev = Request c ∧ installedChunks st !! c ≠ Some Installed ∧
        (∀ p, installedChunks st !! c ≠ Some (Loading p)) ∧
        scripts (step st ev).1 =
        scripts st ++ [Script (publicPath +:+ u c) "utf-8" 120 (nc st) c true true
                              (now st + timeoutDelay)]).
Proof.
  destruct ev as [c|s|s|s|data|d]; simpl.
  - unfold requireEnsure. rewrite f_j_cases.
    destruct (installedChunks st !! c) as [[| |p]|] eqn:E; simpl; try by left.
    all: right; right; exists c; by rewrite E.
  - destruct (scripts st !! s) as [sc|] eqn:Hs; [|by left].
    destruct (handlers sc); [|by left]. right; left. exists s, sc. split; [done|].
    by apply onScriptComplete_scripts.
  - destruct (scripts st !! s) as [sc|] eqn:Hs; [|by left].
    destruct (handlers sc); [|by left]. right; left. exists s, sc. split; [done|].
    by apply onScriptComplete_scripts.
  - destruct (scripts st !! s) as [sc|] eqn:Hs; [|by left].
    destruct (timer sc && (deadline sc <=? now st)%N); [|by left]. right; left.
    exists s, sc. split; [done|]. by apply onScriptComplete_scripts.
  - left. apply webpackJsonpCallback_scripts.
  - by left.
Qed.

Lemma settle_all_ne rs ps q s :
  q ∉ rs → foldl (λ ps p, settle p s ps) ps rs !! q = ps !! q.
Proof.
  revert ps. induction rs as [|r rs IH]; intros ps Hq; [done|].
  simpl. rewrite IH by set_solver. apply settle_lookup_ne. set_solver.
Qed.

Lemma firsts_subset ids : ∀ seen x, x ∈ firsts seen ids → x ∈ ids.
Proof.
  induction ids as [|c ids IH]; intros seen x; simpl; [done|].
  case_bool_decide.
  - intros ?%IH. by right.
  - intros [->|?%IH]%elem_of_cons; [by left|by right].
Qed.

(** The promises [webpackJsonpCallback] resolves belong to entries of
    [installedChunks]; nothing else happens to the promises, and modules
    are added or replaced, never removed. *)
Lemma webpackJsonpCallback_promises data st :
  ∃ rs, promises (webpackJsonpCallback data st).1
        = foldl (λ ps p, settle p Fulfilled ps) (promises st) rs ∧
        (∀ p, p ∈ rs → ∃ c, c ∈ dataIds data ∧ installedChunks st !! c = Some (Loading p)) ∧
        nc (webpackJsonpCallback data st).1 = nc st ∧
        (∀ k, is_Some (modules st !! k) →
              is_Some (modules (webpackJsonpCallback data st).1 !! k)).
Proof.
  unfold webpackJsonpCallback, dataIds.
  set (ids := match nth 0 data VUndefined with VIds ids => ids | _ => [] end).
  pose proof (flagChunks_frame ids [] st) as (Hm & Hp & _ & _ & Hn & _).
  pose proof (flagChunks_resolves ids [] st [] (installedChunks st)) as Hrs.
  rewrite app_nil_l in Hrs.
  assert (∀ p, p ∈ (flagChunks ids [] st).2 →
               ∃ c, c ∈ ids ∧ installedChunks st !! c = Some (Loading p)) as Href.
  { intros p. rewrite Hrs by done. intros (c & Hin & Hc)%list_elem_of_omap.
    exists c. split; [by eapply firsts_subset|]. unfold loadingPromise in Hc.
    destruct (installedChunks st !! c) as [[| |q]|]; congruence. }
  clear Hrs. destruct (flagChunks ids [] st) as [st0 rs]; simpl in *.
  assert (∀ v, promises (addModules v st0) = promises st ∧ nc (addModules v st0) = nc st ∧
               ∀ k, is_Some (modules st !! k) → is_Some (modules (addModules v st0) !! k))
    as Hadd.
  { intros v. destruct v as [| | |m|]; simpl; rewrite ?Hm; try done.
    repeat split; try done. intros k Hk. rewrite addModules_own.
    by destruct (own m !! k). }
  set (st1 := addModules (nth 1 data VUndefined) st0).
  destruct (Hadd (nth 1 data VUndefined)) as (Hp1 & Hn1 & Hm1). fold st1 in Hp1, Hn1, Hm1.
  assert (∃ rs0, promises st1 = foldl (λ ps p, settle p Fulfilled ps) (promises st) rs0 ∧
     (∀ p, p ∈ rs0 → ∃ c, c ∈ ids ∧ installedChunks st !! c = Some (Loading p)) ∧
     nc st1 = nc st ∧
     (∀ k, is_Some (modules st !! k) → is_Some (modules st1 !! k))) as Hthrow.
  { exists []. repeat split; try done. intros p Hp'. by apply elem_of_nil in Hp'. }
  assert (∀ st2, promises st2 = promises st → nc st2 = nc st → modules st2 = modules st1 →
     ∃ rs0, promises (drain rs st2) = foldl (λ ps p, settle p Fulfilled ps) (promises st) rs0 ∧
     (∀ p, p ∈ rs0 → ∃ c, c ∈ ids ∧ installedChunks st !! c = Some (Loading p)) ∧
     nc (drain rs st2) = nc st ∧
     (∀ k, is_Some (modules st !! k) → is_Some (modules (drain rs st2) !! k))) as Hdrain.
  { intros st2 H1 H2 H3. exists rs.
    pose proof (drain_frame rs st2) as (_ & Hdm & _ & _ & _ & _ & Hdp).
    rewrite Hdp, Hdm, H1, H3. repeat split; try done.
    clear -H2. revert st2 H2. induction rs as [|r rs IH]; intros st2 H2; [done|].
    simpl. by apply IH. }
  destruct (nth 0 data VUndefined) eqn:E0.
  { exists []. repeat split; try done. intros p Hp'. by apply elem_of_nil in Hp'. }
  all: destruct (truthy (nth 3 data VUndefined)); [destruct (nth 3 data VUndefined)|];
       simpl; try exact Hthrow; by apply Hdrain.
Qed.

(** One step and one promise: it keeps its state, or it was pending,
    belongs to an entry of [installedChunks], and is settled. *)
Lemma step_promise st ev q x :
  promises st !! q = Some x →
  promises (step st ev).1 !! q = Some x ∨
  (x = Pending ∧ (∃ c, installedChunks st !! c = Some (Loading q)) ∧
   ∃ y, y ≠ Pending ∧ promises (step st ev).1 !! q = Some y).
Proof.
  intros Hq.
  assert (∀ s event, let st' := onScriptComplete s event st in
            promises st' !! q = Some x ∨
            (x = Pending ∧ (∃ c, installedChunks st !! c = Some (Loading q)) ∧
             ∃ y, y ≠ Pending ∧ promises st' !! q = Some y)) as Hosc.
  { intros s event. simpl. destruct (scripts st !! s) as [sc|] eqn:Hs.
    2:{ unfold onScriptComplete. rewrite Hs. by left. }
    rewrite (onScriptComplete_cases _ _ _ _ Hs). simpl.
    destruct (installedChunks st !! chunk sc) as [[| |p]|] eqn:Hc; simpl; try by left.
    destruct (decide (p = q)) as [->|Hne].
    - destruct x; [|left; unfold settle; by rewrite Hq..].
      right. split; [done|]. split; [by exists (chunk sc)|].
      eexists. split; [|by apply settle_lookup_pending]. done.
    - left. by rewrite settle_lookup_ne. }
  destruct ev as [c|s|s|s|data|d]; simpl; try by left.
  - unfold requireEnsure. rewrite f_j_cases.
    destruct (installedChunks st !! c) as [[| |p]|]; simpl; try by left.
    all: left; apply lookup_app_l_Some; done.
  - destruct (scripts st !! s) as [sc|]; [|by left]. destruct (handlers sc); [|by left].
    apply Hosc.
  - destruct (scripts st !! s) as [sc|]; [|by left]. destruct (handlers sc); [|by left].
    apply Hosc.
  - destruct (scripts st !! s) as [sc|]; [|by left].
    destruct (timer sc && (deadline sc <=? now st)%N); [|by left]. apply Hosc.
  - destruct (webpackJsonpCallback_promises data st) as (rs & -> & Href & _).
    destruct (decide (q ∈ rs)) as [Hin|Hnin].
    + destruct x as [| |e].
      * right. split; [done|]. split; [destruct (Href _ Hin) as (c & _ & ?); by exists c|].
        exists Fulfilled.
        split; [done|]. by apply settle_all_fulfils.
      * left. by apply settle_all_keeps.
      * left. by apply settle_all_keeps.
    + left. by rewrite settle_all_ne.
Qed.

Lemma step_modules st ev k :
  is_Some (modules st !! k) → is_Some (modules (step st ev).1 !! k).
Proof.
  intros Hk. destruct ev as [c|s|s|s|data|d]; simpl; try done.
  - unfold requireEnsure. rewrite f_j_cases.
    by destruct (installedChunks st !! c) as [[| |p]|].
  - destruct (scripts st !! s) as [sc|] eqn:Hs; [|done]. destruct (handlers sc); [|done].
    simpl. rewrite (onScriptComplete_cases _ _ _ _ Hs). simpl.
    by destruct (installedChunks st !! chunk sc) as [[| |p]|].
  - destruct (scripts st !! s) as [sc|] eqn:Hs; [|done]. destruct (handlers sc); [|done].
    simpl. rewrite (onScriptComplete_cases _ _ _ _ Hs). simpl.
    by destruct (installedChunks st !! chunk sc) as [[| |p]|].
  - destruct (scripts st !! s) as [sc|] eqn:Hs; [|done].
    destruct (timer sc && (deadline sc <=? now st)%N); [|done].
    simpl. rewrite (onScriptComplete_cases _ _ _ _ Hs). simpl.
    by destruct (installedChunks st !! chunk sc) as [[| |p]|].
  - destruct (webpackJsonpCallback_promises data st) as (rs & _ & _ & _ & Hm). by apply Hm.
Qed.

Lemma nc_step st ev : nc (step st ev).1 = nc st.
Proof.
  destruct ev as [c|s|s|s|data|d]; simpl; try done.
  - unfold requireEnsure. rewrite f_j_cases.
    by destruct (installedChunks st !! c) as [[| |p]|].
  - destruct (scripts st !! s) as [sc|] eqn:Hs; [|done]. destruct (handlers sc); [|done].
    simpl. rewrite (onScriptComplete_cases _ _ _ _ Hs). simpl.
    by destruct (installedChunks st !! chunk sc) as [[| |p]|].
  - destruct (scripts st !! s) as [sc|] eqn:Hs; [|done]. destruct (handlers sc); [|done].
    simpl. rewrite (onScriptComplete_cases _ _ _ _ Hs). simpl.
    by destruct (installedChunks st !! chunk sc) as [[| |p]|].
  - destruct (scripts st !! s) as [sc|] eqn:Hs; [|done].
    destruct (timer sc && (deadline sc <=? now st)%N); [|done].
    simpl. rewrite (onScriptComplete_cases _ _ _ _ Hs). simpl.
    by destruct (installedChunks st !! chunk sc) as [[| |p]|].
  - by destruct (webpackJsonpCallback_promises data st) as (rs & _ & _ & Hn & _).
Qed.

Lemma run_cons st ev evs : run st (ev :: evs) = run (step st ev).1 evs.
Proof.
  unfold run. simpl. destruct (step st ev) as [st1 o]. simpl.
  by destruct (exec st1 evs).
Qed.


(** Entries with a promise after a step: they were there, or the promise
    is the one the step created. *)
Lemma step_loading st ev c q :
  installedChunks (step st ev).1 !! c = Some (Loading q) →
  installedChunks st !! c = Some (Loading q) ∨ q = length (promises st).
Proof.
  assert (∀ s event, installedChunks (onScriptComplete s event st) !! c = Some (Loading q) →
            installedChunks st !! c = Some (Loading q)) as Hosc.
  { intros s event. destruct (scripts st !! s) as [sc|] eqn:Hs.
    2:{ unfold onScriptComplete. by rewrite Hs. }
    rewrite (onScriptComplete_cases _ _ _ _ Hs). simpl.
    destruct (installedChunks st !! chunk sc) as [[| |p]|] eqn:Hc; simpl; try done.
    all: by intros [_ ?]%lookup_delete_Some. }
  destruct ev as [c0|s|s|s|data|d]; simpl; try by left.
  - unfold requireEnsure. rewrite f_j_cases.
    destruct (installedChunks st !! c0) as [[| |p]|] eqn:E; simpl; try by left.
    all: intros [[_ [= <-]]|[_ ?]]%lookup_insert_Some; [by right|by left].
  - destruct (scripts st !! s) as [sc|]; [|by left]. destruct (handlers sc); [|by left].
    left. by eapply Hosc.
  - destruct (scripts st !! s) as [sc|]; [|by left]. destruct (handlers sc); [|by left].
    left. by eapply Hosc.
  - destruct (scripts st !! s) as [sc|]; [|by left].
    destruct (timer sc && (deadline sc <=? now st)%N); [|by left]. left. by eapply Hosc.
  - rewrite webpackJsonpCallback_chunks. case_bool_decide; [done|by left].
Qed.

(** A pending promise that no entry holds stays pending for ever. *)
Lemma orphan_stays_pending evs : ∀ st p,
  promises st !! p = Some Pending → unreferenced p st →
  promises (run st evs) !! p = Some Pending ∧ unreferenced p (run st evs).
Proof.
  induction evs as [|ev evs IH]; intros st p Hp Hun; [done|].
  rewrite run_cons. apply IH.
  - destruct (step_promise st ev p Pending Hp) as [H|(_ & (c & Hc) & _)]; [done|].
    by destruct (Hun c).
  - intros c Hc. apply step_loading in Hc as [Hc| ->]; [by destruct (Hun c)|].
    apply lookup_lt_Some in Hp. lia.
Qed.

(** A script that is disarmed stays disarmed, and its events do nothing. *)
Lemma disarmed_for_ever evs : ∀ st s sc,
  scripts st !! s = Some sc → handlers sc = false → timer sc = false →
  ∃ sc', scripts (run st evs) !! s = Some sc' ∧ handlers sc' = false ∧ timer sc' = false.
Proof.
  induction evs as [|ev evs IH]; intros st s sc Hs Hh Ht; [by exists sc|].
  rewrite run_cons.
  destruct (step_scripts st ev) as [E|[(s0 & sc0 & Hs0 & E)|(c & _ & _ & _ & E)]].
  - apply (IH _ s sc); [by rewrite E|done..].
  - destruct (decide (s0 = s)) as [->|Hne].
    + apply (IH _ s (disarm sc0)); [|done..]. rewrite E. apply list_lookup_insert_eq.
      by apply lookup_lt_Some in Hs0.
    + apply (IH _ s sc); [|done..]. rewrite E. by rewrite list_lookup_insert_ne.
  - apply (IH _ s sc); [|done..]. rewrite E. by apply lookup_app_l_Some.
Qed.

(** ** The scripts of a run *)

Lemma standard_run evs :
  nc (run init evs) = None ∧ ∀ s sc, scripts (run init evs) !! s = Some sc → standard sc.
Proof.
  induction evs as [|ev evs IH] using rev_ind.
  { split; [done|]. intros s sc Hs. by destruct s. }
  destruct IH as [Hnc IH]. unfold run in *. rewrite exec_snoc. simpl.
  split; [by rewrite nc_step|]. intros s sc.
  destruct (step_scripts (exec init evs).1 ev) as [E|[(s0 & sc0 & Hs0 & E)|(c & _ & _ & _ & E)]];
    rewrite E.
  - apply IH.
  - destruct (decide (s0 = s)) as [->|Hne].
    + rewrite list_lookup_insert_eq by (by apply lookup_lt_Some in Hs0).
      intros [= <-]. destruct (IH _ _ Hs0) as (? & ? & ? & ? & ?). by repeat split.
    + rewrite list_lookup_insert_ne by done. apply IH.
  - intros [Hs|[_ Hs]]%lookup_app_Some; [by eapply IH|].
    apply list_lookup_singleton_Some in Hs as [_ <-]. rewrite Hnc. by repeat split.
Qed.

Lemma fetches_step_le st ev c :
  wf st → fetches c st ≤ 1 → fetches c (step st ev).1 ≤ 1.
Proof.
  intros Hwf Hle.
  assert (ev = Request c ∨ ev ≠ Request c) as [->|Hne].
  { destruct ev as [c0| | | | |]; try (by right).
    destruct (decide (c0 = c)) as [->|]; [by left|right; congruence]. }
  2:{ by rewrite step_fetches_other. }
  simpl. unfold requireEnsure. rewrite f_j_cases.
  destruct (installedChunks st !! c) as [[| |p]|] eqn:E; simpl; try done.
  - by destruct (wf_noprefetch _ Hwf c).
  - rewrite fetches_startLoading, (wf_none _ Hwf c E). rewrite decide_True by done. lia.
Qed.

Lemma fetches_run_le evs c : fetches c (run init evs) ≤ 1.
Proof.
  induction evs as [|ev evs IH] using rev_ind; [vm_compute; lia|].
  unfold run in *. rewrite exec_snoc. simpl. apply fetches_step_le; [|done].
  apply exec_invariant.
Qed.

Lemma sapp_inj_r (a b s : string) : a +:+ s = b +:+ s → a = b.
Proof.
  intros H. assert (String.length a = String.length b) as Hl.
  { apply (f_equal String.length) in H.
    rewrite !EvalSourceMapFacts.slength_app in H. lia. }
  revert b H Hl. induction a as [|x a IH]; intros [|y b] H Hl; try done.
  rewrite !EvalSourceMapFacts.sapp_cons in H. injection H as -> H.
  f_equal. apply IH; [done|]. simpl in Hl. lia.
Qed.

Lemma url_inj c c' : publicPath +:+ u c = publicPath +:+ u c' → c = c'.
Proof.
  unfold publicPath, u. intros H.
  apply (inj (String.app "dist/")) in H. apply (inj (String.app "")) in H.
  apply sapp_inj_r in H. by apply (inj pretty) in H.
Qed.


(** A promise that is settled keeps its state for the rest of the run. *)
Lemma settled_stays evs : ∀ st q x,
  promises st !! q = Some x → x ≠ Pending → promises (run st evs) !! q = Some x.
Proof.
  induction evs as [|ev evs IH]; intros st q x Hq Hx; [done|].
  rewrite run_cons. apply IH; [|done].
  destruct (step_promise st ev q x Hq) as [H|(-> & _)]; done.
Qed.

Lemma fetches_script c st :
  1 ≤ fetches c st → ∃ s sc, scripts st !! s = Some sc ∧ chunk sc = c.
Proof.
  unfold fetches. intros Hlen.
  destruct (filter (λ c', c' = c) (chunk <$> scripts st)) as [|c0 l] eqn:E; [simpl in Hlen; lia|].
  assert (c0 ∈ filter (λ c', c' = c) (chunk <$> scripts st)) as Hin by (rewrite E; left).
  apply list_elem_of_filter in Hin as [-> Hin].
  apply list_elem_of_fmap in Hin as (sc & Hc & Hin).
  apply list_elem_of_lookup in Hin as [s Hs]. by exists s, sc.
Qed.

(** C2, as stated, fails: the chunk 396 is requested, the [error] event of
    its script fires, and 396 is requested again. Both requests are made
    while the chunk is not loaded, one script is appended, and both
    requesters are handed the promise 0; but the second one is handed it
    after it has been rejected, not pending. *)
Lemma request_after_failure_gets_rejected_promise :
  let evs := [Request 396; ScriptError 0; Request 396] in
  let err := Error ("Loading chunk 396 failed." +:+ nl +:+ "(error: dist/396.output.js)")
                   "error" "dist/396.output.js" in
  length (filter (λ ev, Is_true (requestsb 396 ev)) evs) = 2 ∧
  installedChunks (run init evs) !! 396%N = Some (Loading 0) ∧
  fetches 396 (run init evs) = 1 ∧
  (exec init evs).2 = [[0]; []; [0]] ∧
  promises (run init [Request 396]) !! 0 = Some Pending ∧
  promises (run init [Request 396; ScriptError 0]) !! 0 = Some (Rejected err) ∧
  promises (run init evs) !! 0 = Some (Rejected err) ∧
  ¬ (∃ p, answered 396 evs (exec init evs).2 [p] ∧
          promises (run init [Request 396; ScriptError 0]) !! p = Some Pending).
Proof.
  cbv zeta.
  refine (conj _ (conj _ (conj _ (conj _ (conj _ (conj _ (conj _ _)))))));
    try (vm_compute; reflexivity).
  intros (p & Hans & Hp). specialize (Hans 0 eq_refl).
  vm_compute in Hans. injection Hans as <-. vm_compute in Hp. discriminate.
Qed.

(** C2, as the code has it. In every run of the runtime from its initial
    state in which [n >= 1] requests for chunk [c] occur, [c] is still
    not loaded at the end and no load of [c] has failed (the script of
    [c] has not completed: its handlers or its timer are still set),
    exactly one script has been appended for [c]; every one of the
    requests was handed the same promise, the one of the entry; this
    promise is pending at the end of the run and was pending at every
    earlier moment of the run at which it existed, so when each requester
    got it; an entry is put into the loading state by a request that
    finds it unrequested and in no other way; and from a state in which
    [c] is loaded no run appends a script for [c] and every request for
    [c] is handed no promise at all. *)
Theorem chunk_requests_deduplicated (evs : list event) (c : N) (n : nat) :
  length (filter (λ ev, Is_true (requestsb c ev)) evs) = n → 1 ≤ n →
  installedChunks (run init evs) !! c ≠ Some Installed →
  (∀ s sc, scripts (run init evs) !! s = Some sc → chunk sc = c → armed sc = true) →
  fetches c (run init evs) = 1 ∧
  (∃ p, installedChunks (run init evs) !! c = Some (Loading p) ∧
        answered c evs (exec init evs).2 [p] ∧
        promises (run init evs) !! p = Some Pending ∧
        (∀ pre post x, evs = pre ++ post → promises (run init pre) !! p = Some x →
                       x = Pending)) ∧
  (∀ pre ev p,
     installedChunks (step (run init pre) ev).1 !! c = Some (Loading p) →
     installedChunks (run init pre) !! c = Some (Loading p) ∨
     (installedChunks (run init pre) !! c = None ∧ ev = Request c)) ∧
  (∀ st' evs', installedChunks st' !! c = Some Installed →
     fetches c (run st' evs') = fetches c st' ∧ answered c evs' (exec st' evs').2 []).
Proof.
  intros <- Hn Hc Harmed. apply filter_requests_lookup in Hn as [i Hi].
  destruct (exec_invariant evs) as [Hwf Hh]. fold (run init evs) in *.
  specialize (Hh c).
  destruct (installedChunks (run init evs) !! c) as [[| |p]|] eqn:E.
  - done.
  - by destruct (wf_noprefetch _ Hwf c).
  - pose proof (wf_loading _ Hwf c p E) as Hf.
    destruct (fetches_script c (run init evs)) as (s & sc & Hs & Hsc); [lia|].
    assert (promises (run init evs) !! p = Some Pending) as Hp.
    { apply (wf_pending _ Hwf s sc p); [done|by apply (Harmed s)|by rewrite Hsc]. }
    split; [done|]. split; [|split].
    + exists p. split; [done|]. split; [done|]. split; [done|].
      intros pre post x -> Hx. rewrite run_app in Hp.
      destruct x; [done|..];
        rewrite (settled_stays post _ p _ Hx) in Hp by done; discriminate.
    + intros pre ev q Hq. by apply loading_entered_from_unrequested.
    + intros st' evs' Hst'. by destruct (exec_installed c evs' st' Hst') as (_ & ? & ?).
  - by destruct (Hh i).
Qed.

Lemma chunk_requests_deduplicated_witness :
  let evs := [Request 396; Elapse 10; Request 396; Request 7; ScriptError 1; Request 396] in
  length (filter (λ ev, Is_true (requestsb 396 ev)) evs) = 3 ∧ 1 ≤ 3 ∧
  installedChunks (run init evs) !! 396%N ≠ Some Installed ∧
  fetches 396 (run init evs) = 1 ∧
  ∃ p, answered 396 evs (exec init evs).2 [p] ∧ promises (run init evs) !! p = Some Pending.
Proof.
  assert (length (filter (λ ev, Is_true (requestsb 396 ev))
            [Request 396; Elapse 10; Request 396; Request 7; ScriptError 1; Request 396]) = 3)
    as H1 by (vm_compute; reflexivity).
  assert (installedChunks
            (run init [Request 396; Elapse 10; Request 396; Request 7; ScriptError 1; Request 396])
            !! 396%N ≠ Some Installed) as H3 by (vm_compute; discriminate).
  assert (∀ s sc,
            scripts (run init [Request 396; Elapse 10; Request 396; Request 7; ScriptError 1;
                               Request 396]) !! s = Some sc →
            chunk sc = 396%N → armed sc = true) as H4.
  { intros s sc Hs Hc. destruct s as [|[|s]]; simpl in Hs.
    - by injection Hs as <-.
    - exfalso. injection Hs as <-. revert Hc. vm_compute. discriminate.
    - discriminate. }
  split; [exact H1|]. split; [lia|]. split; [exact H3|].
  destruct (chunk_requests_deduplicated
              [Request 396; Elapse 10; Request 396; Request 7; ScriptError 1; Request 396]
              396 3 H1 (le_S _ _ (le_S _ _ (le_n 1))) H3 H4)
    as (Hf & (p & _ & Ha & Hp & _) & _).
  split; [exact Hf|]. by exists p.
Defined.

(** X1. Nothing is taken back in a run, whatever the events: a promise
    that is fulfilled or rejected keeps its state, no promise disappears,
    a registered module id stays registered and an installed chunk stays
    installed. *)
Theorem jsonp_state_only_grows (st : state) (evs : list event) :
  (∀ q x, promises st !! q = Some x → x ≠ Pending → promises (run st evs) !! q = Some x) ∧
  (∀ q, is_Some (promises st !! q) → is_Some (promises (run st evs) !! q)) ∧
  (∀ k, is_Some (modules st !! k) → is_Some (modules (run st evs) !! k)) ∧
  (∀ c, installedChunks st !! c = Some Installed →
        installedChunks (run st evs) !! c = Some Installed).
Proof.
  revert st. induction evs as [|ev evs IH]; intros st; [done|].
  rewrite run_cons. destruct (IH (step st ev).1) as (IH1 & IH2 & IH3 & IH4).
  split; [|split; [|split]].
  - intros q x Hq Hx. apply IH1; [|done].
    by destruct (step_promise st ev q x Hq) as [H|(-> & _)].
  - intros q [x Hq]. apply IH2.
    destruct (step_promise st ev q x Hq) as [H|(_ & _ & y & _ & H)]; by eexists.
  - intros k Hk. apply IH3. by apply step_modules.
  - intros c Hc. apply IH4. by apply step_installed.
Qed.

Lemma jsonp_state_only_grows_witness :
  let failed := run init [Request 396; ScriptError 0] in
  let e := Error ("Loading chunk 396 failed." +:+ nl +:+ "(error: dist/396.output.js)")
                 "error" "dist/396.output.js" in
  promises (run failed [JsonpPush [VIds [396%N]; VModules (ModuleMap ∅ ∅)]; Request 396])
    !! 0 = Some (Rejected e).
Proof.
  apply (proj1 (jsonp_state_only_grows (run init [Request 396; ScriptError 0])
           [JsonpPush [VIds [396%N]; VModules (ModuleMap ∅ ∅)]; Request 396])).
  - vm_compute; reflexivity.
  - discriminate.
Defined.

(** X2. [onScriptComplete] runs at most once for a script: once a load
    event, an error event or the timer of a script has been handled, no
    later load event, error event or timer of that script changes anything,
    whatever happened in between. *)
Theorem script_completes_at_most_once
    (st : state) (s : nat) (sc : script) (ev : event) (evs : list event) (ev' : event) :
  scripts st !! s = Some sc →
  (handlers sc = true ∧ (ev = ScriptLoad s ∨ ev = ScriptError s)) ∨
  (timer sc = true ∧ (deadline sc ≤ now st)%N ∧ ev = TimerFire s) →
  ev' = ScriptLoad s ∨ ev' = ScriptError s ∨ ev' = TimerFire s →
  step (run (step st ev).1 evs) ev' = (run (step st ev).1 evs, []).
Proof.
  intros Hs Hev Hev'.
  assert (scripts (step st ev).1 !! s = Some (disarm sc)) as Hd.
  { assert (∀ event, scripts (onScriptComplete s event st) !! s = Some (disarm sc)) as Hosc.
    { intros event. rewrite (onScriptComplete_scripts _ _ _ _ Hs).
      apply list_lookup_insert_eq. by apply lookup_lt_Some in Hs. }
    destruct Hev as [[Hh [-> | ->]]|(Ht & Hdl & ->)]; simpl; rewrite Hs.
    - rewrite Hh. apply Hosc.
    - rewrite Hh. apply Hosc.
    - rewrite Ht, (proj2 (N.leb_le _ _) Hdl). apply Hosc. }
  destruct (disarmed_for_ever evs _ _ _ Hd eq_refl eq_refl) as (sc' & Hs' & Hh' & Ht').
  destruct Hev' as [-> | [-> | ->]]; simpl; rewrite Hs', ?Hh', ?Ht'; done.
Qed.

Lemma script_completes_at_most_once_witness :
  let st := run init [Request 396] in
  let st1 := run (step st (ScriptError 0)).1 [Elapse 120000] in
  step st1 (TimerFire 0) = (st1, []).
Proof.
  apply (script_completes_at_most_once (run init [Request 396]) 0
           (Script "dist/396.output.js" "utf-8" 120 None 396 true true 120000)
           (ScriptError 0) [Elapse 120000] (TimerFire 0)).
  - vm_compute; reflexivity.
  - left. split; [reflexivity|]. right; reflexivity.
  - right; right; reflexivity.
Defined.

(** X3. [onScriptComplete] run with a [load] event while the entry of the
    chunk still holds a promise (the file did not call [webpackJsonp.push]
    for the chunk) rejects that promise with an error of type [missing];
    with an [error] event it rejects it with type [error]. The request of
    the error, and the URL in its message, is the [src] read back from
    the target of the event, whatever the host made of the attribute.
    When the chunk is installed by then, [onScriptComplete] settles and
    reports nothing, whatever the event. *)
Theorem load_event_of_unregistered_chunk_rejects
    (evs : list event) (s : nat) (sc : script) (realSrc : string) :
  scripts (run init evs) !! s = Some sc → handlers sc = true →
  let st := run init evs in
  let err kind := Error ("Loading chunk " +:+ pretty (chunk sc) +:+ " failed." +:+ nl
                         +:+ "(" +:+ kind +:+ ": " +:+ realSrc +:+ ")") kind realSrc in
  let onload := onScriptComplete s (DomEvent "load" realSrc) st in
  let onerror := onScriptComplete s (DomEvent "error" realSrc) st in
  (∀ p, installedChunks st !! chunk sc = Some (Loading p) →
     promises st !! p = Some Pending ∧
     promises onload !! p = Some (Rejected (err "missing")) ∧
     trace onload = trace st ++ [Reject p (err "missing")] ∧
     promises onerror !! p = Some (Rejected (err "error")) ∧
     trace onerror = trace st ++ [Reject p (err "error")]) ∧
  (installedChunks st !! chunk sc = Some Installed →
     ∀ event, promises (onScriptComplete s event st) = promises st ∧
              trace (onScriptComplete s event st) = trace st ∧
              installedChunks (onScriptComplete s event st) = installedChunks st).
Proof.
  intros Hs Hh st err onload onerror. subst st onload onerror.
  destruct (exec_invariant evs) as [Hwf _]. fold (run init evs) in Hwf.
  split.
  - intros p Hc.
    assert (promises (run init evs) !! p = Some Pending) as Hp.
    { apply (wf_pending _ Hwf s sc p); try done. unfold armed. by rewrite Hh. }
    split; [done|].
    rewrite !(onScriptComplete_cases _ _ _ _ Hs). simpl. rewrite Hc. simpl.
    unfold loadError. simpl.
    split; [by apply settle_lookup_pending|]. split; [done|].
    split; [by apply settle_lookup_pending|done].
  - intros Hc event. rewrite (onScriptComplete_cases _ _ _ _ Hs); simpl; by rewrite Hc.
Qed.

Lemma load_event_of_unregistered_chunk_rejects_witness :
  let st := run init [Request 396] in
  let url := "https://example.com/dist/396.output.js" in
  let e := Error ("Loading chunk 396 failed." +:+ nl +:+ "(missing: " +:+ url +:+ ")")
                 "missing" url in
  promises (onScriptComplete 0 (DomEvent "load" url) st) !! 0 = Some (Rejected e).
Proof.
  assert (scripts (run init [Request 396]) !! 0 =
          Some (Script "dist/396.output.js" "utf-8" 120 None 396 true true 120000)) as H1
    by (vm_compute; reflexivity).
  assert (installedChunks (run init [Request 396]) !! 396%N = Some (Loading 0)) as H2
    by (vm_compute; reflexivity).
  exact (proj1 (proj2 (proj1 (load_event_of_unregistered_chunk_rejects [Request 396] 0
                  (Script "dist/396.output.js" "utf-8" 120 None 396 true true 120000)
                  "https://example.com/dist/396.output.js"
                  H1 eq_refl) 0 H2))).
Defined.

(** X4. In every run of the runtime each script element carries the URL
    [dist/<chunk id>.output.js] of its chunk, the charset [utf-8] and the
    timeout attribute 120, and no two script elements have the same URL or
    the same chunk: no file is requested twice. *)
Theorem no_url_is_requested_twice (evs : list event) :
  (∀ s sc, scripts (run init evs) !! s = Some sc →
     src sc = "dist/" +:+ pretty (chunk sc) +:+ ".output.js" ∧
     charset sc = "utf-8" ∧ timeoutAttr sc = 120%N) ∧
  (∀ s s' sc sc', scripts (run init evs) !! s = Some sc →
     scripts (run init evs) !! s' = Some sc' →
     src sc = src sc' ∨ chunk sc = chunk sc' → s = s').
Proof.
  destruct (standard_run evs) as [_ Hstd]. split.
  - intros s sc Hs. destruct (Hstd _ _ Hs) as (? & ? & ? & _). done.
  - intros s s' sc sc' Hs Hs' Heq.
    assert (chunk sc' = chunk sc) as Hc.
    { destruct Heq as [Heq|Heq]; [|done].
      destruct (Hstd _ _ Hs) as (E & _), (Hstd _ _ Hs') as (E' & _).
      rewrite E, E' in Heq. symmetry. by apply url_inj. }
    apply (script_unique (run init evs) s s' sc sc'); try done. apply fetches_run_le.
Qed.

Lemma no_url_is_requested_twice_witness :
  let evs := [Request 396; ScriptError 0; Request 396; Request 7] in
  let sc := Script "dist/396.output.js" "utf-8" 120 None 396 false false 120000 in
  scripts (run init evs) !! 0 = Some sc ∧
  src sc = "dist/" +:+ pretty (chunk sc) +:+ ".output.js" ∧
  0 = 0.
Proof.
  assert (scripts (run init [Request 396; ScriptError 0; Request 396; Request 7]) !! 0 =
          Some (Script "dist/396.output.js" "utf-8" 120 None 396 false false 120000)) as H
    by (vm_compute; reflexivity).
  split; [exact H|]. split.
  - exact (proj1 (proj1 (no_url_is_requested_twice
                           [Request 396; ScriptError 0; Request 396; Request 7]) 0 _ H)).
  - exact (proj2 (no_url_is_requested_twice
                    [Request 396; ScriptError 0; Request 396; Request 7])
                 0 0 _ _ H H (or_introl eq_refl)).
Defined.

(** X5. A chunk file that hands [webpackJsonp.push] a fourth slot that is
    truthy but no function makes the callback throw after the chunks have
    been flagged as loaded and before the collected [resolve] functions are
    called: the chunk is installed and later requests are answered at
    once, but the promise of the requests made so far stays pending for
    ever. *)
Theorem non_function_runtime_strands_requesters
    (evs : list event) (c : N) (p : nat) (data : list jsval) :
  installedChunks (run init evs) !! c = Some (Loading p) →
  promises (run init evs) !! p = Some Pending →
  c ∈ dataIds data →
  truthy (nth 3 data VUndefined) = true → (∀ f, nth 3 data VUndefined ≠ VFunc f) →
  let st := run init evs in
  let st' := (webpackJsonpCallback data st).1 in
  (webpackJsonpCallback data st).2 = Threw ∧
  installedChunks st' !! c = Some Installed ∧
  trace st' = trace st ∧ jsonpArray st' = jsonpArray st ∧
  ∀ evs', promises (run st' evs') !! p = Some Pending ∧
          step (run st' evs') (Request c) = (run st' evs', []).
Proof.
  intros Hc Hp Hin Htr Hnf st st'.
  destruct (exec_invariant evs) as [Hwf _]. fold (run init evs) in Hwf. fold st in Hwf.
  assert (installedChunks st' !! c = Some Installed) as Hinst.
  { subst st'. rewrite webpackJsonpCallback_chunks. by rewrite bool_decide_eq_true_2. }
  assert (promises st' = promises st ∧ trace st' = trace st ∧ jsonpArray st' = jsonpArray st ∧
          (webpackJsonpCallback data st).2 = Threw) as (Hps & Htrace & Hja & Hthrew).
  { subst st'. unfold webpackJsonpCallback. unfold dataIds in Hin.
    destruct (nth 0 data VUndefined) as [| |ids| |] eqn:E0;
      try (by apply elem_of_nil in Hin).
    pose proof (flagChunks_frame ids [] st) as (_ & Hfp & _ & Hfj & _ & _ & Hft).
    destruct (flagChunks ids [] st) as [st0 rs]; simpl in *.
    assert (∀ v, promises (addModules v st0) = promises st0 ∧
                 trace (addModules v st0) = trace st0 ∧
                 jsonpArray (addModules v st0) = jsonpArray st0) as Hadd by (by intros []).
    destruct (Hadd (nth 1 data VUndefined)) as (H1 & H2 & H3).
    rewrite Htr. destruct (nth 3 data VUndefined) as [| | | |f] eqn:E3; simpl;
      try (by rewrite H1, H2, H3, Hfp, Hft, Hfj).
    by destruct (Hnf f). }
  do 4 (split; [done|]). intros evs'.
  assert (unreferenced p st') as Hun.
  { intros c' Hc'. subst st'. rewrite webpackJsonpCallback_chunks in Hc'.
    case_bool_decide as Hin'; [done|].
    by rewrite (wf_inj _ Hwf c' c p Hc' Hc) in Hin'. }
  split.
  - apply orphan_stays_pending; [by rewrite Hps|done].
  - destruct (exec_installed c evs' st' Hinst) as (Hi & _).
    simpl. unfold requireEnsure. by rewrite f_j_cases, Hi.
Qed.

Lemma non_function_runtime_strands_requesters_witness :
  let data := [VIds [396%N]; VModules (ModuleMap {[ 2%N := 7 ]} ∅); VUndefined; VNum 1] in
  let st' := (webpackJsonpCallback data (run init [Request 396])).1 in
  promises (run st' [ScriptLoad 0; Request 396]) !! 0 = Some Pending.
Proof.
  assert (installedChunks (run init [Request 396]) !! 396%N = Some (Loading 0)) as H1
    by (vm_compute; reflexivity).
  assert (promises (run init [Request 396]) !! 0 = Some Pending) as H2
    by (vm_compute; reflexivity).
  assert (396%N ∈ dataIds [VIds [396%N]; VModules (ModuleMap {[ 2%N := 7 ]} ∅);
                           VUndefined; VNum 1]) as H3 by (simpl; apply list_elem_of_here).
  assert (∀ f, nth 3 [VIds [396%N]; VModules (ModuleMap {[ 2%N := 7 ]} ∅);
                      VUndefined; VNum 1] VUndefined ≠ VFunc f) as H4 by (intros f; discriminate).
  exact (proj1 (proj2 (proj2 (proj2 (proj2
    (non_function_runtime_strands_requesters [Request 396] 396 0
       [VIds [396%N]; VModules (ModuleMap {[ 2%N := 7 ]} ∅); VUndefined; VNum 1]
       H1 H2 H3 eq_refl H4)))) [ScriptLoad 0; Request 396])).
Defined.


(** X6. Chunks do not interfere. While a chunk is loading, an event that
    is neither a push of that chunk nor an event of its script leaves the
    entry of the chunk, the state of its promise and its script as they
    are; the chunk still has one script. *)
Theorem chunks_do_not_interfere (evs : list event) (c : N) (p : nat) (ev : event) :
  installedChunks (run init evs) !! c = Some (Loading p) →
  ¬ pushes c ev →
  (∀ s sc, scripts (run init evs) !! s = Some sc → chunk sc = c →
           ev ≠ ScriptLoad s ∧ ev ≠ ScriptError s ∧ ev ≠ TimerFire s) →
  let st := run init evs in
  let st' := (step st ev).1 in
  installedChunks st' !! c = Some (Loading p) ∧
  promises st' !! p = promises st !! p ∧
  fetches c st' = 1 ∧
  (∀ s sc, scripts st !! s = Some sc → chunk sc = c → scripts st' !! s = Some sc).
Proof.
  intros Hc Hpush Hscript st st'.
  destruct (exec_invariant evs) as [Hwf _]. fold (run init evs) in Hwf. fold st in Hwf, Hc, Hscript.
  assert (installedChunks st' !! c = Some (Loading p) ∧
          promises st' !! p = promises st !! p ∧
          (∀ s sc, scripts st !! s = Some sc → chunk sc = c → scripts st' !! s = Some sc))
    as (H1 & H2 & H3).
  2:{ split; [done|]. split; [done|]. split; [|done].
      apply (wf_loading st' (wf_step st ev Hwf) c p H1). }
  assert (∀ s event, (∀ sc, scripts st !! s = Some sc → chunk sc ≠ c) →
            let st1 := onScriptComplete s event st in
            installedChunks st1 !! c = Some (Loading p) ∧
            promises st1 !! p = promises st !! p ∧
            (∀ s0 sc0, scripts st !! s0 = Some sc0 → chunk sc0 = c →
                       scripts st1 !! s0 = Some sc0)) as Hosc.
  { intros s event Hne. simpl. destruct (scripts st !! s) as [sc|] eqn:Hs.
    2:{ unfold onScriptComplete. by rewrite Hs. }
    specialize (Hne sc eq_refl).
    assert (∀ s0 sc0, scripts st !! s0 = Some sc0 → chunk sc0 = c →
              <[s := disarm sc]> (scripts st) !! s0 = Some sc0) as Hkeep.
    { intros s0 sc0 Hs0 Hc0. rewrite list_lookup_insert_ne; [done|]. intros ->. congruence. }
    rewrite (onScriptComplete_cases _ _ _ _ Hs). simpl.
    destruct (installedChunks st !! chunk sc) as [[| |q]|] eqn:Hq; simpl.
    - done.
    - by rewrite lookup_delete_ne.
    - split; [done|]. split; [|done]. apply settle_lookup_ne. intros ->.
      apply Hne. by apply (wf_inj st Hwf (chunk sc) c p).
    - by rewrite lookup_delete_ne. }
  subst st'. destruct ev as [c0|s|s|s|data|d]; simpl.
  - unfold requireEnsure. rewrite f_j_cases.
    destruct (installedChunks st !! c0) as [[| |q]|] eqn:E; simpl; try done.
    + by destruct (wf_noprefetch st Hwf c0).
    + assert (c0 ≠ c) by congruence. rewrite lookup_insert_ne by done.
      split; [done|]. split.
      * apply lookup_app_l. by apply (wf_bound st Hwf c p).
      * intros s sc Hs _. by apply lookup_app_l_Some.
  - destruct (scripts st !! s) as [sc|] eqn:Hs; [|done]. destruct (handlers sc); [|done].
    apply Hosc. intros sc' Hs' Hc'. rewrite Hs in Hs'. injection Hs' as <-.
    by destruct (Hscript s sc Hs Hc') as (? & _).
  - destruct (scripts st !! s) as [sc|] eqn:Hs; [|done]. destruct (handlers sc); [|done].
    apply Hosc. intros sc' Hs' Hc'. rewrite Hs in Hs'. injection Hs' as <-.
    by destruct (Hscript s sc Hs Hc') as (_ & ? & _).
  - destruct (scripts st !! s) as [sc|] eqn:Hs; [|done].
    destruct (timer sc && (deadline sc <=? now st)%N); [|done].
    apply Hosc. intros sc' Hs' Hc'. rewrite Hs in Hs'. injection Hs' as <-.
    by destruct (Hscript s sc Hs Hc') as (_ & _ & ?).
  - rewrite webpackJsonpCallback_chunks, webpackJsonpCallback_scripts.
    rewrite bool_decide_eq_false_2 by done. split; [done|]. split; [|done].
    destruct (webpackJsonpCallback_promises data st) as (rs & -> & Href & _).
    apply settle_all_ne. intros (c' & Hin & Hc')%Href.
    apply Hpush. simpl. by rewrite <- (wf_inj st Hwf c' c p Hc' Hc).
  - done.
Qed.

Lemma chunks_do_not_interfere_witness :
  let st := run init [Request 396; Request 7] in
  promises (step st (ScriptError 1)).1 !! 0 = promises st !! 0.
Proof.
  assert (installedChunks (run init [Request 396; Request 7]) !! 396%N = Some (Loading 0)) as H1
    by (vm_compute; reflexivity).
  refine (proj1 (proj2 (chunks_do_not_interfere [Request 396; Request 7] 396 0 (ScriptError 1)
                          H1 _ _))).
  - simpl. tauto.
  - intros s sc Hs Hc. destruct s as [|[|s]]; simpl in Hs.
    + repeat split; discriminate.
    + exfalso. injection Hs as <-. revert Hc. vm_compute. discriminate.
    + discriminate.
Defined.

End JsonpRuns.

(* ===================================================================== *)
(** * Facts about the bootstrap *)
(* ===================================================================== *)

Module BootstrapFacts.
Import Bootstrap.

Section Modules.
Variable modules : gmap N (list stmt).

(** ** Entries of the cache are never removed or overwritten by others *)

Lemma execBody_other req id body : keeps req → ∀ st k m,
  k ≠ id → installedModules st !! k = Some m →
  installedModules (execBody req id body st).1 !! k = Some m.
Proof.
  intros Hreq. induction body as [|s body IH]; intros st k m Hne Hk; [done|].
  destruct s as [v|id'|id'| |]; simpl.
  - apply IH; [done|]. simpl. by rewrite lookup_alter_ne.
  - pose proof (Hreq id' st k m Hk) as Hk'.
    destruct (req id' st) as [st' [v|e|]]; simpl in *; try done. by apply IH.
  - pose proof (Hreq id' st k m Hk) as Hk'.
    destruct (req id' st) as [st' [v|e|]]; simpl in *; try done.
    apply IH; [done|]. simpl. by rewrite lookup_alter_ne.
  - by apply IH.
  - done.
Qed.

Lemma execBody_self req id body : keeps req → ∀ st m,
  installedModules st !! id = Some m →
  ∃ v, installedModules (execBody req id body st).1 !! id = Some (Module_ (i m) (l m) v).
Proof.
  intros Hreq. induction body as [|s body IH]; intros st m Hk.
  { exists (exports m). simpl. by destruct m. }
  destruct s as [v|id'|id'| |]; simpl.
  - apply (IH _ (Module_ (i m) (l m) v)). simpl. by rewrite lookup_alter_eq, Hk.
  - pose proof (Hreq id' st id m Hk) as Hk'.
    destruct (req id' st) as [st' [v|e|]]; simpl in *.
    + by apply IH.
    + exists (exports m). by destruct m.
    + exists (exports m). by destruct m.
  - pose proof (Hreq id' st id m Hk) as Hk'.
    destruct (req id' st) as [st' [v|e|]]; simpl in *.
    + apply (IH _ (Module_ (i m) (l m) v)). simpl. by rewrite lookup_alter_eq, Hk'.
    + exists (exports m). by destruct m.
    + exists (exports m). by destruct m.
  - by apply IH.
  - exists (exports m). by destruct m.
Qed.

Lemma require_keeps fuel : keeps (require modules fuel).
Proof.
  induction fuel as [|fuel IH]; intros id st k m Hk; [done|].
  simpl. destruct (installedModules st !! id) as [m0|] eqn:Hid; [done|].
  assert (k ≠ id) as Hne by congruence.
  set (st1 := set_installed <[id := Module_ id false (Fresh id)]> st).
  assert (installedModules st1 !! k = Some m) as Hk1.
  { subst st1. simpl. by rewrite lookup_insert_ne. }
  destruct (modules !! id) as [body|]; [|done].
  pose proof (execBody_other _ id body IH (called id st1) k m Hne Hk1) as Hb.
  destruct (execBody (require modules fuel) id body (called id st1)) as [st2 [[]|e|]];
    simpl in *; try done.
  by rewrite lookup_alter_ne.
Qed.

(** ** The calls of module functions *)

Lemma once_alter f id st : once modules st → once modules (set_installed (alter f id) st).
Proof.
  intros [Hnd Hin]. split; [done|]. intros k. rewrite Hin. simpl.
  destruct (decide (k = id)) as [->|Hne].
  - rewrite lookup_alter_eq. by rewrite fmap_is_Some.
  - by rewrite lookup_alter_ne.
Qed.

Lemma execBody_once req id body :
  (∀ id st, once modules st → once modules (req id st).1) →
  ∀ st, once modules st → once modules (execBody req id body st).1.
Proof.
  intros Hreq. induction body as [|s body IH]; intros st Hst; [done|].
  destruct s as [v|id'|id'| |]; simpl.
  - by apply IH, once_alter.
  - pose proof (Hreq id' st Hst) as H'.
    destruct (req id' st) as [st' [v|e|]]; simpl in *; try done. by apply IH.
  - pose proof (Hreq id' st Hst) as H'.
    destruct (req id' st) as [st' [v|e|]]; simpl in *; try done. by apply IH, once_alter.
  - by apply IH.
  - done.
Qed.

Lemma require_once fuel : ∀ id st, once modules st → once modules (require modules fuel id st).1.
Proof.
  induction fuel as [|fuel IH]; intros id st Hst; [done|].
  simpl. destruct (installedModules st !! id) as [m0|] eqn:Hid; [done|].
  set (st1 := set_installed <[id := Module_ id false (Fresh id)]> st).
  destruct Hst as [Hnd Hin].
  assert (id ∉ calls st) as Hnot.
  { intros [[? ?] _]%Hin. congruence. }
  destruct (modules !! id) as [body|] eqn:Hm.
  - assert (once modules (called id st1)) as H2.
    { split; simpl.
      - apply NoDup_app. split; [done|]. split; [|apply NoDup_singleton].
        by intros k Hk ->%list_elem_of_singleton.
      - intros k. rewrite elem_of_app, list_elem_of_singleton, Hin.
        destruct (decide (k = id)) as [->|Hne].
        + rewrite lookup_insert_eq, Hm. split; [|by intros; right].
          intros _. split; by eexists.
        + rewrite lookup_insert_ne by done. split; [|by intros; left].
          by intros [?|?]. }
    pose proof (execBody_once _ id body IH _ H2) as Hb.
    destruct (execBody (require modules fuel) id body (called id st1)) as [st2 [[]|e|]];
      simpl in *; try done.
    by apply once_alter.
  - split; [done|]. intros k. simpl. rewrite Hin.
    destruct (decide (k = id)) as [->|Hne].
    + rewrite lookup_insert_eq, Hid, Hm. split; intros [[? ?] [? ?]]; done.
    + by rewrite lookup_insert_ne.
Qed.

Lemma requireAll_once fuel ids : ∀ st, once modules st → once modules (requireAll modules fuel ids st).
Proof.
  induction ids as [|id ids IH]; intros st Hst; [done|].
  simpl. by apply IH, require_once.
Qed.

(** ** What the module functions read *)

Lemma execBody_reads req id body :
  keeps req →
  (∀ id st, Forall (λ r, r.2 = Some false) (reads st) →
            Forall (λ r, r.2 = Some false) (reads (req id st).1)) →
  ∀ st m, installedModules st !! id = Some m → l m = false →
    Forall (λ r, r.2 = Some false) (reads st) →
    Forall (λ r, r.2 = Some false) (reads (execBody req id body st).1).
Proof.
  intros Hk Hreq. induction body as [|s body IH]; intros st m Hid Hl Hst; [done|].
  destruct s as [v|id'|id'| |]; simpl.
  - apply (IH _ (Module_ (i m) (l m) v)); [|done..]. simpl. by rewrite lookup_alter_eq, Hid.
  - pose proof (Hreq id' st Hst) as H'. pose proof (Hk id' st id m Hid) as Hid'.
    destruct (req id' st) as [st' [v|e|]]; simpl in *; try done. by apply (IH _ m).
  - pose proof (Hreq id' st Hst) as H'. pose proof (Hk id' st id m Hid) as Hid'.
    destruct (req id' st) as [st' [v|e|]]; simpl in *; try done.
    apply (IH _ (Module_ (i m) (l m) v)); [|done..]. simpl. by rewrite lookup_alter_eq, Hid'.
  - apply (IH _ m); [done..|]. simpl. apply Forall_app. split; [done|].
    constructor; [|done]. simpl. by rewrite Hid, <- Hl.
  - done.
Qed.

Lemma require_reads fuel : ∀ id st,
  Forall (λ r, r.2 = Some false) (reads st) →
  Forall (λ r, r.2 = Some false) (reads (require modules fuel id st).1).
Proof.
  induction fuel as [|fuel IH]; intros id st Hst; [done|].
  simpl. destruct (installedModules st !! id) as [m0|] eqn:Hid; [done|].
  set (st1 := set_installed <[id := Module_ id false (Fresh id)]> st).
  destruct (modules !! id) as [body|]; [|done].
  pose proof (execBody_reads _ id body (require_keeps fuel) IH (called id st1)
                (Module_ id false (Fresh id))) as Hb.
  destruct (execBody (require modules fuel) id body (called id st1)) as [st2 [[]|e|]];
    simpl in *; apply Hb; try done; by rewrite lookup_insert_eq.
Qed.

(** ** Termination *)

Lemma pending_mono st st' :
  (∀ k m, installedModules st !! k = Some m → is_Some (installedModules st' !! k)) →
  size (pending modules st') ≤ size (pending modules st).
Proof.
  intros H. apply subseteq_size. unfold pending.
  intros k [Hk Hn]%elem_of_difference. apply elem_of_difference. split; [done|].
  intros [m Hm]%elem_of_dom. apply Hn. apply elem_of_dom. by eapply H.
Qed.

Lemma pending_alter f id st :
  size (pending modules (set_installed (alter f id) st)) = size (pending modules st).
Proof. unfold pending. simpl. by rewrite dom_alter_L. Qed.

Lemma execBody_total req id body n :
  keeps req →
  (∀ id st, size (pending modules st) < n → (req id st).2 ≠ OutOfFuel) →
  ∀ st, size (pending modules st) < n → (execBody req id body st).2 ≠ OutOfFuel.
Proof.
  intros Hk Hreq. induction body as [|s body IH]; intros st Hst; [done|].
  destruct s as [v|id'|id'| |]; simpl.
  - apply IH. by rewrite pending_alter.
  - pose proof (Hreq id' st Hst) as H'.
    assert (size (pending modules (req id' st).1) ≤ size (pending modules st)) as Hle.
    { apply pending_mono. intros k m Hm. rewrite (Hk id' st k m Hm). by eexists. }
    destruct (req id' st) as [st' [v|e|]]; simpl in *; try done. apply IH. lia.
  - pose proof (Hreq id' st Hst) as H'.
    assert (size (pending modules (req id' st).1) ≤ size (pending modules st)) as Hle.
    { apply pending_mono. intros k m Hm. rewrite (Hk id' st k m Hm). by eexists. }
    destruct (req id' st) as [st' [v|e|]]; simpl in *; try done. apply IH.
    rewrite pending_alter. lia.
  - by apply IH.
  - done.
Qed.

Lemma require_total fuel : ∀ id st,
  size (pending modules st) < fuel → (require modules fuel id st).2 ≠ OutOfFuel.
Proof.
  induction fuel as [|fuel IH]; intros id st Hst; [lia|].
  simpl. destruct (installedModules st !! id) as [m0|] eqn:Hid; [done|].
  set (st1 := set_installed <[id := Module_ id false (Fresh id)]> st).
  destruct (modules !! id) as [body|] eqn:Hm; [|done].
  assert (size (pending modules (called id st1)) < fuel) as H1.
  { assert (pending modules (called id st1) ⊂ pending modules st) as Hsub.
    { unfold pending. simpl. rewrite dom_insert_L.
      assert (id ∈ dom modules) as Hd1 by (apply elem_of_dom; by eexists).
      assert (id ∉ dom (installedModules st)) as Hd2 by (by apply not_elem_of_dom).
      split.
      - intros k [Hk Hn]%elem_of_difference. apply elem_of_difference. split; [done|].
        intros Hk'. apply Hn. apply elem_of_union. by right.
      - intros Hsub. assert (id ∈ dom modules ∖ ({[id]} ∪ dom (installedModules st))) as Hid'.
        { apply Hsub. by apply elem_of_difference. }
        apply elem_of_difference in Hid' as [_ Hid']. apply Hid'.
        apply elem_of_union. left. by apply elem_of_singleton. }
    apply subset_size in Hsub. lia. }
  pose proof (execBody_total _ id body fuel (require_keeps fuel) IH _ H1) as Hb.
  by destruct (execBody (require modules fuel) id body (called id st1)) as [st2 [[]|e|]].
Qed.


(** X11. A module function that reads [module.l] while it runs, which is
    what a use of [module.loaded] is compiled to, reads [false], whatever
    has been required before and also when the module is reached again
    through a cycle of requires. *)
Theorem running_module_is_not_loaded (fuel : nat) (ids : list N) :
  Forall (λ r, r.2 = Some false) (reads (requireAll modules fuel ids init)).
Proof.
  assert (∀ st, Forall (λ r, r.2 = Some false) (reads st) →
                Forall (λ r, r.2 = Some false) (reads (requireAll modules fuel ids st))) as H.
  { induction ids as [|id ids IH]; intros st Hst; [done|]. simpl. by apply IH, require_reads. }
  apply H. constructor.
Qed.

(** X8. A call of [__webpack_require__] that returns leaves the module
    in the cache with the returned value as its exports; when the module
    was not in the cache before, it is now flagged as loaded. Requiring it
    again returns the same value and changes nothing. *)
Theorem required_module_is_cached (fuel : nat) (id : N) (st st' : state) (v : value) :
  require modules fuel id st = (st', Ok v) →
  (∃ m, installedModules st' !! id = Some m ∧ exports m = v ∧
        (installedModules st !! id = None → i m = id ∧ l m = true)) ∧
  ∀ fuel', require modules (S fuel') id st' = (st', Ok v).
Proof.
  destruct fuel as [|fuel]; [done|]. simpl.
  destruct (installedModules st !! id) as [m0|] eqn:Hid.
  { intros [= <- <-]. split; [by exists m0|]. intros fuel'. simpl. by rewrite Hid. }
  set (st1 := set_installed <[id := Module_ id false (Fresh id)]> st).
  destruct (modules !! id) as [body|]; [|done].
  destruct (execBody_self _ id body (require_keeps fuel) (called id st1)
              (Module_ id false (Fresh id))) as [w Hw].
  { simpl. by rewrite lookup_insert_eq. }
  destruct (execBody (require modules fuel) id body (called id st1)) as [st2 [[]|e|]];
    simpl in *; try done.
  intros [= <- <-]. simpl. rewrite lookup_alter_eq, Hw. simpl.
  split; [by eexists|]. done.
Qed.

(** X9. A call of [__webpack_require__] that throws leaves the module in
    the cache all the same, not flagged as loaded: the module function is
    not tried again, and requiring the module again returns the exports it
    had when the exception was thrown. For a module id without a module
    function the exception is the [TypeError] of the call and the exports
    are the empty object made for the module. *)
Theorem failed_module_stays_cached (fuel : nat) (id : N) (st st' : state) (e : thrown) :
  require modules fuel id st = (st', Throws e) →
  installedModules st !! id = None ∧
  (∃ v, installedModules st' !! id = Some (Module_ id false v) ∧
        (∀ fuel', require modules (S fuel') id st' = (st', Ok v)) ∧
        (modules !! id = None → e = TypeError ∧ v = Fresh id)) ∧
  calls (require modules (S fuel) id st').1 = calls st'.
Proof.
  destruct fuel as [|fuel]; [done|]. simpl.
  destruct (installedModules st !! id) as [m0|] eqn:Hid; [done|].
  set (st1 := set_installed <[id := Module_ id false (Fresh id)]> st).
  destruct (modules !! id) as [body|].
  - destruct (execBody_self _ id body (require_keeps fuel) (called id st1)
                (Module_ id false (Fresh id))) as [w Hw].
    { simpl. by rewrite lookup_insert_eq. }
    destruct (execBody (require modules fuel) id body (called id st1)) as [st2 [[]|e'|]];
      simpl in *; try done.
    intros [= <- <-]. split; [done|]. rewrite Hw. split; [|done].
    exists w. split; [done|]. split; [|done]. done.
  - intros [= <- <-]. split; [done|]. simpl. rewrite lookup_insert_eq. split; [|done].
    exists (Fresh id). split; [done|]. split; [|done]. done.
Qed.

(** X10. [__webpack_require__] terminates, cycles of requires included:
    the nesting of the calls is bounded by the number of modules that have
    a module function and are not in the cache yet. *)
Theorem require_terminates (fuel : nat) (id : N) (st : state) :
  size (pending modules st) < fuel → (require modules fuel id st).2 ≠ OutOfFuel.
Proof. apply require_total. Qed.

End Modules.

(** ** The calls of module functions while chunks add functions *)

Lemma calledOnce_alter modules f id st :
  calledOnce modules st → calledOnce modules (set_installed (alter f id) st).
Proof.
  intros [Hnd Hin]. split; [done|]. intros k Hk. destruct (Hin k Hk) as [Hc Hm].
  split; [|done]. simpl. destruct (decide (k = id)) as [->|Hne].
  - rewrite lookup_alter_eq. by rewrite fmap_is_Some.
  - by rewrite lookup_alter_ne.
Qed.

Lemma execBody_calledOnce modules req id body :
  (∀ id st, calledOnce modules st → calledOnce modules (req id st).1) →
  ∀ st, calledOnce modules st → calledOnce modules (execBody req id body st).1.
Proof.
  intros Hreq. induction body as [|s body IH]; intros st Hst; [done|].
  destruct s as [v|id'|id'| |]; simpl.
  - by apply IH, calledOnce_alter.
  - pose proof (Hreq id' st Hst) as H'.
    destruct (req id' st) as [st' [v|e|]]; simpl in *; try done. by apply IH.
  - pose proof (Hreq id' st Hst) as H'.
    destruct (req id' st) as [st' [v|e|]]; simpl in *; try done.
    by apply IH, calledOnce_alter.
  - by apply IH.
  - done.
Qed.

Lemma require_calledOnce modules fuel : ∀ id st,
  calledOnce modules st → calledOnce modules (require modules fuel id st).1.
Proof.
  induction fuel as [|fuel IH]; intros id st Hst; [done|].
  simpl. destruct (installedModules st !! id) as [m0|] eqn:Hid; [done|].
  set (st1 := set_installed <[id := Module_ id false (Fresh id)]> st).
  destruct Hst as [Hnd Hin].
  assert (id ∉ calls st) as Hnot.
  { intros [[? ?] _]%Hin. congruence. }
  assert (∀ k, k ∈ calls st →
            is_Some (installedModules st1 !! k) ∧ is_Some (modules !! k)) as Hin1.
  { intros k Hk. destruct (Hin k Hk) as [Hc Hm]. split; [|done]. subst st1. simpl.
    destruct (decide (k = id)) as [->|Hne].
    - by rewrite lookup_insert_eq.
    - by rewrite lookup_insert_ne. }
  destruct (modules !! id) as [body|] eqn:Hm; [|by split].
  assert (calledOnce modules (called id st1)) as H2.
  { split; simpl.
    - apply NoDup_app. split; [done|]. split; [|apply NoDup_singleton].
      by intros k Hk ->%list_elem_of_singleton.
    - intros k [Hk| ->%list_elem_of_singleton]%elem_of_app; [by apply Hin1|].
      rewrite lookup_insert_eq, Hm. split; by eexists. }
  pose proof (execBody_calledOnce modules _ id body IH _ H2) as Hb.
  destruct (execBody (require modules fuel) id body (called id st1)) as [st2 [[]|e|]];
    simpl in *; try done.
  by apply calledOnce_alter.
Qed.

Lemma runOps_calledOnce fuel ops : ∀ modules st,
  calledOnce modules st →
  calledOnce (runOps fuel ops modules st).1 (runOps fuel ops modules st).2.
Proof.
  induction ops as [|[id|more] ops IH]; intros modules st Hst; [done|..]; simpl.
  - by apply IH, require_calledOnce.
  - apply IH. destruct Hst as [Hnd Hin]. split; [done|].
    intros k Hk. destruct (Hin k Hk) as [Hc Hm]. split; [done|].
    apply lookup_union_is_Some. by right.
Qed.

Lemma runOps_requireAll fuel ops : ∀ modules st,
  Forall (λ o, ∃ id, o = Req id) ops →
  runOps fuel ops modules st = (modules, requireAll modules fuel (required ops) st).
Proof.
  induction ops as [|o ops IH]; intros modules st Hall; [done|].
  apply Forall_cons in Hall as [[id ->] Hall]. simpl. by apply IH.
Qed.

(** X7. Whatever is required and whatever chunk files add module
    functions in between, in whatever order and however the module
    functions depend on each other (cycles included), no module function
    is called twice, and a module whose function has been called has an
    entry in the cache and a function in [modules]. When no chunk file
    adds functions during the run, the module functions that have been
    called are exactly those of the modules that have an entry in the
    cache. *)
Theorem module_functions_run_at_most_once
    (fuel : nat) (ops : list op) (modules : gmap N (list stmt)) :
  let modules' := (runOps fuel ops modules init).1 in
  let st := (runOps fuel ops modules init).2 in
  NoDup (calls st) ∧
  (∀ id, id ∈ calls st → is_Some (installedModules st !! id) ∧ is_Some (modules' !! id)) ∧
  (Forall (λ o, ∃ id, o = Req id) ops →
   ∀ id, is_Some (installedModules st !! id) → is_Some (modules !! id) → id ∈ calls st).
Proof.
  intros modules' st.
  assert (calledOnce modules' st) as [Hnd Hin].
  { apply runOps_calledOnce. split; [apply NoDup_nil_2|]. by intros id ?%elem_of_nil. }
  split; [done|]. split; [done|].
  intros Hall id Hc Hm. subst st. rewrite (runOps_requireAll _ _ _ _ Hall) in *. simpl in *.
  assert (once modules (requireAll modules fuel (required ops) init)) as [_ Hiff].
  { apply requireAll_once. split; [apply NoDup_nil_2|].
    intros k. simpl. rewrite lookup_empty. split.
    - by intros ?%elem_of_nil.
    - by intros [[? ?] _]. }
  by apply Hiff.
Qed.

(** A module that is required before the chunk with its function has
    arrived: the call throws, the entry stays in the cache, and the
    function that arrives later is never called. *)
Lemma module_functions_run_at_most_once_witness :
  let ops := [Req 0; Req 1; Req 0] in
  let late := [Req 2; Install {[ 2%N := [SetExports (Str "It works")] ]}; Req 2] in
  Forall (λ o, ∃ id, o = Req id) ops ∧
  calls (runOps 3 ops exampleModules init).2 = [0%N; 1%N] ∧
  (0%N ∈ calls (runOps 3 ops exampleModules init).2) ∧
  calls (runOps 3 late exampleModules init).2 = [2%N] ∧
  (require exampleModules 3 2 init).2 = Ok (Str "It works") ∧
  (require ∅ 3 2 init).2 = Throws TypeError ∧
  calls (runOps 3 late ∅ init).2 = [] ∧
  installedModules (runOps 3 late ∅ init).2 !! 2%N = Some (Module_ 2 false (Fresh 2)) ∧
  (runOps 3 late ∅ init).1 !! 2%N = Some [SetExports (Str "It works")].
Proof.
  assert (Forall (λ o, ∃ id, o = Req id) [Req 0; Req 1; Req 0]) as H1.
  { repeat (apply Forall_cons; split; [by eexists|]). apply Forall_nil_2. }
  split; [exact H1|]. split; [vm_compute; reflexivity|]. split.
  - apply (proj2 (proj2 (module_functions_run_at_most_once 3 [Req 0; Req 1; Req 0]
                            exampleModules)) H1 0%N).
    + vm_compute. by eexists.
    + vm_compute. by eexists.
  - repeat split; vm_compute; reflexivity.
Defined.

Lemma required_module_is_cached_witness :
  let st' := (require exampleModules 1 2 init).1 in
  require exampleModules 1 2 init = (st', Ok (Str "It works")) ∧
  require exampleModules 5 2 st' = (st', Ok (Str "It works")).
Proof.
  assert (require exampleModules 1 2 init
          = ((require exampleModules 1 2 init).1, Ok (Str "It works"))) as H
    by (vm_compute; reflexivity).
  split; [exact H|].
  exact (proj2 (required_module_is_cached exampleModules 1 2 init _ _ H) 4).
Defined.

Lemma failed_module_stays_cached_witness :
  let st' := (require cyclicModules 3 0 init).1 in
  installedModules st' !! 0%N = Some (Module_ 0 false (Fresh 0)) ∧
  require cyclicModules 1 0 st' = (st', Ok (Fresh 0)).
Proof.
  assert (require cyclicModules 3 0 init
          = ((require cyclicModules 3 0 init).1, Throws UserError)) as H
    by (vm_compute; reflexivity).
  destruct (failed_module_stays_cached cyclicModules 3 0 init _ _ H)
    as (_ & (v & Hv & Hagain & _) & _).
  assert (v = Fresh 0) as ->.
  { assert (installedModules (require cyclicModules 3 0 init).1 !! 0%N
            = Some (Module_ 0 false (Fresh 0))) as Hc by (vm_compute; reflexivity).
    rewrite Hc in Hv. by injection Hv as <-. }
  split; [exact Hv|exact (Hagain 0)].
Defined.

Lemma require_terminates_witness : (require cyclicModules 4 0 init).2 ≠ OutOfFuel.
Proof.
  apply (require_terminates cyclicModules 4 0 init). vm_compute. lia.
Defined.

End BootstrapFacts.

(* ===================================================================== *)
(** * Facts about [process] *)
(* ===================================================================== *)

Module ProcessFacts.
Import Process.

Lemma seq_ok a b : (seq a b).2 = None ↔ a.2 = None ∧ b.2 = None.
Proof.
  unfold seq. destruct a as [la [e|]]; simpl; [|tauto].
  split; [done|]. by intros [? _].
Qed.

Lemma seq_actions a b : a.2 = None → (seq a b).1 = a.1 ++ b.1.
Proof. unfold seq. by intros ->. Qed.

Lemma seq_thrown a b e : (seq a b).2 = Some e → a.2 = Some e ∨ b.2 = Some e.
Proof.
  unfold seq. destruct a as [la [e'|]]; simpl; [by left|by right].
Qed.

Lemma seqs_ok l : (seqs l).2 = None ↔ Forall (λ s : stretch, s.2 = None) l.
Proof.
  induction l as [|a l IH]; simpl.
  - split; [by constructor|done].
  - rewrite seq_ok, IH, Forall_cons. tauto.
Qed.

Lemma seqs_actions l :
  Forall (λ s : stretch, s.2 = None) l → (seqs l).1 = concat (fst <$> l).
Proof.
  induction l as [|a l IH]; [done|]. intros [Ha Hl]%Forall_cons. simpl.
  rewrite seq_actions by done. by rewrite IH.
Qed.

Lemma seqs_thrown l e : (seqs l).2 = Some e → ∃ s, s ∈ l ∧ s.2 = Some e.
Proof.
  induction l as [|a l IH]; [done|]. simpl.
  intros [H|H]%seq_thrown.
  - exists a. split; [apply list_elem_of_here|done].
  - destruct (IH H) as (s & Hs & He). exists s. split; [by apply list_elem_of_further|done].
Qed.

(** ** The stretches that can throw *)

Ltac member := apply list_elem_of_In; simpl; tauto.

Lemma known_eqb (s : string) (l : list string) (k : string) :
  s ∉ l → k ∈ l → String.eqb s k = false.
Proof. intros Hn Hk. apply String.eqb_neq. by intros ->. Qed.

Lemma applyTarget_ok o :
  (applyTarget o).2 = None ↔
  (∃ f, target o = Func f) ∨ (∃ t, t ∈ supportedTargets ∧ target o = str t).
Proof.
  unfold applyTarget, supportedTargets, str.
  destruct (target o) as [[| |[]| |t]|f|ob|]; simpl.
  1-5,8-9: split; [done|]; intros [[f' ?]|(t & _ & ?)]; done.
  2:{ split; [|done]. intros _. left. by eexists. }
  split.
  - intros H. right. exists t. split; [|done].
    match goal with |- t ∈ ?l => destruct (decide (t ∈ l)) as [|Hn]; [done|] end.
    exfalso. rewrite !(known_eqb _ _ _ Hn) in H by member. done.
  - intros [[f ?]|(t' & Ht & [= ->])]; [done|].
    repeat (apply elem_of_cons in Ht as [->|Ht]; [done|]). by apply elem_of_nil in Ht.
Qed.

Lemma applyDevtool_ok o :
  (applyDevtool o).2 = None ↔ (truthy (devtool o) = true → isString (devtool o) = true).
Proof.
  unfold applyDevtool. destruct (truthy (devtool o)) eqn:Ht; [|done].
  destruct (devtool o) as [[| | | |d]|f|ob|]; simpl; try (split; [done|by intros H; discriminate H]).
  split; [done|]. intros _.
  destruct (includes d "sourcemap" || includes d "source-map"); [done|].
  by destruct (includes d "eval").
Qed.

Lemma moduleIds_ok v :
  (idSwitch (applyModuleIds v [])).2 = None ↔
  (OptionsApply.truthy v = true → ∃ s, s ∈ knownModuleIds ∧ v = OStr s).
Proof.
  unfold applyModuleIds, knownModuleIds. destruct (OptionsApply.truthy v) eqn:Ht; [|done].
  destruct v as [| | | |s]; simpl; try (split; [done|]; intros H; by destruct (H eq_refl) as (? & _ & ?)).
  split.
  - intros H _. exists s. split; [|done].
    match goal with |- s ∈ ?l => destruct (decide (s ∈ l)) as [|Hn]; [done|] end.
    exfalso. rewrite !(known_eqb _ _ _ Hn) in H by member. done.
  - intros H. destruct (H eq_refl) as (s' & Hs & [= ->]).
    repeat (apply elem_of_cons in Hs as [->|Hs]; [done|]). by apply elem_of_nil in Hs.
Qed.

Lemma chunkIds_ok v :
  (idSwitch (applyChunkIds v [])).2 = None ↔
  (OptionsApply.truthy v = true → ∃ s, s ∈ knownChunkIds ∧ v = OStr s).
Proof.
  unfold applyChunkIds, knownChunkIds. destruct (OptionsApply.truthy v) eqn:Ht; [|done].
  destruct v as [| | | |s]; simpl; try (split; [done|]; intros H; by destruct (H eq_refl) as (? & _ & ?)).
  split.
  - intros H _. exists s. split; [|done].
    match goal with |- s ∈ ?l => destruct (decide (s ∈ l)) as [|Hn]; [done|] end.
    exfalso. rewrite !(known_eqb _ _ _ Hn) in H by member. done.
  - intros H. destruct (H eq_refl) as (s' & Hs & [= ->]).
    repeat (apply elem_of_cons in Hs as [->|Hs]; [done|]). by apply elem_of_nil in Hs.
Qed.

Lemma applyCache_ok o :
  (applyCache o).2 = None ↔
  match cache o with
  | Obj _ => cacheType o = OStr "memory" ∨ cacheType o = OStr "filesystem"
  | EmptyObject => False
  | _ => True
  end.
Proof.
  unfold applyCache. destruct (cache o) as [p|f|ob|]; simpl; try done.
  destruct (cacheType o) as [| | | |t]; simpl; try (split; [done|by intros [?|?]]).
  destruct (String.eqb_spec t "memory") as [->|]; [split; [by left|done]|].
  destruct (String.eqb_spec t "filesystem") as [->|]; [split; [by right|done]|].
  split; [done|]. intros [[= ?]|[= ?]]; done.
Qed.

Lemma applyResolvers_ok c :
  (applyResolvers c).2 = None ↔ truthy (inputFileSystem c) = true.
Proof. unfold applyResolvers. simpl. by destruct (truthy (inputFileSystem c)). Qed.


Lemma body_ok o c :
  (body o c).2 = None ↔
  (applyTarget o).2 = None ∧ (applyDevtool o).2 = None ∧
  (idSwitch (applyModuleIds (moduleIds (optimization o)) [])).2 = None ∧
  (idSwitch (applyChunkIds (chunkIds (optimization o)) [])).2 = None ∧
  (applyCache o).2 = None ∧ (applyResolvers c).2 = None.
Proof.
  unfold body. rewrite seqs_ok, !Forall_cons, Forall_nil.
  assert ((applyLibrary o).2 = None) as H1 by (unfold applyLibrary, when; by case_match).
  assert ((applyExternals o).2 = None) as H2 by (unfold applyExternals, when; by case_match).
  assert ((applyLanguage o).2 = None) as H3 by done.
  assert ((applyFlags o).2 = None) as H4 by done.
  assert ((applyMinimizers o).2 = None) as H5 by done.
  tauto.
Qed.

(** X12. [process] returns exactly when the target is a function or one
    of the seven supported names, [devtool] is falsy or a string,
    [moduleIds] and [chunkIds] are falsy or values their switches know,
    [cache] is no object or its type is [memory] or [filesystem], and the
    compiler has an input file system. Every exception it throws is one of
    seven: two for the target, one for [devtool], one for each of the id
    options, one for the cache type, one for the missing file system. *)
Theorem process_returns_exactly_when (o : options) (c : compiler) :
  ((process o c).2 = None ↔
     ((∃ f, target o = Func f) ∨ (∃ t, t ∈ supportedTargets ∧ target o = str t)) ∧
     (truthy (devtool o) = true → isString (devtool o) = true) ∧
     (OptionsApply.truthy (moduleIds (optimization o)) = true →
        ∃ s, s ∈ knownModuleIds ∧ moduleIds (optimization o) = OStr s) ∧
     (OptionsApply.truthy (chunkIds (optimization o)) = true →
        ∃ s, s ∈ knownChunkIds ∧ chunkIds (optimization o) = OStr s) ∧
     match cache o with
     | Obj _ => cacheType o = OStr "memory" ∨ cacheType o = OStr "filesystem"
     | EmptyObject => False
     | _ => True
     end ∧
     truthy (inputFileSystem c) = true) ∧
  (∀ e, (process o c).2 = Some e →
     e = TypeError "options.target is not a function" ∨
     (∃ t, e = Error ("Unsupported target '" +:+ t +:+ "'.")) ∨
     e = TypeError "options.devtool.includes is not a function" ∨
     e = Error ("webpack bug: moduleIds: " +:+ toString (moduleIds (optimization o))
                +:+ " is not implemented") ∨
     e = Error ("webpack bug: chunkIds: " +:+ toString (chunkIds (optimization o))
                +:+ " is not implemented") ∨
     (∃ t, e = Error ("Unknown cache type " +:+ t)) ∨
     e = Error "No input filesystem provided").
Proof.
  split.
  - unfold process. simpl. rewrite body_ok.
    rewrite applyTarget_ok, applyDevtool_ok, moduleIds_ok, chunkIds_ok, applyCache_ok.
    by rewrite applyResolvers_ok.
  - intros e. unfold process. simpl. intros (s & Hs & He)%seqs_thrown.
    repeat (apply elem_of_cons in Hs as [->|Hs]).
    + unfold applyTarget in He.
      destruct (target o) as [[| |[]| |t]|f|ob|]; simpl in He; try (left; congruence).
      * right; left. exists "false". congruence.
      * right; left. exists t.
        repeat match type of He with
               | context [if ?b then _ else _] => destruct b; try done
               end.
        simpl in He. congruence.
    + unfold applyLibrary, when in He. by case_match.
    + unfold applyExternals, when in He. by case_match.
    + unfold applyDevtool in He. destruct (truthy (devtool o)); [|done].
      destruct (devtool o) as [[| | | |d]|f|ob|]; simpl in He;
        try (right; right; left; congruence).
      destruct (includes d "sourcemap" || includes d "source-map"); [done|].
      by destruct (includes d "eval").
    + done.
    + done.
    + do 3 right. left. unfold applyModuleIds in He.
      destruct (OptionsApply.truthy (moduleIds (optimization o))); [|done].
      destruct (moduleIds (optimization o)) as [| | | |s']; simpl in He;
        try (injection He as <-; reflexivity).
      repeat match type of He with
             | context [if ?b then _ else _] => destruct b; try done
             end.
      simpl in He. by injection He as <-.
    + do 4 right. left. unfold applyChunkIds in He.
      destruct (OptionsApply.truthy (chunkIds (optimization o))); [|done].
      destruct (chunkIds (optimization o)) as [| | | |s']; simpl in He;
        try (injection He as <-; reflexivity).
      repeat match type of He with
             | context [if ?b then _ else _] => destruct b; try done
             end.
      simpl in He. by injection He as <-.
    + done.
    + do 5 right. left. unfold applyCache in He.
      destruct (cache o) as [p|f|ob|]; simpl in He; try done.
      * exists (toString (cacheType o)).
        destruct (cacheType o) as [| | | |t]; simpl in He;
          try (injection He as <-; reflexivity).
        repeat match type of He with
               | context [if ?b then _ else _] => destruct b; try done
               end.
        simpl in He. by injection He as <-.
      * exists "undefined". congruence.
    + do 6 right. unfold applyResolvers in He. simpl in He.
      destruct (truthy (inputFileSystem c)); [done|]. simpl in He. congruence.
    + by apply elem_of_nil in Hs.
Qed.


(** ** Counting the plugins *)

Lemma classes_app a b : classes (a ++ b) = classes a ++ classes b.
Proof. apply omap_app. Qed.

Lemma applied_app n a b : applied n (a ++ b) = applied n a + applied n b.
Proof. unfold applied. by rewrite List.filter_app, length_app. Qed.

Lemma applied_zero n l : n ∉ classes l → applied n l = 0.
Proof.
  induction l as [|a l IH]; [done|]. intros Hn.
  change (a :: l) with ([a] ++ l) in *. rewrite classes_app in Hn. rewrite applied_app.
  rewrite IH by (intros ?; apply Hn, elem_of_app; by right).
  destruct a as [p| | | | | |]; try done.
  unfold applied. simpl. destruct (String.eqb_spec (className p) n) as [<-|]; [|done].
  destruct Hn. apply elem_of_app. left. apply list_elem_of_here.
Qed.

Lemma applied_ge n l : n ∈ classes l → 1 ≤ applied n l.
Proof.
  induction l as [|a l IH]; [by intros ?%elem_of_nil|].
  change (a :: l) with ([a] ++ l). rewrite classes_app, applied_app.
  intros [Hn|Hn]%elem_of_app; [|apply IH in Hn; lia].
  destruct a as [p| | | | | |]; try (by apply elem_of_nil in Hn).
  apply list_elem_of_singleton in Hn as ->. unfold applied at 1. simpl.
  rewrite String.eqb_refl. simpl. lia.
Qed.

Lemma applied_le n l : NoDup (classes l) → applied n l ≤ 1.
Proof.
  induction l as [|a l IH]; [unfold applied; simpl; lia|].
  change (a :: l) with ([a] ++ l). rewrite classes_app, applied_app.
  destruct a as [p| | | | | |];
    try (change (applied n [_]) with 0; simpl; intros H; apply IH in H; lia).
  simpl. intros [Hp Hl]%NoDup_cons.
  assert (applied n [Apply p] = if String.eqb (className p) n then 1 else 0) as ->.
  { unfold applied. simpl. by destruct (String.eqb (className p) n). }
  destruct (String.eqb_spec (className p) n) as [<-|]; simpl; [|by apply IH].
  rewrite applied_zero by done. lia.
Qed.

Lemma later_actions o c :
  concat (fst <$> later o c) =
  (applyLibrary o).1 ++ (applyExternals o).1 ++ (applyDevtool o).1 ++ (applyLanguage o).1 ++
  (applyFlags o).1 ++ (idSwitch (applyModuleIds (moduleIds (optimization o)) [])).1 ++
  (idSwitch (applyChunkIds (chunkIds (optimization o)) [])).1 ++
  (applyMinimizers o).1 ++ (applyCache o).1 ++ (applyResolvers c).1.
Proof. unfold later. cbn [fmap list_fmap concat]. by rewrite app_nil_r. Qed.

Ltac sub := repeat first [apply sublist_nil_l | apply sublist_skip | apply sublist_cons].

(** The classes applied after the [switch] over the target are taken
    from [laterClasses], in that order. *)
Lemma later_classes o c :
  classes (concat (fst <$> later o c)) `sublist_of` laterClasses.
Proof.
  rewrite later_actions, !classes_app.
  change laterClasses with
    (["LibraryTemplatePlugin"] ++ ["ExternalsPlugin"] ++
     ["EvalSourceMapDevToolPlugin"; "SourceMapDevToolPlugin"; "EvalDevToolModulePlugin"] ++
     ["JavascriptModulesPlugin"; "JsonModulesPlugin"; "WebAssemblyModulesPlugin";
      "EntryOptionPlugin"; "RuntimePlugin"; "CompatibilityPlugin"; "HarmonyModulesPlugin";
      "AMDPlugin"; "CommonJsPlugin"; "LoaderPlugin"; "NodeStuffPlugin";
      "RequireJsStuffPlugin"; "APIPlugin"; "ConstPlugin"; "UseStrictPlugin";
      "RequireIncludePlugin"; "RequireEnsurePlugin"; "RequireContextPlugin"; "ImportPlugin";
      "SystemPlugin"; "DefaultStatsFactoryPlugin"; "DefaultStatsPresetPlugin";
      "DefaultStatsPrinterPlugin"; "WarnNoModeSetPlugin"; "EnsureChunkConditionsPlugin"] ++
     (["RemoveParentModulesPlugin"] ++ ["RemoveEmptyChunksPlugin"] ++
      ["MergeDuplicateChunksPlugin"] ++ ["FlagIncludedChunksPlugin"] ++
      ["SideEffectsFlagPlugin"] ++ ["FlagDependencyExportsPlugin"] ++
      ["FlagDependencyUsagePlugin"] ++ ["ModuleConcatenationPlugin"] ++
      ["SplitChunksPlugin"] ++ ["RuntimeChunkPlugin"] ++ ["NoEmitOnErrorsPlugin"] ++
      ["WasmFinalizeExportsPlugin"]) ++
     ["NaturalModuleIdsPlugin"; "NamedModuleIdsPlugin"; "WarnDeprecatedOptionPlugin";
      "HashedModuleIdsPlugin"; "DeterministicModuleIdsPlugin"; "OccurrenceModuleIdsPlugin"] ++
     ["NaturalChunkIdsPlugin"; "NamedChunkIdsPlugin"; "DeterministicChunkIdsPlugin";
      "OccurrenceChunkIdsPlugin"] ++
     (["DefinePlugin"] ++ [] ++ ["SizeLimitsPlugin"] ++
      ["TemplatedPathPlugin"; "RecordIdsPlugin"; "WarnCaseSensitiveModulesPlugin"]) ++
     ["MemoryCachePlugin"; "FileCachePlugin"] ++
     ["ResolverCachePlugin"]).
  apply sublist_app; [unfold applyLibrary, when; case_match; simpl; sub|].
  apply sublist_app; [unfold applyExternals, when; case_match; simpl; sub|].
  apply sublist_app; [unfold applyDevtool; repeat case_match; simpl; sub|].
  apply sublist_app; [unfold applyLanguage; simpl; case_match; simpl; sub|].
  apply sublist_app.
  { unfold applyFlags. cbn [fst done_]. rewrite !classes_app.
    do 11 (apply sublist_app; [case_match; simpl; sub|]). case_match; simpl; sub. }
  apply sublist_app; [unfold applyModuleIds; repeat case_match; simpl; sub|].
  apply sublist_app; [unfold applyChunkIds; repeat case_match; simpl; sub|].
  apply sublist_app.
  { unfold applyMinimizers. cbn [fst done_]. rewrite !classes_app.
    apply sublist_app; [case_match; simpl; sub|].
    apply sublist_app.
    { case_match; [|sub]. induction (minimizer (optimization o)) as [|m ms IH]; [sub|done]. }
    apply sublist_app; [case_match; simpl; sub|]. simpl. sub. }
  apply sublist_app; [unfold applyCache; repeat case_match; simpl; sub|].
  unfold applyResolvers. simpl. case_match; simpl; sub.
Qed.


Lemma body_actions o c :
  (body o c).2 = None → (body o c).1 = (applyTarget o).1 ++ concat (fst <$> later o c).
Proof.
  intros H. unfold body in *. apply seqs_ok in H. by rewrite (seqs_actions _ H).
Qed.

Lemma NoDup_laterClasses : NoDup laterClasses.
Proof. apply (bool_decide_unpack _). by vm_compute. Qed.

Lemma target_classes o :
  NoDup (classes (applyTarget o).1) ∧ ∀ x, x ∈ classes (applyTarget o).1 → x ∈ targetClasses.
Proof.
  unfold applyTarget. repeat case_match; simpl.
  all: split; [apply (bool_decide_unpack _); by vm_compute|].
  all: intros x Hx; repeat (apply elem_of_cons in Hx as [->|Hx]; [member|]).
  all: by apply elem_of_nil in Hx.
Qed.

Lemma later_applied n o c : applied n (concat (fst <$> later o c)) ≤ 1.
Proof.
  apply applied_le. eapply sublist_NoDup; [apply NoDup_laterClasses|apply later_classes].
Qed.

Lemma later_zero n o c : n ∉ laterClasses → applied n (concat (fst <$> later o c)) = 0.
Proof.
  intros Hn. apply applied_zero. intros Hin. apply Hn.
  eapply elem_of_sublist; [done|apply later_classes].
Qed.

Lemma Forall_plain_flag (b : bool) p : Forall plain (if b then [Apply p] else []).
Proof. destruct b; repeat constructor. Qed.

Lemma plain_library o : Forall plain (applyLibrary o).1.
Proof. unfold applyLibrary, when. case_match; repeat constructor. Qed.

Lemma plain_externals o : Forall plain (applyExternals o).1.
Proof. unfold applyExternals, when. case_match; repeat constructor. Qed.

Lemma plain_devtool o : Forall plain (applyDevtool o).1.
Proof. unfold applyDevtool. repeat case_match; repeat constructor. Qed.

Lemma plain_flags o : Forall plain (applyFlags o).1.
Proof.
  unfold applyFlags. cbn [fst done_].
  do 11 (apply Forall_app; split; [apply Forall_plain_flag|]). apply Forall_plain_flag.
Qed.

Lemma plain_ids r : Forall plain (idSwitch r).1.
Proof.
  destruct r as [ps|msg]; simpl; [|constructor].
  induction ps as [|p ps IH]; constructor; done.
Qed.

Lemma plain_minimizers o : Forall plain (applyMinimizers o).1.
Proof.
  unfold applyMinimizers. cbn [fst done_].
  apply Forall_app; split; [apply Forall_plain_flag|].
  apply Forall_app; split.
  { case_match; [|constructor]. apply Forall_fmap. by apply Forall_true. }
  apply Forall_app; split; [apply Forall_plain_flag|]. repeat constructor.
Qed.

Lemma plain_cache o : Forall plain (applyCache o).1.
Proof. unfold applyCache. repeat case_match; repeat constructor. Qed.


Lemma later_plain o c :
  truthy (inputFileSystem c) = true →
  ∃ mid, concat (fst <$> later o c) =
         (applyLibrary o).1 ++ (applyExternals o).1 ++ (applyDevtool o).1 ++
         [Apply JavascriptModulesPlugin; Apply JsonModulesPlugin;
          Apply (WebAssemblyModulesPlugin (mangleWasmImports (optimization o)));
          Apply EntryOptionPlugin; EntryOption (context o) (entry o)] ++ mid ++
         [Apply ResolverCachePlugin; AfterPlugins; TapResolveOptions "normal";
          TapResolveOptions "context"; TapResolveOptions "loader"; AfterResolvers] ∧
         Forall plain mid ∧
         Forall plain ((applyLibrary o).1 ++ (applyExternals o).1 ++ (applyDevtool o).1).
Proof.
  intros Hfs. rewrite later_actions.
  exists (drop 5 (applyLanguage o).1 ++ (applyFlags o).1
          ++ (idSwitch (applyModuleIds (moduleIds (optimization o)) [])).1
          ++ (idSwitch (applyChunkIds (chunkIds (optimization o)) [])).1
          ++ (applyMinimizers o).1 ++ (applyCache o).1).
  assert ((applyResolvers c).1 =
          [Apply ResolverCachePlugin; AfterPlugins; TapResolveOptions "normal";
           TapResolveOptions "context"; TapResolveOptions "loader"; AfterResolvers]) as ->.
  { unfold applyResolvers. by rewrite Hfs. }
  assert ((applyLanguage o).1 =
          [Apply JavascriptModulesPlugin; Apply JsonModulesPlugin;
           Apply (WebAssemblyModulesPlugin (mangleWasmImports (optimization o)));
           Apply EntryOptionPlugin; EntryOption (context o) (entry o)]
          ++ drop 5 (applyLanguage o).1) as Hlang by done.
  split; [|split].
  - rewrite Hlang at 1. by rewrite <- !app_assoc.
  - apply Forall_app. split.
    { unfold applyLanguage. cbn [fst done_ drop app]. repeat (constructor; [done|]).
      case_match; repeat constructor. }
    apply Forall_app. split; [apply plain_flags|].
    apply Forall_app. split; [apply plain_ids|].
    apply Forall_app. split; [apply plain_ids|].
    apply Forall_app. split; [apply plain_minimizers|apply plain_cache].
  - apply Forall_app. split; [apply plain_library|].
    apply Forall_app. split; [apply plain_externals|apply plain_devtool].
Qed.

Lemma plain_target o : Forall plain (applyTarget o).1.
Proof. unfold applyTarget. repeat case_match; repeat constructor. Qed.

Lemma process_body o c :
  (process o c).2 = (body o c).2 ∧ log (process o c).1 = log c ++ (body o c).1.
Proof. done. Qed.

Lemma class_of_applied p l : Apply p ∈ l → className p ∈ classes l.
Proof. intros H. apply list_elem_of_omap. by exists (Apply p). Qed.

Lemma always_later o c n :
  truthy (inputFileSystem c) = true → n ∈ always →
  n ∈ classes (concat (fst <$> later o c)).
Proof.
  intros Hfs Hn. rewrite later_actions, !classes_app, !elem_of_app.
  assert (n ∈ classes (applyLanguage o).1 ∨ n ∈ classes (applyMinimizers o).1 ∨
          n ∈ classes (applyResolvers c).1) as [H|[H|H]]; [|tauto..].
  unfold always in Hn.
  do 24 (apply elem_of_cons in Hn as [->|Hn];
         [left; unfold applyLanguage; cbn [fst done_]; rewrite !classes_app, !elem_of_app;
          first [left; member | right; right; member]|]).
  do 3 (apply elem_of_cons in Hn as [->|Hn];
        [right; left; unfold applyMinimizers; cbn [fst done_];
         rewrite !classes_app, !elem_of_app; do 3 right; member|]).
  apply elem_of_cons in Hn as [->|Hn]; [|by apply elem_of_nil in Hn].
  right; right. unfold applyResolvers. rewrite Hfs. simpl. member.
Qed.

(** X13. When [process] returns, every plugin it applies whatever the
    options are has been applied exactly once, no class of plugins other
    than [ExternalsPlugin] has been applied twice, the hook [entryOption] is
    called right after [EntryOptionPlugin] is applied, and no plugin is
    applied after the hook [afterPlugins] has been called: the end of the
    run is [ResolverCachePlugin], [afterPlugins], the three taps into
    [resolveOptions], [afterResolvers], and no hook is called before it
    except [entryOption]. *)
Theorem plugins_are_applied_before_the_hooks (o : options) (c : compiler) :
  (process o c).2 = None → log c = [] →
  let l := log (process o c).1 in
  (∀ n, n ∈ always → applied n l = 1) ∧
  (∀ n, n ≠ "ExternalsPlugin" → applied n l ≤ 1) ∧
  ∃ pre mid,
    l = pre ++ [Apply EntryOptionPlugin; EntryOption (context o) (entry o)] ++ mid ++
        [Apply ResolverCachePlugin; AfterPlugins; TapResolveOptions "normal";
         TapResolveOptions "context"; TapResolveOptions "loader"; AfterResolvers] ∧
    Forall plain pre ∧ Forall plain mid.
Proof.
  destruct (process_body o c) as [-> ->]. intros Hok ->. rewrite app_nil_l.
  pose proof Hok as Hfs. apply body_ok in Hfs as (_ & _ & _ & _ & _ & Hfs).
  apply applyResolvers_ok in Hfs.
  rewrite (body_actions _ _ Hok). cbv zeta.
  destruct (target_classes o) as [Hnd Hsub].
  split; [|split].
  - intros n Hn. rewrite applied_app.
    assert (n ∉ targetClasses) as Hout.
    { revert n Hn. apply (proj1 (Forall_forall (λ n, n ∉ targetClasses) always)).
      apply (bool_decide_unpack _). by vm_compute. }
    rewrite applied_zero by (intros Hc; exact (Hout (Hsub _ Hc))).
    pose proof (later_applied n o c). pose proof (applied_ge _ _ (always_later o c n Hfs Hn)).
    lia.
  - intros n Hn. rewrite applied_app.
    destruct (decide (n ∈ classes (applyTarget o).1)) as [Hin|Hout].
    + rewrite later_zero; [pose proof (applied_le n _ Hnd); lia|].
      apply Hsub in Hin. revert n Hin Hn.
      apply (proj1 (Forall_forall (λ n, n ≠ "ExternalsPlugin" → n ∉ laterClasses)
                      targetClasses)).
      apply (bool_decide_unpack _). by vm_compute.
    + rewrite applied_zero by done. apply later_applied.
  - destruct (later_plain o c Hfs) as (mid & -> & Hmid & Hpre).
    exists ((applyTarget o).1 ++ ((applyLibrary o).1 ++ (applyExternals o).1 ++ (applyDevtool o).1)
            ++ [Apply JavascriptModulesPlugin; Apply JsonModulesPlugin;
                Apply (WebAssemblyModulesPlugin (mangleWasmImports (optimization o)))]), mid.
    split; [|split; [|done]].
    + rewrite <- !app_assoc. reflexivity.
    + apply Forall_app. split; [apply plain_target|].
      apply Forall_app. split; [done|]. repeat constructor.
Qed.


Lemma process_returns_exactly_when_witness : (process webOptions someCompiler).2 = None.
Proof.
  apply (proj2 (proj1 (process_returns_exactly_when webOptions someCompiler))).
  split; [right; exists "web"; split; [member|reflexivity]|].
  split; [discriminate|].
  split; [intros _; exists "deterministic"; split; [member|reflexivity]|].
  split; [intros _; exists "deterministic"; split; [member|reflexivity]|].
  split; [exact I|reflexivity].
Defined.

Lemma plugins_are_applied_before_the_hooks_witness :
  applied "NodeStuffPlugin" (log (process webOptions someCompiler).1) = 1.
Proof.
  assert ((process webOptions someCompiler).2 = None) as H by (vm_compute; reflexivity).
  apply (proj1 (plugins_are_applied_before_the_hooks webOptions someCompiler H eq_refl)).
  member.
Defined.

(** X14. When [process] returns for a target given by name, exactly one
    plugin that renders chunks has been applied: [NodeTemplatePlugin] for
    [node], [async-node] and [electron-main] (with asynchronous chunk
    loading for the last two), [WebWorkerTemplatePlugin] for [webworker],
    [JsonpTemplatePlugin] otherwise. [FunctionModulePlugin] and
    [LoaderTargetPlugin] have been applied once, the latter with the target,
    except that [async-node] is handed on as [node]; [NodeTargetPlugin] has
    been applied for every target but [web] and [webworker]. *)
Theorem target_selects_the_chunk_template (o : options) (c : compiler) (t : string) :
  target o = str t → (process o c).2 = None → log c = [] →
  let l := log (process o c).1 in
  applied "JsonpTemplatePlugin" l + applied "WebWorkerTemplatePlugin" l
    + applied "NodeTemplatePlugin" l = 1 ∧
  applied "NodeTemplatePlugin" l =
    (if bool_decide (t ∈ ["node"; "async-node"; "electron-main"]) then 1 else 0) ∧
  applied "WebWorkerTemplatePlugin" l = (if bool_decide (t = "webworker") then 1 else 0) ∧
  (∀ b, Apply (NodeTemplatePlugin b) ∈ l → b = bool_decide (t ≠ "node")) ∧
  applied "FunctionModulePlugin" l = 1 ∧
  applied "LoaderTargetPlugin" l = 1 ∧
  (∀ v, Apply (LoaderTargetPlugin v) ∈ l →
        v = str (if bool_decide (t = "async-node") then "node" else t)) ∧
  applied "NodeTargetPlugin" l = (if bool_decide (t ∈ ["web"; "webworker"]) then 0 else 1).
Proof.
  destruct (process_body o c) as [-> ->]. intros Ht Hok ->. rewrite app_nil_l.
  rewrite (body_actions _ _ Hok).
  apply body_ok in Hok as (Hok & _). apply applyTarget_ok in Hok as [[f Hf]|(t' & Hin & Ht')].
  { rewrite Ht in Hf. discriminate. }
  rewrite Ht in Ht'. injection Ht' as <-.
  assert (∀ n, n ∈ ["JsonpTemplatePlugin"; "WebWorkerTemplatePlugin"; "NodeTemplatePlugin";
                    "FunctionModulePlugin"; "LoaderTargetPlugin"; "NodeTargetPlugin"] →
               ∀ T, applied n (T ++ concat (fst <$> later o c)) = applied n T) as Hcount.
  { intros n Hn T. rewrite applied_app, later_zero; [lia|]. revert n Hn.
    apply (proj1 (Forall_forall (λ n, n ∉ laterClasses) _)).
    apply (bool_decide_unpack _). by vm_compute. }
  assert (∀ p T, Apply p ∈ T ++ concat (fst <$> later o c) →
            className p ∈ ["NodeTemplatePlugin"; "LoaderTargetPlugin"] → Apply p ∈ T) as Hmem.
  { intros p T [H|H]%elem_of_app Hp; [done|]. exfalso.
    apply class_of_applied in H. pose proof (elem_of_sublist _ _ _ H (later_classes o c)) as H'.
    revert Hp H'. generalize (className p). intros n Hn. revert n Hn.
    apply (proj1 (Forall_forall (λ n, n ∈ laterClasses → False) _)).
    apply (bool_decide_unpack _). by vm_compute. }
  cbv zeta. rewrite !Hcount by member.
  unfold supportedTargets in Hin.
  repeat (apply elem_of_cons in Hin as [->|Hin]); [..|by apply elem_of_nil in Hin].
  all: unfold applyTarget; rewrite Ht; cbn [String.eqb Ascii.eqb Bool.eqb orb fst done_].
  all: refine (conj _ (conj _ (conj _ (conj _ (conj _ (conj _ (conj _ _))))))).
  all: try (vm_compute; reflexivity).
  all: intros x Hx; apply Hmem in Hx; [|member].
  all: repeat (apply elem_of_cons in Hx as [Hx|Hx]; [try discriminate Hx|]).
  all: try (by apply elem_of_nil in Hx).
  all: try (injection Hx as ->; rewrite ?Ht; reflexivity).
Qed.

Lemma target_selects_the_chunk_template_witness :
  let o := withTarget (str "async-node") webOptions in
  applied "NodeTemplatePlugin" (log (process o someCompiler).1) = 1 ∧
  applied "LoaderTargetPlugin" (log (process o someCompiler).1) = 1.
Proof.
  assert ((process (withTarget (str "async-node") webOptions) someCompiler).2 = None) as H
    by (vm_compute; reflexivity).
  pose proof (target_selects_the_chunk_template (withTarget (str "async-node") webOptions)
                someCompiler "async-node" eq_refl H eq_refl) as T.
  split; [exact (proj1 (proj2 T))|].
  exact (proj1 (proj2 (proj2 (proj2 (proj2 (proj2 T)))))).
Defined.

Lemma seqs_last l1 b e :
  (seqs (l1 ++ [b])).2 = Some e →
  (∃ s, s ∈ l1 ∧ s.2 = Some e) ∨
  (Forall (λ s : stretch, s.2 = None) l1 ∧ b.2 = Some e ∧
   (seqs (l1 ++ [b])).1 = concat (fst <$> l1) ++ b.1).
Proof.
  induction l1 as [|a l1 IH]; simpl.
  - unfold seq. destruct b as [lb [eb|]]; simpl; [|done].
    intros [= <-]. right. by repeat split.
  - unfold seq at 1 2. destruct a as [la [ea|]]; simpl.
    + intros [= <-]. left. exists (la, Some ea). split; [apply list_elem_of_here|done].
    + intros [(s & Hs & He)|(Hall & Hb & Hact)]%IH.
      * left. exists s. split; [by apply list_elem_of_further|done].
      * right. split; [by constructor|]. split; [done|]. by rewrite Hact, app_assoc.
Qed.

(** X20. Where [process] fails. The four fields of the compiler are
    assigned whatever happens. With a target it does not support,
    [process] throws before anything is applied to the compiler. A compiler
    without input file system is found out last: when that error is thrown
    every other check has passed, the plugins have been applied and
    [afterPlugins] has been called, and nothing has been tapped into
    [resolveOptions]. *)
Theorem process_failure_points (o : options) (c : compiler) :
  (outputPath (process o c).1 = path (output o) ∧ c_name (process o c).1 = name o ∧
   c_recordsInputPath (process o c).1 = or (recordsInputPath o) (recordsPath o) ∧
   c_recordsOutputPath (process o c).1 = or (recordsOutputPath o) (recordsPath o)) ∧
  (∀ e, (applyTarget o).2 = Some e →
     (process o c).2 = Some e ∧ log (process o c).1 = log c) ∧
  ((process o c).2 = Some (Error "No input filesystem provided") →
     truthy (inputFileSystem c) = false ∧
     ∃ pre, log (process o c).1 = log c ++ pre ++ [Apply ResolverCachePlugin; AfterPlugins] ∧
            Forall (λ a, plain a ∨ a = EntryOption (context o) (entry o)) pre).
Proof.
  split; [done|]. destruct (process_body o c) as [-> ->]. split.
  - intros e He. unfold body. cbn [seqs]. unfold seq at 1 12. rewrite He.
    assert ((applyTarget o).1 = []) as ->.
    { unfold applyTarget in *. repeat case_match; simpl in *; done. }
    by rewrite app_nil_r.
  - unfold body.
    change [applyTarget o; applyLibrary o; applyExternals o; applyDevtool o;
            applyLanguage o; applyFlags o;
            idSwitch (applyModuleIds (moduleIds (optimization o)) []);
            idSwitch (applyChunkIds (chunkIds (optimization o)) []);
            applyMinimizers o; applyCache o; applyResolvers c]
      with ([applyTarget o; applyLibrary o; applyExternals o; applyDevtool o;
             applyLanguage o; applyFlags o;
             idSwitch (applyModuleIds (moduleIds (optimization o)) []);
             idSwitch (applyChunkIds (chunkIds (optimization o)) []);
             applyMinimizers o; applyCache o] ++ [applyResolvers c]).
    intros [(s & Hs & He)|(Hall & Hb & ->)]%seqs_last.
    + exfalso.
      repeat (apply elem_of_cons in Hs as [->|Hs]).
      * unfold applyTarget in He. repeat case_match; simpl in He; done.
      * unfold applyLibrary, when in He. by case_match.
      * unfold applyExternals, when in He. by case_match.
      * unfold applyDevtool in He. repeat case_match; simpl in He; done.
      * done.
      * done.
      * unfold applyModuleIds in He. repeat case_match; simpl in He; done.
      * unfold applyChunkIds in He. repeat case_match; simpl in He; done.
      * done.
      * unfold applyCache in He. repeat case_match; simpl in He; done.
      * by apply elem_of_nil in Hs.
    + unfold applyResolvers in *. simpl in Hb.
      destruct (truthy (inputFileSystem c)); [done|]. split; [done|].
      eexists. split; [reflexivity|].
      cbn [fmap list_fmap concat]. rewrite app_nil_r.
      assert (∀ l, Forall plain l →
                Forall (λ a, plain a ∨ a = EntryOption (context o) (entry o)) l) as Hp.
      { intros l Hl. eapply Forall_impl; [exact Hl|]. intros a Ha. by left. }
      apply Forall_app; split; [apply Hp, plain_target|].
      apply Forall_app; split; [apply Hp, plain_library|].
      apply Forall_app; split; [apply Hp, plain_externals|].
      apply Forall_app; split; [apply Hp, plain_devtool|].
      apply Forall_app; split.
      { unfold applyLanguage. cbn [fst done_ app].
        do 4 (constructor; [left; exact I|]). constructor; [by right|].
        repeat (constructor; [left; exact I|]).
        case_match; repeat (constructor; [left; exact I|]); constructor. }
      apply Forall_app; split; [apply Hp, plain_flags|].
      apply Forall_app; split; [apply Hp, plain_ids|].
      apply Forall_app; split; [apply Hp, plain_ids|].
      apply Forall_app; split; [apply Hp, plain_minimizers|].
      apply Hp, plain_cache.
Qed.

Lemma process_failure_points_witness :
  (process webOptions (Compiler undefined undefined undefined undefined undefined [])).2
  = Some (Error "No input filesystem provided") ∧
  truthy (inputFileSystem (Compiler undefined undefined undefined undefined undefined [])) = false.
Proof.
  assert ((process webOptions (Compiler undefined undefined undefined undefined undefined [])).2
          = Some (Error "No input filesystem provided")) as H by (vm_compute; reflexivity).
  split; [exact H|].
  exact (proj1 (proj2 (proj2 (process_failure_points webOptions
           (Compiler undefined undefined undefined undefined undefined []))) H)).
Defined.

End ProcessFacts.

(* ===================================================================== *)
(** * More about the eval source map hook *)
(* ===================================================================== *)

Module EvalSourceMapCache.
Import EvalSourceMap EvalSourceMapFacts.

Section Cache.

Variable matchModule : string → bool.
Variable findModule : string → option string.
Variable createFilename : moduleOrSource → string → string → string.
Variable stringifyMap : sourceMap → string.
Variable stringifyString : string → string.

(** X15. The hook always has a result (the data URI it puts into the
    comment holds no [$], so it is inserted as it is). It leaves the cache
    as it is when it hands the source back unchanged, and adds one entry
    when it renders;
    entries are never replaced. Once a source has been rendered, every
    later call for that source, whatever the module and the options of the
    call, returns the text rendered first and leaves the cache alone. *)
Theorem module_hook_renders_a_source_once
    (o : pluginOptions) (cache : gmap nat string) (src : source) (m : module) :
  let cache' := (moduleHook matchModule findModule createFilename stringifyMap stringifyString o cache src m).1 in
  (∃ r, (moduleHook matchModule findModule createFilename stringifyMap stringifyString o cache src m).2 = Some r ∧
        (r = Unchanged → cache' = cache) ∧
        (∀ t, r = Raw t →
           cache' !! sid src = Some t ∧
           ∀ o' src' m', sid src' = sid src → moduleHook matchModule findModule createFilename stringifyMap stringifyString o' cache' src' m' = (cache', Some (Raw t)))) ∧
  (∀ k t, cache !! k = Some t → cache' !! k = Some t).
Proof.
  unfold moduleHook. destruct (cache !! sid src) as [t0|] eqn:Hc; simpl.
  { split; [|done]. exists (Raw t0). split; [done|]. split; [done|].
    intros t [= <-]. split; [done|]. intros o' src' m' ->. by rewrite Hc. }
  destruct (isNormalModule m); simpl.
  2:{ split; [|done]. exists Unchanged. by repeat split. }
  destruct (matchModule (resource m)); simpl.
  2:{ split; [|done]. exists Unchanged. by repeat split. }
  destruct (srcMap src) as [sm|]; simpl.
  2:{ split; [|done]. exists Unchanged. by repeat split. }
  rewrite footer_spec. simpl. split.
  - eexists. split; [done|]. split; [done|]. intros t [= <-].
    rewrite lookup_insert_eq. split; [done|]. intros o' src' m' ->.
    by rewrite lookup_insert_eq.
  - intros k t Hk. rewrite lookup_insert_ne; [done|]. intros <-. congruence.
Qed.

End Cache.

Lemma module_hook_renders_a_source_once_witness :
  let hook := moduleHook (λ _, true) (λ _, None) (λ md _ _, "x") (λ _, "{}") (λ s, s) in
  let o := PluginOptions None None None None in
  let cache := {[ 7 := "eval(1);" ]} : gmap nat string in
  (hook o cache (Source 7 None "a") (Module_ true "./a.js" "2")).1 !! 7 = Some "eval(1);".
Proof.
  apply (proj2 (module_hook_renders_a_source_once (λ _, true) (λ _, None) (λ md _ _, "x")
                  (λ _, "{}") (λ s, s) (PluginOptions None None None None)
                  {[ 7 := "eval(1);" ]} (Source 7 None "a") (Module_ true "./a.js" "2")) 7).
  vm_compute; reflexivity.
Defined.

(** X16. Without [append] in the options (or with an empty or false one)
    the footer is the default comment with the data URI put in, followed
    by the line for the module id: only [[url]] is filled in, the
    [[module]] of the default comment stays as it is. *)
Theorem footer_of_the_default_comment (o : pluginOptions) (json moduleId : string) :
  append o = None ∨ append o = Some "" →
  footer (sourceMapCommentOf o) json moduleId =
  Some ("//# sourceURL=[module]" +:+ nl +:+
        "//# sourceMappingURL=data:application/json;charset=utf-8;base64," +:+ base64 json +:+ nl +:+
        "//# sourceURL=webpack-internal:///" +:+ moduleId +:+ nl).
Proof.
  intros Ha. rewrite footer_spec. f_equal.
  assert (replacePlaceholder (dataUri json) (sourceMapCommentOf o) =
          "//# sourceURL=[module]" +:+ nl +:+ "//# sourceMappingURL=" +:+ dataUri json +:+ "")
    as ->.
  { unfold sourceMapCommentOf. by destruct Ha as [-> | ->]. }
  rewrite sapp_nil_r. unfold dataUri, dataUriPrefix. rewrite !sapp_assoc. reflexivity.
Qed.

Lemma footer_of_the_default_comment_witness :
  footer (sourceMapCommentOf (PluginOptions None None None None)) "{}" "2" =
  Some ("//# sourceURL=[module]" +:+ nl +:+
        "//# sourceMappingURL=data:application/json;charset=utf-8;base64,e30=" +:+ nl +:+
        "//# sourceURL=webpack-internal:///2" +:+ nl).
Proof.
  exact (footer_of_the_default_comment (PluginOptions None None None None) "{}" "2"
           (or_introl eq_refl)).
Defined.

End EvalSourceMapCache.

(* ===================================================================== *)
(** * More about the module decorators *)
(* ===================================================================== *)

Module ModuleDecoratorMore.
Import ModuleDecorator ModuleDecoratorFacts.

(** X17. Decorating twice. A module that carries the [loaded] of a
    decorator cannot be given to the plain (node) decorator again: its
    [Object.defineProperty] for [loaded] meets a property that is not
    configurable and throws. The interop (harmony) decorator works on a
    fresh object each time, so it can be applied to a decorated module, and
    [loaded] and [id] of the result still read [l] and [i] of the module
    at the end of the prototype chain. *)
Theorem node_decorator_cannot_be_applied_twice (h : heap) (moduleId : value) (fuel : nat) :
  4 ≤ fuel →
  let '(h0, m, e) := newModule h moduleId in
  (∃ h1, nodeModuleDecorator fuel h0 m = Some (h1, m) ∧
         nodeModuleDecorator fuel h1 m = None ∧
         ∃ h2 d, harmonyModuleDecorator fuel h1 m = Some (h2, d) ∧
                 Get fuel h2 d "loaded" = Some (VBool false) ∧
                 Get fuel h2 d "id" = Some moduleId) ∧
  (∃ h1 d, harmonyModuleDecorator fuel h0 m = Some (h1, d) ∧
           nodeModuleDecorator fuel h1 d = None ∧
           ∃ h2 d', harmonyModuleDecorator fuel h1 d = Some (h2, d') ∧ d' ≠ d ∧
                    Get fuel h2 d' "loaded" = Some (VBool false) ∧
                    Get fuel h2 d' "id" = Some moduleId ∧
                    h2 !! m = h0 !! m).
Proof.
  intros Hfuel. destruct fuel as [|[|[|[|fuel]]]]; try lia.
  rewrite newModule_base. split.
  - eexists. split; [unfold nodeModuleDecorator; heap_eval; reflexivity|].
    split; [unfold nodeModuleDecorator; by heap_eval|].
    eexists _, _. split; [unfold harmonyModuleDecorator; heap_eval; reflexivity|].
    split; by heap_eval.
  - eexists _, _. split; [unfold harmonyModuleDecorator; heap_eval; reflexivity|].
    split; [unfold nodeModuleDecorator; by heap_eval|].
    eexists _, _. split; [unfold harmonyModuleDecorator; heap_eval; reflexivity|].
    split; [lia|]. split; [by heap_eval|]. split; [by heap_eval|]. by heap_eval.
Qed.

Lemma node_decorator_cannot_be_applied_twice_witness :
  ∃ h1, nodeModuleDecorator 4 (newModule [] (VNum 1)).1.1 1 = Some (h1, 1) ∧
        nodeModuleDecorator 4 h1 1 = None.
Proof.
  destruct (node_decorator_cannot_be_applied_twice [] (VNum 1) 4 (le_n 4))
    as [(h1 & H1 & H2 & _) _].
  exists h1. split; [exact H1|exact H2].
Defined.

(** X18. The [children] of a module. A module that has [children] keeps
    them: the plain decorator leaves the property and the array alone,
    the interop decorator defines no [children] on the new object, which
    shows those of the module. A module without [children] gets a new
    empty array from the plain decorator; with the interop decorator the
    new object gets the array and the module still has none. *)
Theorem decorators_keep_existing_children (h : heap) (moduleId : value) (fuel : nat) :
  3 ≤ fuel →
  let '(h0, m, e) := newModule h moduleId in
  let '(h1, a) := alloc h0 emptyArray in
  (∃ h2, Set_ fuel h1 m "children" (VRef a) = Some h2 ∧
     (∃ h3, nodeModuleDecorator fuel h2 m = Some (h3, m) ∧
            Get fuel h3 m "children" = Some (VRef a) ∧ h3 !! a = Some emptyArray) ∧
     (∃ h3 d o, harmonyModuleDecorator fuel h2 m = Some (h3, d) ∧
                h3 !! d = Some o ∧ getOwn "children" (props o) = None ∧
                Get fuel h3 d "children" = Some (VRef a) ∧ h3 !! a = Some emptyArray)) ∧
  (∃ h3 c, nodeModuleDecorator fuel h0 m = Some (h3, m) ∧
           Get fuel h3 m "children" = Some (VRef c) ∧ length h0 ≤ c ∧
           h3 !! c = Some emptyArray) ∧
  (∃ h3 d c, harmonyModuleDecorator fuel h0 m = Some (h3, d) ∧
             Get fuel h3 d "children" = Some (VRef c) ∧ length h0 ≤ c ∧
             h3 !! c = Some emptyArray ∧
             Get fuel h3 m "children" = Some VUndefined).
Proof.
  intros Hfuel. destruct fuel as [|[|[|fuel]]]; try lia.
  rewrite newModule_base. heap_eval. split; [|split].
  - eexists. split; [heap_eval; reflexivity|]. split.
    + eexists. split; [unfold nodeModuleDecorator; heap_eval; reflexivity|].
      split; by heap_eval.
    + eexists _, _, _. split; [unfold harmonyModuleDecorator; heap_eval; reflexivity|].
      split; [heap_eval; reflexivity|]. split; [done|]. split; by heap_eval.
  - eexists _, _. split; [unfold nodeModuleDecorator; heap_eval; reflexivity|].
    split; [by heap_eval|]. split; [rewrite length_app; simpl; lia|]. by heap_eval.
  - eexists _, _, _. split; [unfold harmonyModuleDecorator; heap_eval; reflexivity|].
    split; [by heap_eval|]. split; [rewrite length_app; simpl; lia|].
    split; by heap_eval.
Qed.

Lemma decorators_keep_existing_children_witness :
  ∃ h3 c, nodeModuleDecorator 3 (newModule [] (VNum 1)).1.1 1 = Some (h3, 1) ∧
          Get 3 h3 1 "children" = Some (VRef c) ∧ h3 !! c = Some emptyArray.
Proof.
  destruct (decorators_keep_existing_children [] (VNum 1) 3 (le_n 3))
    as (_ & (h3 & c & H1 & H2 & _ & H3) & _).
  exists h3, c. split; [exact H1|]. split; [exact H2|exact H3].
Defined.

End ModuleDecoratorMore.

(* ===================================================================== *)
(** * More about the manifest *)
(* ===================================================================== *)

Module LibManifestKeys.
Import LibManifest LibManifestFacts.

Lemma setProp_keys k v props :
  (setProp k v props).*1 = if bool_decide (k ∈ props.*1) then props.*1 else props.*1 ++ [k].
Proof.
  induction props as [|[k' v'] props IH]; [done|]. cbn [setProp].
  destruct (String.eqb_spec k k') as [->|Hne]; rewrite !fmap_cons; cbn [fst].
  - rewrite bool_decide_eq_true_2; [done|]. apply list_elem_of_here.
  - rewrite IH. destruct (decide (k ∈ props.*1)) as [Hin|Hnin].
    + rewrite !bool_decide_eq_true_2; [done|by apply list_elem_of_further|done].
    + rewrite !bool_decide_eq_false_2; [done| |done].
      by intros [?|?]%elem_of_cons.
Qed.

Lemma written_keys items : ∀ acc,
  NoDup acc.*1 →
  NoDup (foldl (λ obj item, setProp item.1 item.2 obj) acc items).*1 ∧
  ∀ k, k ∈ (foldl (λ obj item, setProp item.1 item.2 obj) acc items).*1 ↔
       k ∈ acc.*1 ∨ k ∈ items.*1.
Proof.
  induction items as [|[k0 v0] items IH]; intros acc Hnd; simpl.
  { split; [done|]. intros k. split; [by left|]. by intros [?|?%elem_of_nil]. }
  destruct (IH (setProp k0 v0 acc)) as [IH1 IH2].
  { rewrite setProp_keys. case_bool_decide; [done|].
    apply NoDup_app. split; [done|]. split; [|apply NoDup_singleton].
    by intros x Hx ->%list_elem_of_singleton. }
  split; [done|]. intros k. rewrite IH2, setProp_keys.
  change (k ∈ (k0 :: items.*1)) with (k ∈ k0 :: items.*1).
  case_bool_decide as Hin; rewrite ?elem_of_app, ?elem_of_cons, ?elem_of_nil.
  - split; [tauto|]. intros [?|[->|?]]; tauto.
  - tauto.
Qed.

Lemma getProp_is_Some k props : is_Some (getProp k props) ↔ k ∈ props.*1.
Proof.
  induction props as [|[k' v'] props IH]; simpl.
  - split; [by intros [? ?]|by intros ?%elem_of_nil].
  - destruct (String.eqb_spec k k') as [->|Hne].
    + split; [intros _; apply list_elem_of_here|by eexists].
    + rewrite IH, elem_of_cons. tauto.
Qed.

Lemma manifestItem_key opts ctx m k :
  (∃ d, manifestItem opts ctx m = Some (k, d)) ↔
  libIdent m ctx = Some k ∧ k ≠ "" ∧
  (entryOnly opts = true → existsb (λ b, b) (incoming m) = true).
Proof.
  unfold manifestItem, nonEmpty.
  destruct (entryOnly opts); simpl.
  - destruct (existsb (λ b, b) (incoming m)); simpl.
    + destruct (libIdent m ctx) as [ident|]; [|split; [by intros [? ?]|by intros [? _]]].
      destruct (String.eqb_spec ident "") as [->|Hne]; simpl.
      * split; [by intros [? ?]|]. intros [[= <-] [? _]]. done.
      * split; [intros [d [= <- _]]; done|]. intros [[= <-] _]. by eexists.
    + split; [by intros [? ?]|]. intros (_ & _ & H). by specialize (H eq_refl).
  - destruct (libIdent m ctx) as [ident|]; [|split; [by intros [? ?]|by intros [? _]]].
    destruct (String.eqb_spec ident "") as [->|Hne]; simpl.
    + split; [by intros [? ?]|]. intros [[= <-] [? _]]. done.
    + split; [intros [d [= <- _]]; done|]. intros [[= <-] _]. by eexists.
Qed.

(** X19. The keys of [content]. No two entries have the same key and no
    key is empty; a string is a key exactly when it is the identity of a
    module of the chunk that, under [entryOnly], has an incoming entry
    dependency. So [entryOnly] only takes entries away: every key of the
    manifest written with it is a key of the manifest written without
    it. *)
Theorem manifest_keys (opts : options) (ctx : string) (c : chunk) :
  NoDup (manifestContent opts ctx c).*1 ∧
  (∀ k, is_Some (getProp k (manifestContent opts ctx c)) ↔
        ∃ m, m ∈ chunkModules c ∧ libIdent m ctx = Some k ∧ k ≠ "" ∧
             (entryOnly opts = true → existsb (λ b, b) (incoming m) = true)) ∧
  (∀ k, is_Some (getProp k (manifestContent
                   (Options (path opts) (name opts) (type opts) true (format opts) (context opts))
                   ctx c)) →
        is_Some (getProp k (manifestContent
                   (Options (path opts) (name opts) (type opts) false (format opts) (context opts))
                   ctx c))).
Proof.
  assert (∀ o k, is_Some (getProp k (manifestContent o ctx c)) ↔
            ∃ m, m ∈ chunkModules c ∧ libIdent m ctx = Some k ∧ k ≠ "" ∧
                 (entryOnly o = true → existsb (λ b, b) (incoming m) = true)) as Hkeys.
  { intros o k. rewrite getProp_is_Some. unfold manifestContent.
    destruct (written_keys (omap (manifestItem o ctx) (chunkModules c)) []) as [_ ->];
      [apply NoDup_nil_2|].
    split.
    - intros [H|H]; [by apply elem_of_nil in H|].
      apply list_elem_of_fmap in H as ([k' d] & -> & Hin).
      apply list_elem_of_omap in Hin as (m & Hm & Hitem). exists m. split; [done|].
      apply manifestItem_key. by exists d.
    - intros (m & Hm & Hitem). right.
      apply manifestItem_key in Hitem as [d Hd]. apply list_elem_of_fmap.
      exists (k, d). split; [done|]. apply list_elem_of_omap. by exists m. }
  split; [|split].
  - unfold manifestContent. apply written_keys. apply NoDup_nil_2.
  - apply Hkeys.
  - intros k. rewrite !Hkeys. intros (m & Hm & Hid & Hne & _). exists m. by repeat split.
Qed.

Lemma manifest_keys_witness :
  is_Some (getProp "./file.js"
             (manifestContent (Options "dist/[name]-manifest.json" None (JStr "var") false false None)
                "/app" (Chunk "main" true [dynamicModule]))).
Proof.
  apply (proj2 (proj2 (manifest_keys exampleOptions "/app" (Chunk "main" true [dynamicModule])))
           "./file.js").
  vm_compute. by eexists.
Defined.

End LibManifestKeys.

